(** * mermaid-lint: block extraction, flowchart parsing and the rule engine

    A shallow embedding of the Go packages [pkg/parser], [pkg/config] and
    [pkg/linter] of skjutare/mermaid-lint and of the pure parts of its
    command, followed by the properties of the specification that were
    checked against it and by further properties of the code.

    Conventions of the embedding:
    - a Go [string] is a Rocq [string], that is a sequence of bytes;
    - a Go [int] is a [Z] kept in the signed 64-bit range by [wrap64];
    - a Go [map[string]T] is a [gmap string T];
    - a slice is a [list]; [append] is [++ [x]];
    - a loop over a slice is a [fold_left] of its body over the list;
    - [fmt.Sprintf] is kept symbolic: a message is the format string together
      with the operands it is applied to. *)

From Stdlib Require Import String Ascii ZArith List Lia.
From stdpp Require Import base option list gmap strings sorting.

Local Open Scope string_scope.
Local Open Scope list_scope.
Local Open Scope Z_scope.

(** ** Go integers *)

Definition wrap64 (z : Z) : Z := (z + 2 ^ 63) mod 2 ^ 64 - 2 ^ 63.

Definition int_add (a b : Z) : Z := wrap64 (a + b).

(** ** Bytes used by the sources *)

Definition byte (n : N) : ascii := ascii_of_N n.
Definition code (c : ascii) : N := N_of_ascii c.

Definition TAB : ascii := byte 9.
Definition LF : ascii := byte 10.
Definition CR : ascii := byte 13.

(** The one-byte string ["\n"]. *)
Definition nl : string := String LF "".

(** ** Package [strings] (standard library), as far as the sources use it *)

Module GoStrings.

Definition eqb_str (a b : string) : bool := bool_decide (a = b).

Definition isUpperASCII (c : ascii) : bool := ((65 <=? code c) && (code c <=? 90))%N.
Definition isLowerASCII (c : ascii) : bool := ((97 <=? code c) && (code c <=? 122))%N.

Definition lowerASCII (c : ascii) : ascii :=
  if isUpperASCII c then byte (code c + 32) else c.
Definition upperASCII (c : ascii) : ascii :=
  if isLowerASCII c then byte (code c - 32) else c.

(** [unicode.IsSpace] on the UTF-8 encoding: the number of bytes of the
    white-space rune the string starts with, [0] when it starts with none.
    One byte: TAB, LF, VT, FF, CR, SPACE.  Two bytes: U+0085 (C2 85),
    U+00A0 (C2 A0).  Three bytes: U+1680 (E1 9A 80), U+2000..U+200A
    (E2 80 80..8A), U+2028, U+2029, U+202F (E2 80 A8, A9, AF), U+205F
    (E2 81 9F), U+3000 (E3 80 80). *)
Definition isSpace1 (c : ascii) : bool :=
  (((9 <=? code c) && (code c <=? 13)) || (code c =? 32))%N.

Definition isSpace2 (c d : ascii) : bool :=
  ((code c =? 194) && ((code d =? 133) || (code d =? 160)))%N.

Definition isSpace3 (c d e : ascii) : bool :=
  (((code c =? 225) && (code d =? 154) && (code e =? 128))
   || ((code c =? 226) && (code d =? 128)
       && (((128 <=? code e) && (code e <=? 138))
           || (code e =? 168) || (code e =? 169) || (code e =? 175)))
   || ((code c =? 226) && (code d =? 129) && (code e =? 159))
   || ((code c =? 227) && (code d =? 128) && (code e =? 128)))%N.

Definition spaceWidth (s : string) : nat :=
  match s with
  | String c s1 =>
      if isSpace1 c then 1%nat
      else match s1 with
           | String d s2 =>
               if isSpace2 c d then 2%nat
               else match s2 with
                    | String e _ => if isSpace3 c d e then 3%nat else 0%nat
                    | EmptyString => 0%nat
                    end
           | EmptyString => 0%nat
           end
  | EmptyString => 0%nat
  end.

(** The same question for the rune the string ends with; [r] is the string
    reversed. *)
Definition spaceWidthLast (r : string) : nat :=
  match r with
  | String c r1 =>
      if isSpace1 c then 1%nat
      else match r1 with
           | String d r2 =>
               if isSpace2 d c then 2%nat
               else match r2 with
                    | String e _ => if isSpace3 e d c then 3%nat else 0%nat
                    | EmptyString => 0%nat
                    end
           | EmptyString => 0%nat
           end
  | EmptyString => 0%nat
  end.

Fixpoint rev_onto (s acc : string) : string :=
  match s with
  | EmptyString => acc
  | String c s' => rev_onto s' (String c acc)
  end.

Definition rev (s : string) : string := rev_onto s "".

(** Drop runes while [width] recognises one at the front; [skip] counts the
    bytes of the current rune that are still to be dropped. *)
Fixpoint dropWhile (width : string -> nat) (skip : nat) (s : string) : string :=
  match s with
  | EmptyString => EmptyString
  | String _ s' =>
      match skip with
      | S k => dropWhile width k s'
      | O => match width s with
             | O => s
             | S k => dropWhile width k s'
             end
      end
  end.

Definition TrimLeftSpace (s : string) : string := dropWhile spaceWidth 0 s.
Definition TrimRightSpace (s : string) : string :=
  rev (dropWhile spaceWidthLast 0 (rev s)).

(** [strings.TrimSpace]: leading and trailing white space removed. *)
Definition TrimSpace (s : string) : string := TrimRightSpace (TrimLeftSpace s).

(** [strings.HasPrefix] and [strings.TrimPrefix]. *)
Fixpoint stripPrefix (p s : string) : option string :=
  match p with
  | EmptyString => Some s
  | String a p' =>
      match s with
      | String b s' => if Ascii.eqb a b then stripPrefix p' s' else None
      | EmptyString => None
      end
  end.

Definition HasPrefix (s p : string) : bool :=
  match stripPrefix p s with Some _ => true | None => false end.

Definition TrimPrefix (s p : string) : string :=
  match stripPrefix p s with Some r => r | None => s end.

(** [strings.ToLower].  The sources only compare its result with ASCII
    keywords, so a rune is mapped when its lower case is an ASCII letter:
    A..Z, and U+0130 (C4 B0) to [i], U+212A (E2 84 AA) to [k]; every other
    rune keeps its (non-ASCII) bytes. *)
Fixpoint ToLower (s : string) : string :=
  match s with
  | EmptyString => EmptyString
  | String c s1 =>
      match s1 with
      | String d s2 =>
          if ((code c =? 196) && (code d =? 176))%N then String "i" (ToLower s2)
          else match s2 with
               | String e s3 =>
                   if ((code c =? 226) && (code d =? 132) && (code e =? 170))%N
                   then String "k" (ToLower s3)
                   else String (lowerASCII c) (ToLower s1)
               | EmptyString => String (lowerASCII c) (ToLower s1)
               end
      | EmptyString => String (lowerASCII c) EmptyString
      end
  end.

(** [strings.ToUpper], under the same reading: a..z, and U+0131 (C4 B1) to
    [I], U+017F (C5 BF) to [S]. *)
Fixpoint ToUpper (s : string) : string :=
  match s with
  | EmptyString => EmptyString
  | String c s1 =>
      match s1 with
      | String d s2 =>
          if ((code c =? 196) && (code d =? 177))%N then String "I" (ToUpper s2)
          else if ((code c =? 197) && (code d =? 191))%N then String "S" (ToUpper s2)
          else String (upperASCII c) (ToUpper s1)
      | EmptyString => String (upperASCII c) EmptyString
      end
  end.

(** [strings.EqualFold] against an ASCII word none of whose letters is
    [k] or [s] (the sources fold against "mermaid" only): equality of the
    bytes up to the case of ASCII letters. *)
Fixpoint EqualFold (s t : string) : bool :=
  match s, t with
  | EmptyString, EmptyString => true
  | String a s', String b t' => Ascii.eqb (lowerASCII a) (lowerASCII b) && EqualFold s' t'
  | _, _ => false
  end.

(** [strings.Fields]: the maximal runs of non-space runes. *)
Definition flush (cur : string) : list string :=
  match cur with EmptyString => [] | _ => [cur] end.

Fixpoint fieldsFrom (skip : nat) (cur : string) (s : string) : list string :=
  match s with
  | EmptyString => flush cur
  | String c s' =>
      match skip with
      | S k => fieldsFrom k cur s'
      | O => match spaceWidth s with
             | O => fieldsFrom 0 (cur +:+ String c "") s'
             | S k => flush cur ++ fieldsFrom k "" s'
             end
      end
  end.

Definition Fields (s : string) : list string := fieldsFrom 0 "" s.

(** [strings.Split] at a one-byte separator: always at least one piece. *)
Fixpoint splitFrom (sep : ascii) (cur : string) (s : string) : list string :=
  match s with
  | EmptyString => [cur]
  | String c s' =>
      if Ascii.eqb c sep then cur :: splitFrom sep "" s'
      else splitFrom sep (cur +:+ String c "") s'
  end.

Definition Split (s : string) (sep : ascii) : list string := splitFrom sep "" s.

(** [strings.Join]. *)
Fixpoint Join (elems : list string) (sep : string) : string :=
  match elems with
  | [] => ""
  | [e] => e
  | e :: rest => e +:+ sep +:+ Join rest sep
  end.

End GoStrings.

Import GoStrings.


(** ** Package [regexp] (standard library), as far as the sources use it

    Go's matcher returns the leftmost match and, among the matches that start
    there, the one a backtracking search finds first: alternatives are tried
    from left to right, [x*] and [x?] take as much as they can and give back
    only when what follows fails.  [run] is that backtracking search, written
    with a continuation for what follows.  The operators are the ones the two
    patterns of the parser are built from; repetition is of a character class,
    which is all they use.  The classes are ASCII ones or their complements,
    so matching byte by byte and matching rune by rune select the same
    substrings. *)

Module Regexp.

Inductive regex : Type :=
| Bol                                   (* ^ : at the start of the text *)
| Cls (p : ascii -> bool)               (* one character of a class *)
| Lit (l : string)                      (* a literal *)
| Star (p : ascii -> bool)              (* [class]*, greedy *)
| Cat (r1 r2 : regex)                   (* r1 r2 *)
| Alt (r1 r2 : regex)                   (* r1|r2, r1 preferred *)
| Opt (r : regex)                       (* (?:r)?, greedy *)
| Cap (n : nat) (r : regex).            (* capture group number n *)

Declare Scope regex_scope.
Delimit Scope regex_scope with re.
Bind Scope regex_scope with regex.
Infix "·" := Cat (at level 40, left associativity) : regex_scope.
Infix "∣" := Alt (at level 50, left associativity) : regex_scope.

(** Character classes. *)
Definition notChar (a : ascii) : ascii -> bool := fun c => negb (Ascii.eqb c a).
Definition oneOf (l : list ascii) : ascii -> bool :=
  fun c => existsb (Ascii.eqb c) l.
Definition isDigit (c : ascii) : bool := ((48 <=? code c) && (code c <=? 57))%N.
(** [[A-Za-z_]] and [[A-Za-z0-9_]] *)
Definition identStart (c : ascii) : bool :=
  isUpperASCII c || isLowerASCII c || Ascii.eqb c "_".
Definition identChar (c : ascii) : bool := identStart c || isDigit c.
(** [\s] is [[\t\n\f\r ]] *)
Definition perlSpace (c : ascii) : bool :=
  ((code c =? 9) || (code c =? 10) || (code c =? 12) || (code c =? 13) || (code c =? 32))%N.
(** [.] is any character but the line feed *)
Definition anyChar (c : ascii) : bool := negb (Ascii.eqb c LF).

(** The submatches of a match, group 0 first; a group that took no part in
    the match reads as the empty string. *)
Definition submatches : Type := list string.

(** A continuation receives the position reached, the text left and the
    groups captured so far. *)
Definition cont : Type := nat -> string -> submatches -> option (nat * submatches).

Fixpoint runStar (p : ascii -> bool) (pos : nat) (s : string) (caps : submatches)
    (k : cont) : option (nat * submatches) :=
  match s with
  | String c s' =>
      if p c then
        match runStar p (S pos) s' caps k with
        | Some m => Some m
        | None => k pos s caps
        end
      else k pos s caps
  | EmptyString => k pos s caps
  end.

Fixpoint run (r : regex) (pos : nat) (s : string) (caps : submatches)
    (k : cont) : option (nat * submatches) :=
  match r with
  | Bol => if Nat.eqb pos 0 then k pos s caps else None
  | Cls p =>
      match s with
      | String c s' => if p c then k (S pos) s' caps else None
      | EmptyString => None
      end
  | Lit l =>
      match stripPrefix l s with
      | Some s' => k (pos + String.length l)%nat s' caps
      | None => None
      end
  | Star p => runStar p pos s caps k
  | Cat r1 r2 => run r1 pos s caps (fun pos' s' caps' => run r2 pos' s' caps' k)
  | Alt r1 r2 =>
      match run r1 pos s caps k with
      | Some m => Some m
      | None => run r2 pos s caps k
      end
  | Opt r1 =>
      match run r1 pos s caps k with
      | Some m => Some m
      | None => k pos s caps
      end
  | Cap n r1 =>
      run r1 pos s caps
        (fun pos' s' caps' => k pos' s' (<[n := String.substring 0 (pos' - pos) s]> caps'))
  end.

(** A compiled pattern: the text it was written as, the expression that text
    denotes and the number of its groups. *)
Record Regexp : Type := MustCompile { Source : string; expr : regex; numCap : nat }.

(** The match that starts at position [pos], where [s] is the text from
    there on: its length and its submatches. *)
Definition matchAt (re : Regexp) (pos : nat) (s : string) : option (nat * submatches) :=
  run (expr re) pos s (replicate (S (numCap re)) "")
    (fun pos' _ caps' =>
       Some ((pos' - pos)%nat, <[0%nat := String.substring 0 (pos' - pos) s]> caps')).

(** [FindAllStringSubmatch(s, -1)]: the successive leftmost matches, each
    search starting where the previous match ended.  [skip] counts the
    characters of the previous match that are still to be passed.  (The
    patterns of the parser match no empty string, so Go's rule for empty
    matches plays no part.) *)
Fixpoint findAllFrom (re : Regexp) (skip pos : nat) (s : string) : list submatches :=
  match skip with
  | S k =>
      match s with
      | String _ s' => findAllFrom re k (S pos) s'
      | EmptyString => []
      end
  | O =>
      match matchAt re pos s with
      | Some (len, caps) =>
          caps :: match s with
                  | String _ s' => findAllFrom re (len - 1) (S pos) s'
                  | EmptyString => []
                  end
      | None =>
          match s with
          | String _ s' => findAllFrom re 0 (S pos) s'
          | EmptyString => []
          end
      end
  end.

Definition FindAllStringSubmatch (re : Regexp) (s : string) : list submatches :=
  findAllFrom re 0 0 s.

End Regexp.

Import Regexp.


(** ** Package [bufio]: a line scanner

    [ExtractMermaidBlocks] reads its input through a [bufio.Scanner] with the
    default split function (ScanLines).  A scanner is modelled by what the
    loop [for scanner.Scan() { ... scanner.Text() ... }] observes of it: the
    lines it yields, in order, and the error [scanner.Err()] reports when the
    loop has ended ([None] for a clean end of input). *)

Module Bufio.

Inductive error : Type :=
| ErrTooLong                       (* bufio.Scanner: token too long *)
| ReadError (msg : string).        (* an error of the underlying reader *)

Record Scanner : Type := mkScanner { Lines : list string; Err : option error }.

(** MaxScanTokenSize: a line of that many bytes or more ends the scan with
    [ErrTooLong]. *)
Definition MaxScanTokenSize : N := 64 * 1024.

(** [dropCR]: one trailing carriage return is not part of the line. *)
Definition dropCR (line : string) : string :=
  match GoStrings.rev line with
  | String c r => if Ascii.eqb c CR then GoStrings.rev r else line
  | EmptyString => line
  end.

Fixpoint scanPieces (pieces : list string) : Scanner :=
  match pieces with
  | [] => mkScanner [] None
  | [EmptyString] => mkScanner [] None          (* nothing after the last line feed *)
  | raw :: rest =>
      if (N.of_nat (String.length raw) <? MaxScanTokenSize)%N then
        let sc := scanPieces rest in
        mkScanner (dropCR raw :: Lines sc) (Err sc)
      else mkScanner [] (Some ErrTooLong)
  end.

(** [bufio.NewScanner(strings.NewReader(text))]. *)
Definition NewScanner (text : string) : Scanner := scanPieces (Split text LF).

End Bufio.

Import Bufio.

(** ** Package [parser]: mermaid blocks in markdown *)

Module Parser.

(** MermaidBlock represents a mermaid code block found in a markdown file. *)
Record MermaidBlock : Type := mkBlock {
  BlockSource : string;  (* The mermaid source code (without fences) *)
  BlockStartLine : Z;    (* 1-based line number of the opening fence *)
  EndLine : Z            (* 1-based line number of the closing fence *)
}.

Definition isMermaidFenceOpen (line : string) : bool :=
  if HasPrefix line "```" then
    let lang := TrimSpace (TrimPrefix line "```") in
    EqualFold lang "mermaid"
  else if HasPrefix line "~~~" then
    let lang := TrimSpace (TrimPrefix line "~~~") in
    EqualFold lang "mermaid"
  else false.

Definition isClosingFence (line : string) : bool :=
  eqb_str line "```" || eqb_str line "~~~".

(** The variables of the scanning loop. *)
Record extractState : Type := mkExtract {
  blocks : list MermaidBlock;
  current : option MermaidBlock;
  lines : list string;
  lineNum : Z
}.

Definition extractInit : extractState := mkExtract [] None [] 0.

(** The body of [for scanner.Scan() { ... }], for the line just read. *)
Definition extractStep (st : extractState) (line : string) : extractState :=
  let lineNum := int_add (lineNum st) 1 in
  let trimmed := TrimSpace line in
  match current st with
  | None =>
      (* Look for opening fence *)
      if isMermaidFenceOpen trimmed
      then mkExtract (blocks st) (Some (mkBlock "" lineNum 0)) [] lineNum
      else mkExtract (blocks st) None (lines st) lineNum
  | Some cur =>
      (* Inside a mermaid block, look for closing fence *)
      if isClosingFence trimmed
      then mkExtract
             (blocks st ++ [mkBlock (Join (lines st) nl) (BlockStartLine cur) lineNum])
             None [] lineNum
      else mkExtract (blocks st) (Some cur) (lines st ++ [line]) lineNum
  end.

(** [ExtractMermaidBlocks]: the blocks, or the scanner's error. *)
Definition ExtractMermaidBlocks (r : Scanner) : list MermaidBlock + error :=
  let st := fold_left extractStep (Lines r) extractInit in
  match Err r with
  | Some err => inr err
  | None => inl (blocks st)
  end.

End Parser.

Import Parser.


(** ** Package [parser]: diagrams *)

Module Diagrams.

(** DiagramType represents a known Mermaid diagram type (a Go string type;
    its zero value is the empty string). *)
Definition DiagramType : Type := string.

Definition DiagramFlowchart : DiagramType := "flowchart".
Definition DiagramGraph : DiagramType := "graph".
Definition DiagramSequence : DiagramType := "sequenceDiagram".
Definition DiagramClass : DiagramType := "classDiagram".
Definition DiagramState : DiagramType := "stateDiagram".
Definition DiagramStateV2 : DiagramType := "stateDiagram-v2".
Definition DiagramER : DiagramType := "erDiagram".
Definition DiagramGantt : DiagramType := "gantt".
Definition DiagramPie : DiagramType := "pie".
Definition DiagramGitGraph : DiagramType := "gitGraph".
Definition DiagramMindmap : DiagramType := "mindmap".
Definition DiagramTimeline : DiagramType := "timeline".
Definition DiagramQuadrant : DiagramType := "quadrantChart".
Definition DiagramRequirement : DiagramType := "requirementDiagram".
Definition DiagramC4Context : DiagramType := "C4Context".
Definition DiagramC4Container : DiagramType := "C4Container".
Definition DiagramC4Component : DiagramType := "C4Component".
Definition DiagramC4Dynamic : DiagramType := "C4Dynamic".
Definition DiagramC4Deployment : DiagramType := "C4Deployment".
Definition DiagramSankey : DiagramType := "sankey-beta".
Definition DiagramBlock : DiagramType := "block-beta".
Definition DiagramXYChart : DiagramType := "xychart-beta".
Definition DiagramUnknown : DiagramType := "unknown".

(** KnownDiagramTypes lists all recognized Mermaid diagram types. *)
Definition KnownDiagramTypes : gmap string DiagramType :=
  list_to_map [
    ("flowchart", DiagramFlowchart);
    ("graph", DiagramGraph);
    ("sequencediagram", DiagramSequence);
    ("classdiagram", DiagramClass);
    ("statediagram", DiagramState);
    ("statediagram-v2", DiagramStateV2);
    ("erdiagram", DiagramER);
    ("gantt", DiagramGantt);
    ("pie", DiagramPie);
    ("gitgraph", DiagramGitGraph);
    ("mindmap", DiagramMindmap);
    ("timeline", DiagramTimeline);
    ("quadrantchart", DiagramQuadrant);
    ("requirementdiagram", DiagramRequirement);
    ("c4context", DiagramC4Context);
    ("c4container", DiagramC4Container);
    ("c4component", DiagramC4Component);
    ("c4dynamic", DiagramC4Dynamic);
    ("c4deployment", DiagramC4Deployment);
    ("sankey-beta", DiagramSankey);
    ("block-beta", DiagramBlock);
    ("xychart-beta", DiagramXYChart)
  ].

(** ValidFlowchartDirections contains all valid flowchart/graph directions. *)
Definition ValidFlowchartDirections : gmap string bool :=
  list_to_map [("TB", true); ("TD", true); ("BT", true); ("LR", true); ("RL", true)].

(** Reading a [map[string]bool]: a missing key reads as [false]. *)
Definition lookupBool (m : gmap string bool) (k : string) : bool :=
  default false (m !! k).

(** Node represents a node in a Mermaid diagram. *)
Record Node : Type := mkNode {
  NodeID : string;
  NodeLabel : string;
  NodeLine : Z;
  NodeShape : string
}.

(** Edge represents a connection between nodes. *)
Record Edge : Type := mkEdge {
  From : string;
  To : string;
  EdgeLabel : string;
  EdgeLine : Z;
  Style : string
}.

(** Diagram represents a parsed Mermaid diagram. *)
Record Diagram : Type := mkDiagram {
  Type_ : DiagramType;
  TypeRaw : string;      (* The raw type string as written *)
  Direction : string;    (* For flowcharts: TB, TD, BT, LR, RL *)
  Nodes : list Node;
  Edges : list Edge;
  DLines : list string;  (* Original source lines *)
  StartLine : Z          (* Starting line in the original file (1-based) *)
}.

(** [d.Type == DiagramFlowchart || d.Type == DiagramGraph] *)
Definition isFlow (t : DiagramType) : bool :=
  eqb_str t DiagramFlowchart || eqb_str t DiagramGraph.

(** [trimmed == "" || strings.HasPrefix(trimmed, "%%")] *)
Definition blankOrComment (trimmed : string) : bool :=
  eqb_str trimmed "" || HasPrefix trimmed "%%".

(** [parseType]: the loop returns at the first line that is neither blank nor
    a comment; [d] is left as it is when there is none. *)
Fixpoint parseType (d : Diagram) (lines : list string) : Diagram :=
  match lines with
  | [] => d
  | line :: rest =>
      let trimmed := TrimSpace line in
      if blankOrComment trimmed then parseType d rest
      else
        (* Extract the first word (diagram type keyword) *)
        match Fields trimmed with
        | [] => parseType d rest
        | keyword :: more =>
            let normalized := ToLower keyword in
            let ty := match KnownDiagramTypes !! normalized with
                      | Some dt => dt
                      | None => DiagramUnknown
                      end in
            (* For flowchart/graph, extract direction *)
            let dir := match more with
                       | second :: _ => if isFlow ty then second else Direction d
                       | [] => Direction d
                       end in
            mkDiagram ty keyword dir (Nodes d) (Edges d) (DLines d) (StartLine d)
        end
  end.

(** Match node definitions:
    A, A[label], A(label), A{label}, A((label)), A>label], A[/label/], etc.
    [Source] is the text given to [regexp.MustCompile]. *)
Definition nodeDefPattern : Regexp :=
  MustCompile
    ("(?:^|[\s;])([A-Za-z_][A-Za-z0-9_]*)" +:+
     "(?:" +:+
     "\[([^\]]*)\]" +:+
     "|\(([^)]*)\)" +:+
     "|\{([^}]*)\}" +:+
     "|\[\[([^\]]*)\]\]" +:+
     "|\[\(([^)]*)\)\]" +:+
     "|\(\[([^\]]*)\]\)" +:+
     "|\(\(([^)]*)\)\)" +:+
     "|>([^\]]*)\]" +:+
     "|\[/([^\]]*)/\]" +:+
     "|\[\\([^\]]*)\\\]" +:+
     ")?")
    ((Bol ∣ Cls (fun c => perlSpace c || Ascii.eqb c ";"))
     · Cap 1 (Cls identStart · Star identChar)
     · Opt (
         (Lit "[" · Cap 2 (Star (notChar "]")) · Lit "]")        (* [label] rectangle *)
       ∣ (Lit "(" · Cap 3 (Star (notChar ")")) · Lit ")")        (* (label) rounded *)
       ∣ (Lit "{" · Cap 4 (Star (notChar "}")) · Lit "}")        (* {label} rhombus *)
       ∣ (Lit "[[" · Cap 5 (Star (notChar "]")) · Lit "]]")      (* [[label]] subroutine *)
       ∣ (Lit "[(" · Cap 6 (Star (notChar ")")) · Lit ")]")      (* [(label)] cylinder *)
       ∣ (Lit "([" · Cap 7 (Star (notChar "]")) · Lit "])")      (* ([label]) stadium *)
       ∣ (Lit "((" · Cap 8 (Star (notChar ")")) · Lit "))")      (* ((label)) circle *)
       ∣ (Lit ">" · Cap 9 (Star (notChar "]")) · Lit "]")        (* >label] asymmetric *)
       ∣ (Lit "[/" · Cap 10 (Star (notChar "]")) · Lit "/]")     (* [/label/] parallelogram *)
       ∣ (Lit "[\" · Cap 11 (Star (notChar "]")) · Lit "\]")     (* [\label\] parallelogram alt *)
       ))%re
    11.

(** Match edges between nodes: A --> B, A --- B, A -.-> B, A ==> B, etc. *)
Definition edgePattern : Regexp :=
  MustCompile
    ("([A-Za-z_][A-Za-z0-9_]*)" +:+
     "\s*" +:+
     "(-->|---|-.->|-.-|==>|===|--[>x]|~~>|~~)" +:+
     "\s*" +:+
     "(?:\|([^|]*)\|\s*)?" +:+
     "([A-Za-z_][A-Za-z0-9_]*)")
    (Cap 1 (Cls identStart · Star identChar)
     · Star perlSpace
     · Cap 2 (  Lit "-->"
              ∣ Lit "---"
              ∣ (Lit "-" · Cls anyChar · Lit "->")
              ∣ (Lit "-" · Cls anyChar · Lit "-")
              ∣ Lit "==>"
              ∣ Lit "==="
              ∣ (Lit "--" · Cls (oneOf [">"; "x"]%char))
              ∣ Lit "~~>"
              ∣ Lit "~~")
     · Star perlSpace
     · Opt (Lit "|" · Cap 3 (Star (notChar "|")) · Lit "|" · Star perlSpace)
     · Cap 4 (Cls identStart · Star identChar))%re
    4.

(** [match[j]] *)
Definition group (m : submatches) (j : nat) : string := default "" (m !! j).

(** [isDeclarationLine]: some key of [KnownDiagramTypes] starts the line. *)
Definition isDeclarationLine (line : string) : bool :=
  let lower := ToLower (TrimSpace line) in
  existsb (fun kv => HasPrefix lower kv.1) (map_to_list KnownDiagramTypes).

(** Skip subgraph/end/style/class directives *)
Definition isDirective (lower : string) : bool :=
  HasPrefix lower "subgraph"
  || eqb_str lower "end"
  || HasPrefix lower "style "
  || HasPrefix lower "classDef "
  || HasPrefix lower "classdef "
  || HasPrefix lower "click "
  || HasPrefix lower "linkstyle ".

(** The variables [parseFlowchart] updates: the local [seenNodes], and the
    fields [d.Nodes] and [d.Edges]. *)
Record flowState : Type := mkFlow {
  seenNodes : gmap string bool;
  nodes : list Node;
  edges : list Edge
}.

(** Register nodes referenced in edges:
    [if !seenNodes[id] { seenNodes[id] = true; d.Nodes = append(...) }] *)
Definition register (lineNum : Z) (id : string) (st : flowState) : flowState :=
  if negb (lookupBool (seenNodes st) id)
  then mkFlow (<[id := true]> (seenNodes st))
              (nodes st ++ [mkNode id "" lineNum ""])
              (edges st)
  else st.

(** The body of [for _, match := range edgeMatches]. *)
Definition edgeStep (lineNum : Z) (st : flowState) (m : submatches) : flowState :=
  let fromID := group m 1 in
  let style := group m 2 in
  let label := group m 3 in
  let toID := group m 4 in
  let st := mkFlow (seenNodes st) (nodes st)
                   (edges st ++ [mkEdge fromID toID label lineNum style]) in
  register lineNum toID (register lineNum fromID st).

(** [switch j] in the scan of the capture groups. *)
Definition shapeOf (j : nat) : string :=
  match j with
  | 2 => "rect"
  | 3 => "round"
  | 4 => "rhombus"
  | 5 => "subroutine"
  | 6 => "cylinder"
  | 7 => "stadium"
  | 8 => "circle"
  | 9 => "asymmetric"
  | 10 => "parallelogram"
  | 11 => "parallelogram-alt"
  | _ => "default"
  end%nat.

(** Determine label from whichever capture group matched:
    [for j := 2; j < len(match); j++ { if match[j] != "" { ...; break } }],
    with [groups] the submatches from index [j] on. *)
Fixpoint labelShapeFrom (j : nat) (groups : list string) : string * string :=
  match groups with
  | [] => ("", "default")
  | g :: rest =>
      if negb (eqb_str g "") then (g, shapeOf j) else labelShapeFrom (S j) rest
  end.

Definition labelShape (m : submatches) : string * string :=
  labelShapeFrom 2 (drop 2 m).

(** Update existing node with label info: the first node with this id and an
    empty label takes the label and the shape, and the loop breaks. *)
Fixpoint backfill (id label shape : string) (ns : list Node) : list Node :=
  match ns with
  | [] => []
  | n :: rest =>
      if eqb_str (NodeID n) id && eqb_str (NodeLabel n) ""
      then mkNode (NodeID n) label (NodeLine n) shape :: rest
      else n :: backfill id label shape rest
  end.

(** The body of [for _, match := range nodeMatches]. *)
Definition nodeStep (lineNum : Z) (st : flowState) (m : submatches) : flowState :=
  let id := group m 1 in
  if eqb_str id "" then st
  else
    let '(label, shape) := labelShape m in
    if negb (lookupBool (seenNodes st) id)
    then mkFlow (<[id := true]> (seenNodes st))
                (nodes st ++ [mkNode id label lineNum shape])
                (edges st)
    else if negb (eqb_str label "")
    then mkFlow (seenNodes st) (backfill id label shape (nodes st)) (edges st)
    else st.

(** The body of [for i, line := range lines]. *)
Definition flowLine (startLine : Z) (i : nat) (line : string) (st : flowState) : flowState :=
  let trimmed := TrimSpace line in
  (* Skip empty lines, comments, and the diagram declaration *)
  if blankOrComment trimmed then st
  else if Nat.eqb i 0 || isDeclarationLine trimmed then st
  else
    let lower := ToLower trimmed in
    if isDirective lower then st
    else
      let lineNum := int_add startLine (Z.of_nat i) in
      (* Try to parse edges *)
      let st := fold_left (edgeStep lineNum) (FindAllStringSubmatch edgePattern trimmed) st in
      (* Try to parse standalone node definitions *)
      fold_left (nodeStep lineNum) (FindAllStringSubmatch nodeDefPattern trimmed) st.

Fixpoint flowLoop (startLine : Z) (i : nat) (lines : list string) (st : flowState)
    : flowState :=
  match lines with
  | [] => st
  | line :: rest => flowLoop startLine (S i) rest (flowLine startLine i line st)
  end.

Definition parseFlowchart (d : Diagram) (lines : list string) : Diagram :=
  let st := flowLoop (StartLine d) 0 lines (mkFlow ∅ (Nodes d) (Edges d)) in
  mkDiagram (Type_ d) (TypeRaw d) (Direction d) (nodes st) (edges st) (DLines d) (StartLine d).

(** Parse parses a Mermaid diagram source string into a Diagram.
    startLine is the 1-based line number where this diagram starts in the file. *)
Definition Parse (source : string) (startLine : Z) : Diagram :=
  let lines := Split source LF in
  let d := mkDiagram "" "" "" [] [] lines startLine in
  let d := parseType d lines in
  if isFlow (Type_ d) then parseFlowchart d lines else d.

End Diagrams.

Import Diagrams.

(** ** Package [config] *)

Module Config.

(** Severity represents how severe a lint finding is (a Go string type). *)
Definition Severity : Type := string.

Definition SeverityError : Severity := "error".
Definition SeverityWarning : Severity := "warning".
Definition SeverityInfo : Severity := "info".

(** RuleConfig holds configuration for a single lint rule. *)
Record RuleConfig : Type := mkRuleConfig {
  Enabled : bool;
  RCSeverity : Severity
}.

(** Config holds the complete linter configuration. *)
Record Config : Type := mkConfig {
  CRules : gmap string RuleConfig
}.

(** DefaultConfig returns the default configuration with all rules enabled. *)
Definition DefaultConfig : Config :=
  mkConfig (list_to_map [
    ("no-unknown-diagram-type", mkRuleConfig true SeverityError);
    ("no-empty-diagram", mkRuleConfig true SeverityWarning);
    ("valid-direction", mkRuleConfig true SeverityError);
    ("no-duplicate-node-ids", mkRuleConfig true SeverityWarning);
    ("node-has-label", mkRuleConfig true SeverityInfo);
    ("no-orphan-nodes", mkRuleConfig true SeverityWarning)
  ]).

(** IsRuleEnabled checks whether a rule is enabled in the config. *)
Definition IsRuleEnabled (c : Config) (name : string) : bool :=
  match CRules c !! name with
  | None => false
  | Some rule => Enabled rule
  end.

(** RuleSeverity returns the severity for a rule, defaulting to warning. *)
Definition RuleSeverity (c : Config) (name : string) : Severity :=
  match CRules c !! name with
  | None => SeverityWarning
  | Some rule => RCSeverity rule
  end.

End Config.

Import Config.

(** ** Package [linter] *)

Module Linter.

(** An operand of [fmt.Sprintf]. *)
Inductive operand : Type :=
| Quoted (s : string)      (* printed by %q *)
| Decimal (n : Z).         (* printed by %d *)

(** The text of a finding: a string constant, or [fmt.Sprintf] of a format
    and its operands. *)
Inductive message : Type :=
| Text (s : string)
| Sprintf (format : string) (operands : list operand).

(** Finding represents a single lint finding. *)
Record Finding : Type := mkFinding {
  Rule : string;
  FSeverity : Severity;
  Message : message;
  File : string;
  Line : Z
}.

(** A finding as a rule's [Check] builds it: [Rule], [Message] and [Line]
    are given, [Severity] and [File] keep their zero values. *)
Definition finding (rule : string) (msg : message) (line : Z) : Finding :=
  mkFinding rule "" msg "" line.

(** Rule defines the interface for a lint rule. *)
Record LintRule : Type := mkRule {
  Name : string;
  Description : string;
  Check : Diagram -> list Finding
}.

(** --- Rule: no-unknown-diagram-type --- *)
Definition NoUnknownDiagramType_Name : string := "no-unknown-diagram-type".

Definition NoUnknownDiagramType_Check (d : Diagram) : list Finding :=
  if eqb_str (Type_ d) DiagramUnknown && negb (eqb_str (TypeRaw d) "") then
    [finding NoUnknownDiagramType_Name
       (Sprintf "unknown diagram type %q" [Quoted (TypeRaw d)]) (StartLine d)]
  else if eqb_str (TypeRaw d) "" then
    [finding NoUnknownDiagramType_Name
       (Text "no diagram type declaration found") (StartLine d)]
  else [].

Definition NoUnknownDiagramType : LintRule :=
  mkRule NoUnknownDiagramType_Name "Diagram type must be a recognized Mermaid type"
         NoUnknownDiagramType_Check.

(** --- Rule: no-empty-diagram --- *)
Definition NoEmptyDiagram_Name : string := "no-empty-diagram".

Definition NoEmptyDiagram_Check (d : Diagram) : list Finding :=
  (* Only check diagram types where we can detect emptiness *)
  if negb (isFlow (Type_ d)) then []
  else if Nat.eqb (length (Nodes d)) 0 && Nat.eqb (length (Edges d)) 0 then
    [finding NoEmptyDiagram_Name (Text "diagram has no nodes or edges") (StartLine d)]
  else [].

Definition NoEmptyDiagram : LintRule :=
  mkRule NoEmptyDiagram_Name "Diagram must contain at least one element"
         NoEmptyDiagram_Check.

(** --- Rule: valid-direction --- *)
Definition ValidDirection_Name : string := "valid-direction".

Definition ValidDirection_Check (d : Diagram) : list Finding :=
  if negb (isFlow (Type_ d)) then []
  else if eqb_str (Direction d) "" then
    (* graph without direction defaults to TD, which is fine *)
    []
  else
    let dir := ToUpper (Direction d) in
    if negb (lookupBool ValidFlowchartDirections dir) then
      [finding ValidDirection_Name
         (Sprintf "invalid flowchart direction %q; must be one of TB, TD, BT, LR, RL"
                  [Quoted (Direction d)])
         (StartLine d)]
    else [].

Definition ValidDirection : LintRule :=
  mkRule ValidDirection_Name "Flowchart direction must be TB, TD, BT, LR, or RL"
         ValidDirection_Check.

(** --- Rule: no-duplicate-node-ids --- *)
Definition NoDuplicateNodeIDs_Name : string := "no-duplicate-node-ids".

(** The body of [for _, node := range d.Nodes], on [seen] (id -> first line)
    and [findings]. *)
Definition dupStep (acc : gmap string Z * list Finding) (node : Node)
    : gmap string Z * list Finding :=
  let '(seen, findings) := acc in
  match seen !! NodeID node with
  | Some firstLine =>
      (seen,
       findings ++ [finding NoDuplicateNodeIDs_Name
                      (Sprintf "duplicate node ID %q (first defined at line %d)"
                               [Quoted (NodeID node); Decimal firstLine])
                      (NodeLine node)])
  | None => (<[NodeID node := NodeLine node]> seen, findings)
  end.

Definition NoDuplicateNodeIDs_Check (d : Diagram) : list Finding :=
  if negb (isFlow (Type_ d)) then []
  else (fold_left dupStep (Nodes d) (∅, [])).2.

Definition NoDuplicateNodeIDs : LintRule :=
  mkRule NoDuplicateNodeIDs_Name "Node IDs must be unique within a diagram"
         NoDuplicateNodeIDs_Check.

(** --- Rule: node-has-label --- *)
Definition NodeHasLabel_Name : string := "node-has-label".

Definition labelStep (findings : list Finding) (node : Node) : list Finding :=
  if eqb_str (NodeLabel node) "" then
    findings ++ [finding NodeHasLabel_Name
                   (Sprintf "node %q has no label" [Quoted (NodeID node)])
                   (NodeLine node)]
  else findings.

Definition NodeHasLabel_Check (d : Diagram) : list Finding :=
  if negb (isFlow (Type_ d)) then []
  else fold_left labelStep (Nodes d) [].

Definition NodeHasLabel : LintRule :=
  mkRule NodeHasLabel_Name "Nodes should have descriptive labels" NodeHasLabel_Check.

(** --- Rule: no-orphan-nodes --- *)
Definition NoOrphanNodes_Name : string := "no-orphan-nodes".

(** [connected[edge.From] = true; connected[edge.To] = true] *)
Definition connectStep (connected : gmap string bool) (edge : Edge) : gmap string bool :=
  <[To edge := true]> (<[From edge := true]> connected).

Definition orphanStep (connected : gmap string bool) (findings : list Finding)
    (node : Node) : list Finding :=
  if negb (lookupBool connected (NodeID node)) then
    findings ++ [finding NoOrphanNodes_Name
                   (Sprintf "node %q is not connected to any edge" [Quoted (NodeID node)])
                   (NodeLine node)]
  else findings.

Definition NoOrphanNodes_Check (d : Diagram) : list Finding :=
  if negb (isFlow (Type_ d)) then []
  else if Nat.eqb (length (Edges d)) 0 then
    [] (* Don't flag orphans if there are no edges at all *)
  else
    let connected := fold_left connectStep (Edges d) ∅ in
    fold_left (orphanStep connected) (Nodes d) [].

Definition NoOrphanNodes : LintRule :=
  mkRule NoOrphanNodes_Name "All nodes should be connected to at least one edge"
         NoOrphanNodes_Check.

(** AllRules returns all available lint rules. *)
Definition AllRules : list LintRule :=
  [ NoUnknownDiagramType;
    NoEmptyDiagram;
    ValidDirection;
    NoDuplicateNodeIDs;
    NodeHasLabel;
    NoOrphanNodes ].

(** Linter runs lint rules against Mermaid diagrams. *)
Record Linter : Type := mkLinter {
  LConfig : Config;
  LRules : list LintRule
}.

(** New creates a new Linter with the given configuration. *)
Definition New (cfg : Config) : Linter := mkLinter cfg AllRules.

(** The inner loop of [lintDiagram]: [for _, f := range rule.Check(d)]. *)
Definition stamp (filename : string) (severity : Severity)
    (findings : list Finding) (f : Finding) : list Finding :=
  findings ++ [mkFinding (Rule f) severity (Message f) filename (Line f)].

(** The outer loop: [for _, rule := range l.Rules]. *)
Definition ruleStep (l : Linter) (d : Diagram) (filename : string)
    (findings : list Finding) (rule : LintRule) : list Finding :=
  if negb (IsRuleEnabled (LConfig l) (Name rule)) then findings
  else
    let severity := RuleSeverity (LConfig l) (Name rule) in
    fold_left (stamp filename severity) (Check rule d) findings.

Definition lintDiagram (l : Linter) (d : Diagram) (filename : string) : list Finding :=
  fold_left (ruleStep l d filename) (LRules l) [].

(** LintSource lints raw mermaid source code. *)
Definition LintSource (l : Linter) (source : string) (filename : string) : list Finding :=
  let diagram := Parse source 1 in
  lintDiagram l diagram filename.

(** LintMarkdownReader lints mermaid blocks extracted from a markdown reader. *)
Definition blockStep (l : Linter) (filename : string)
    (findings : list Finding) (block : MermaidBlock) : list Finding :=
  (* StartLine+1 because the mermaid source starts on the line after the fence *)
  let diagram := Parse (BlockSource block) (int_add (BlockStartLine block) 1) in
  findings ++ lintDiagram l diagram filename.

Definition LintMarkdownReader (l : Linter) (r : Scanner) (filename : string)
    : list Finding + error :=
  match ExtractMermaidBlocks r with
  | inr err => inr err
  | inl blocks => inl (fold_left (blockStep l filename) blocks [])
  end.

(** [findByRule] of the tests: the findings of one rule. *)
Definition findByRule (findings : list Finding) (rule : string) : list Finding :=
  filter (fun f => Rule f = rule) findings.

End Linter.

Import Linter.


(** ** Package [path/filepath] (standard library): [Ext]

    The separator is the slash, as on every system but Windows. *)

Module Filepath.

(** [for i := len(path)-1; i >= 0 && !os.IsPathSeparator(path[i]); i--
      { if path[i] == '.' { return path[i:] } }; return ""],
    on the path reversed; [acc] is [path[i+1:]]. *)
Fixpoint extFrom (r : string) (acc : string) : string :=
  match r with
  | EmptyString => ""
  | String c r' =>
      if Ascii.eqb c "/" then ""
      else if Ascii.eqb c "." then String c acc
      else extFrom r' (String c acc)
  end.

(** Ext returns the file name extension used by path: the suffix beginning
    at the final dot in the final element of path, empty if there is no
    dot. *)
Definition Ext (path : string) : string := extFrom (GoStrings.rev path) "".

End Filepath.

Import Filepath.

(** ** Package [linter]: files

    The files are read through [os.ReadFile] and [os.Open]; what the linter
    observes of the file system is, for a path, the content of the file or
    the error of opening it.  A file that was opened is read to its end. *)

Module LinterFiles.

Definition FileSystem : Type := string -> string + string.

Inductive lintError : Type :=
| UnsupportedFileType (ext : string)   (* fmt.Errorf("unsupported file type: %s", ext) *)
| OsError (msg : string)               (* the error of os.ReadFile or os.Open *)
| ScanError (err : Bufio.error).       (* the error of the scanner *)

Definition lintMermaidFile (fs : FileSystem) (l : Linter) (path : string)
    : list Finding + lintError :=
  match fs path with
  | inr err => inr (OsError err)
  | inl data =>
      let source := data in
      let diagram := Parse source 1 in
      inl (lintDiagram l diagram path)
  end.

Definition lintMarkdownFile (fs : FileSystem) (l : Linter) (path : string)
    : list Finding + lintError :=
  match fs path with
  | inr err => inr (OsError err)
  | inl data =>
      match LintMarkdownReader l (NewScanner data) path with
      | inl findings => inl findings
      | inr err => inr (ScanError err)
      end
  end.

(** LintFile lints a single file (either .mmd or .md). *)
Definition LintFile (fs : FileSystem) (l : Linter) (path : string)
    : list Finding + lintError :=
  let ext := ToLower (Ext path) in
  if eqb_str ext ".mmd" || eqb_str ext ".mermaid" then lintMermaidFile fs l path
  else if eqb_str ext ".md" || eqb_str ext ".markdown" then lintMarkdownFile fs l path
  else inr (UnsupportedFileType ext).

End LinterFiles.

Import LinterFiles.

(** ** Command [mermaid-lint] (package [main]) *)

Module Main.

(** [order] of [filterBySeverity]. *)
Definition order : gmap Severity Z :=
  list_to_map [(SeverityInfo, 0); (SeverityWarning, 1); (SeverityError, 2)].

(** Reading a [map[config.Severity]int]: a missing key reads as [0]. *)
Definition lookupInt (m : gmap Severity Z) (k : Severity) : Z := default 0 (m !! k).

(** The body of [for _, f := range findings]. *)
Definition filterStep (minOrder : Z) (filtered : list Finding) (f : Finding) : list Finding :=
  if lookupInt order (FSeverity f) >=? minOrder then filtered ++ [f] else filtered.

Definition filterBySeverity (findings : list Finding) (minSeverity : Severity) : list Finding :=
  match order !! minSeverity with
  | None => findings
  | Some minOrder => fold_left (filterStep minOrder) findings []
  end.


(** [run], from the loop over the files on: [files] are the files collected,
    [severityFilter] the value of the flag [-severity].  The findings are
    those handed to [printFindings]; a file whose linting fails is reported
    on the standard error and passed over. *)
Definition lintStep (fs : FileSystem) (l : Linter) (allFindings : list Finding)
    (file : string) : list Finding :=
  match LintFile fs l file with
  | inr _ => allFindings
  | inl findings => allFindings ++ findings
  end.

Definition runFindings (fs : FileSystem) (l : Linter) (files : list string)
    (severityFilter : string) : list Finding :=
  let allFindings := fold_left (lintStep fs l) files [] in
  (* Apply severity filter *)
  if negb (eqb_str severityFilter "") then filterBySeverity allFindings severityFilter
  else allFindings.

(** Count errors and warnings for exit code *)
Definition countStep (errorCount : Z) (f : Finding) : Z :=
  if eqb_str (FSeverity f) SeverityError then int_add errorCount 1 else errorCount.

Definition exitCode (allFindings : list Finding) : Z :=
  let errorCount := fold_left countStep allFindings 0 in
  if errorCount >? 0 then 1 else 0.

End Main.

Import Main.


(** * Vocabulary of the statements *)

(** What [parseFlowchart] maintains: the ids of [d.Nodes] are pairwise
    distinct, and [seenNodes] holds exactly those ids. *)
Definition flowInv (st : flowState) : Prop :=
  NoDup (map NodeID (nodes st))
  /\ forall id, lookupBool (seenNodes st) id = true <-> id ∈ map NodeID (nodes st).

(** The line of the first node of [ns] whose id is [id]. *)
Fixpoint firstLine (id : string) (ns : list Node) : option Z :=
  match ns with
  | [] => None
  | n :: rest => if eqb_str (NodeID n) id then Some (NodeLine n) else firstLine id rest
  end.

(** The finding of no-duplicate-node-ids for node [n], when the first node
    with its id is at line [first]. *)
Definition duplicateFinding (n : Node) (first : Z) : Finding :=
  finding "no-duplicate-node-ids"
    (Sprintf "duplicate node ID %q (first defined at line %d)"
             [Quoted (NodeID n); Decimal first])
    (NodeLine n).

(** What the [k]-th node of [ns] contributes: one finding when an earlier
    node has the same id, nothing otherwise. *)
Definition duplicateAt (ns : list Node) (k : nat) : list Finding :=
  match ns !! k with
  | None => []
  | Some n =>
      match firstLine (NodeID n) (take k ns) with
      | Some first => [duplicateFinding n first]
      | None => []
      end
  end.

(** The finding of node-has-label for node [n]. *)
Definition labelFinding (n : Node) : Finding :=
  finding "node-has-label" (Sprintf "node %q has no label" [Quoted (NodeID n)]) (NodeLine n).

Definition emptyLabel (n : Node) : bool := eqb_str (NodeLabel n) "".

(** The finding of no-orphan-nodes for node [n]. *)
Definition orphanFinding (n : Node) : Finding :=
  finding "no-orphan-nodes"
    (Sprintf "node %q is not connected to any edge" [Quoted (NodeID n)]) (NodeLine n).

(** The id of [n] is an endpoint of no edge of [es]. *)
Definition isOrphan (es : list Edge) (n : Node) : bool :=
  negb (bool_decide (NodeID n ∈ map From es)) && negb (bool_decide (NodeID n ∈ map To es)).

(** A finding of rule [r] as the engine returns it. *)
Definition stamped (cfg : Config) (filename : string) (r : LintRule) (f : Finding) : Finding :=
  mkFinding (Rule f) (RuleSeverity cfg (Name r)) (Message f) filename (Line f).

(** What rule [r] contributes to the result of the engine. *)
Definition contribution (cfg : Config) (d : Diagram) (filename : string) (r : LintRule)
    : list Finding :=
  if IsRuleEnabled cfg (Name r) then map (stamped cfg filename r) (Check r d) else [].

(** A line is a fence of one kind or the other, as the extraction loop
    tests it. *)
Definition opens (line : string) : bool := isMermaidFenceOpen (TrimSpace line).
Definition closes (line : string) : bool := isClosingFence (TrimSpace line).

(** The parser's state after the lines "flowchart LR" and "  A --> B" of a
    source that starts at line 1: A and B registered from the edge. *)
Definition after_edge_A_B : flowState :=
  flowLoop 1 0 ["flowchart LR"; "  A --> B"] (mkFlow ∅ [] []).

(** The character [a] occurs in [s]. *)
Fixpoint hasChar (a : ascii) (s : string) : bool :=
  match s with
  | EmptyString => false
  | String c s' => Ascii.eqb c a || hasChar a s'
  end.

(** The numbers of the capture groups of an expression. *)
Fixpoint groupsOf (r : regex) : list nat :=
  match r with
  | Bol | Cls _ | Lit _ | Star _ => []
  | Cat r1 r2 | Alt r1 r2 => groupsOf r1 ++ groupsOf r2
  | Opt r1 => groupsOf r1
  | Cap n r1 => n :: groupsOf r1
  end.

(** The alternatives of a choice, in the order they are tried. *)
Fixpoint alternatives (r : regex) : list regex :=
  match r with
  | Alt r1 r2 => alternatives r1 ++ alternatives r2
  | _ => [r]
  end.

(** The shape tags of the single delimiters, and the tag of a bare id. *)
Definition simpleShapes : list string :=
  ["default"; "rect"; "round"; "rhombus"; "asymmetric"].

(** The shapes of the nodes during a parse: empty for a node registered
    from an edge, otherwise one of the simple ones. *)
Definition shapesInv (st : flowState) : Prop :=
  Forall (fun n => NodeShape n ∈ "" :: simpleShapes) (nodes st).

(** ** Vocabulary of the further properties *)

(** Block [b] is a fenced segment of the lines [doc]: an opening fence, the
    lines of the block none of which is a closing fence, a closing fence;
    its source is those lines joined by line feeds and its two line numbers
    are those of the fences. *)
Definition blockOf (doc : list string) (b : MermaidBlock) : Prop :=
  exists pre opener body closer post,
    doc = pre ++ opener :: body ++ closer :: post
    /\ opens opener = true
    /\ Forall (fun l => closes l = false) body
    /\ closes closer = true
    /\ BlockSource b = Join body nl
    /\ BlockStartLine b = Z.of_nat (length pre) + 1
    /\ EndLine b = Z.of_nat (length pre) + Z.of_nat (length body) + 2.

(** Block [b1] ends before block [b2] starts. *)
Definition blockBefore (b1 b2 : MermaidBlock) : Prop := EndLine b1 < BlockStartLine b2.

(** What the extraction loop maintains, [doc] being the lines read so far. *)
Definition extractInv (doc : list string) (st : extractState) : Prop :=
  lineNum st = Z.of_nat (length doc)
  /\ Forall (blockOf doc) (blocks st)
  /\ StronglySorted blockBefore (blocks st)
  /\ match current st with
     | None => True
     | Some cur =>
         Forall (fun b => EndLine b < BlockStartLine cur) (blocks st)
         /\ exists pre opener,
              doc = pre ++ opener :: lines st
              /\ opens opener = true
              /\ Forall (fun l => closes l = false) (lines st)
              /\ BlockStartLine cur = Z.of_nat (length pre) + 1
     end.

(** A block whose two line numbers are moved down by [delta] lines. *)
Definition shiftBlock (delta : Z) (b : MermaidBlock) : MermaidBlock :=
  mkBlock (BlockSource b) (BlockStartLine b + delta) (EndLine b + delta).

(** Two runs of the extraction loop on the same lines, the first one started
    [delta] lines further down with the blocks [bs] already found. *)
Definition extractRel (bs : list MermaidBlock) (delta : Z) (st st0 : extractState) : Prop :=
  lineNum st = lineNum st0 + delta
  /\ blocks st = bs ++ map (shiftBlock delta) (blocks st0)
  /\ match current st, current st0 with
     | None, None => True
     | Some c, Some c0 =>
         BlockStartLine c = BlockStartLine c0 + delta /\ lines st = lines st0
     | _, _ => False
     end.

(** The type [parseType] records for the keyword [keyword]. *)
Definition typeOf (keyword : string) : DiagramType :=
  default DiagramUnknown (KnownDiagramTypes !! ToLower keyword).

(** The diagram [Parse] starts from. *)
Definition emptyDiagram (lines : list string) (startLine : Z) : Diagram :=
  mkDiagram "" "" "" [] [] lines startLine.

(** The finding of no-unknown-diagram-type for a source without a
    declaration, and the finding of no-empty-diagram. *)
Definition noDeclarationFinding (line : Z) : Finding :=
  finding "no-unknown-diagram-type" (Text "no diagram type declaration found") line.

Definition emptyDiagramFinding (line : Z) : Finding :=
  finding "no-empty-diagram" (Text "diagram has no nodes or edges") line.

(** Both ends of every edge are registered in [seenNodes]. *)
Definition endpointsInv (st : flowState) : Prop :=
  Forall (fun e => lookupBool (seenNodes st) (From e) = true
                   /\ lookupBool (seenNodes st) (To e) = true) (edges st).

(** The lines of the nodes and of the edges all satisfy [Q]. *)
Definition linesInv (Q : Z -> Prop) (st : flowState) : Prop :=
  Forall (fun n => Q (NodeLine n)) (nodes st) /\ Forall (fun e => Q (EdgeLine e)) (edges st).

(** The line number of one of the lines 1 to [count - 1] of a source that
    starts at [startLine] (line 0 is its first line). *)
Definition bodyLine (startLine : Z) (count : nat) (z : Z) : Prop :=
  exists j : nat, (1 <= j < count)%nat /\ z = int_add startLine (Z.of_nat j).

(** Every character of [s] is in the class [p]. *)
Fixpoint allChars (p : ascii -> bool) (s : string) : bool :=
  match s with
  | EmptyString => true
  | String c s' => p c && allChars p s'
  end.

(** [s] is an identifier: a letter or an underscore, then letters, digits
    and underscores. *)
Definition isIdent (s : string) : bool :=
  match s with
  | EmptyString => false
  | String c s' => identStart c && allChars identChar s'
  end.

(** The identifier of the two patterns, as capture group [n]: a letter or
    an underscore, then letters, digits and underscores. *)
Definition identGroup (n : nat) : regex := Cap n (Cls identStart · Star identChar)%re.

(** The ids of the nodes and the ends of the edges are identifiers. *)
Definition identInv (st : flowState) : Prop :=
  Forall (fun n => isIdent (NodeID n) = true) (nodes st)
  /\ Forall (fun e => isIdent (From e) = true /\ isIdent (To e) = true) (edges st).

(** Where a finding of a check on [d] can be located. *)
Definition lineOf (d : Diagram) (z : Z) : Prop :=
  z = StartLine d \/ z ∈ map NodeLine (Nodes d).

(** A node, an edge, a diagram, a parser state and a finding moved down by
    [delta] lines (in the arithmetic of Go's [int]). *)
Definition shiftNode (delta : Z) (n : Node) : Node :=
  mkNode (NodeID n) (NodeLabel n) (int_add (NodeLine n) delta) (NodeShape n).

Definition shiftEdge (delta : Z) (e : Edge) : Edge :=
  mkEdge (From e) (To e) (EdgeLabel e) (int_add (EdgeLine e) delta) (Style e).

Definition shiftDiagram (delta : Z) (d : Diagram) : Diagram :=
  mkDiagram (Type_ d) (TypeRaw d) (Direction d)
    (map (shiftNode delta) (Nodes d)) (map (shiftEdge delta) (Edges d))
    (DLines d) (int_add (StartLine d) delta).

Definition shiftState (delta : Z) (st : flowState) : flowState :=
  mkFlow (seenNodes st) (map (shiftNode delta) (nodes st)) (map (shiftEdge delta) (edges st)).

Definition shiftFinding (delta : Z) (f : Finding) : Finding :=
  mkFinding (Rule f) (FSeverity f) (Message f) (File f) (int_add (Line f) delta).

(** The configuration [cfg] with the entry of the rule [name] set to [rc]. *)
Definition withRule (cfg : Config) (name : string) (rc : RuleConfig) : Config :=
  mkConfig (<[name := rc]> (CRules cfg)).

(** A finding with its severity replaced. *)
Definition setSeverity (severity : Severity) (f : Finding) : Finding :=
  mkFinding (Rule f) severity (Message f) (File f) (Line f).

(** The findings of the other rules than [name]. *)
Definition notOfRule (name : string) (f : Finding) : bool := negb (eqb_str (Rule f) name).

(** The severity of a finding is [error]; is [warning] or [error]. *)
Definition isError (f : Finding) : bool := eqb_str (FSeverity f) SeverityError.
Definition isWarningOrError (f : Finding) : bool :=
  eqb_str (FSeverity f) SeverityWarning || eqb_str (FSeverity f) SeverityError.

(** Linting the file succeeds. *)
Definition lints (fs : FileSystem) (l : Linter) (file : string) : bool :=
  match LintFile fs l file with inl _ => true | inr _ => false end.

(** Node [n2] is node [n1] later in the parse: the same id at the same line,
    and the same node altogether if [n1] already had a label. *)
Definition sameNode (n1 n2 : Node) : Prop :=
  NodeID n1 = NodeID n2 /\ NodeLine n1 = NodeLine n2 /\ (NodeLabel n1 <> "" -> n2 = n1).

(** The parser state [st2] extends [st1]: the edges of [st1] are the first
    edges of [st2], and the nodes of [st1] are, position by position, the
    first nodes of [st2]. *)
Definition extends (st1 st2 : flowState) : Prop :=
  (forall i e, edges st1 !! i = Some e -> edges st2 !! i = Some e)
  /\ (forall i n1, nodes st1 !! i = Some n1 ->
        exists n2, nodes st2 !! i = Some n2 /\ sameNode n1 n2).

(** The declaration found: type, raw type and direction. *)
Definition header (d : Diagram) : DiagramType * string * string :=
  (Type_ d, TypeRaw d, Direction d).

(** * Properties *)

(** ** The embedding on the inputs of the test suite *)

Example TrimSpace_ex : TrimSpace ("  " +:+ String TAB "A --> B " +:+ String CR "") = "A --> B".
Proof. reflexivity. Qed.

Example Fields_ex : Fields "flowchart   XX  " = ["flowchart"; "XX"].
Proof. reflexivity. Qed.

Example Split_ex : Split ("a" +:+ nl +:+ nl +:+ "b" +:+ nl) LF = ["a"; ""; "b"; ""].
Proof. reflexivity. Qed.

(** The tests of the block extraction *)
Example ExtractMermaidBlocks_Single :
  ExtractMermaidBlocks
    (NewScanner (Join ["# Title"; ""; "Some text"; ""; "```mermaid"; "flowchart LR";
                       "  A --> B"; "```"; ""; "More text"; ""] nl))
  = inl [mkBlock ("flowchart LR" +:+ nl +:+ "  A --> B") 5 8].
Proof. vm_compute. reflexivity. Qed.

(** The tests of the diagram parser *)
Example Parse_FlowchartType :
  map (fun src => let d := Parse src 1 in (Type_ d, Direction d))
    ["flowchart LR" +:+ nl +:+ "  A --> B";
     "graph TB" +:+ nl +:+ "  A --> B";
     "graph" +:+ nl +:+ "  A --> B";
     "sequenceDiagram" +:+ nl +:+ "  Alice->>Bob: Hello";
     "stateDiagram-v2" +:+ nl +:+ "  [*] --> Active";
     "badtype" +:+ nl +:+ "  stuff";
     "%% This is a comment" +:+ nl +:+ "flowchart LR" +:+ nl +:+ "  A --> B"]
  = [(DiagramFlowchart, "LR"); (DiagramGraph, "TB"); (DiagramGraph, "");
     (DiagramSequence, ""); (DiagramStateV2, ""); (DiagramUnknown, "");
     (DiagramFlowchart, "LR")].
Proof. vm_compute. reflexivity. Qed.

Example Parse_FlowchartNodes :
  Nodes (Parse ("flowchart LR" +:+ nl +:+ "  A[Start] --> B[End]") 1)
  = [mkNode "A" "Start" 2 "rect"; mkNode "B" "End" 2 "rect"].
Proof. vm_compute. reflexivity. Qed.

Example Parse_FlowchartEdges :
  Edges (Parse ("flowchart LR" +:+ nl +:+ "  A --> B" +:+ nl +:+ "  B --- C" +:+ nl
                +:+ "  C -.-> D") 1)
  = [mkEdge "A" "B" "" 2 "-->"; mkEdge "B" "C" "" 3 "---"; mkEdge "C" "D" "" 4 "-.->"].
Proof. vm_compute. reflexivity. Qed.

Example Parse_EmptySource : TypeRaw (Parse "" 1) = "" /\ Type_ (Parse "" 1) = "".
Proof. vm_compute. done. Qed.

(** The tests of the configuration *)
Example DefaultConfig_rules :
  IsRuleEnabled DefaultConfig "valid-direction" = true
  /\ IsRuleEnabled DefaultConfig "nonexistent-rule" = false
  /\ RuleSeverity DefaultConfig "node-has-label" = SeverityInfo
  /\ RuleSeverity DefaultConfig "nonexistent" = SeverityWarning.
Proof. vm_compute. done. Qed.

(** The tests of the linter *)
Example LintSource_EmptyDiagram :
  map Rule (LintSource (New DefaultConfig) ("flowchart LR" +:+ nl) "test.mmd")
  = ["no-empty-diagram"].
Proof. vm_compute. reflexivity. Qed.

Example LintSource_OrphanNodes :
  map (fun f => (Rule f, FSeverity f, Line f))
    (LintSource (New DefaultConfig)
       ("flowchart LR" +:+ nl +:+ "  A --> B" +:+ nl +:+ "  C[Orphan]") "test.mmd")
  = [("node-has-label", "info", 2); ("node-has-label", "info", 2);
     ("no-orphan-nodes", "warning", 3)].
Proof. vm_compute. reflexivity. Qed.

Example LintSource_DisabledRule :
  LintSource
    (New (mkConfig (<["node-has-label" := mkRuleConfig false SeverityInfo]>
                      (CRules DefaultConfig))))
    ("flowchart LR" +:+ nl +:+ "  A --> B") "test.mmd"
  = [].
Proof. vm_compute. reflexivity. Qed.

Example LintMarkdownReader_ex :
  (fun r => match r with inl fs => map (fun f => (Rule f, File f, Line f)) fs | inr _ => [] end)
    (LintMarkdownReader (New DefaultConfig)
       (NewScanner (Join ["# Doc"; ""; "```mermaid"; "flowchart XX"; "  A --> B"; "```"; ""] nl))
       "test.md")
  = [("valid-direction", "test.md", 4); ("node-has-label", "test.md", 5);
     ("node-has-label", "test.md", 5)].
Proof. vm_compute. reflexivity. Qed.


(** ** Elementary facts about the embedding *)

Lemma eqb_str_true (a b : string) : eqb_str a b = true <-> a = b.
Proof. unfold eqb_str. apply bool_decide_eq_true. Qed.

Lemma eqb_str_false (a b : string) : eqb_str a b = false <-> a <> b.
Proof. unfold eqb_str. apply bool_decide_eq_false. Qed.

Lemma eqb_str_refl (a : string) : eqb_str a a = true.
Proof. by apply eqb_str_true. Qed.

Lemma wrap64_small (z : Z) : - 2 ^ 63 <= z < 2 ^ 63 -> wrap64 z = z.
Proof.
  intros Hz. unfold wrap64.
  rewrite Z.mod_small by lia. lia.
Qed.

Lemma lookupBool_insert (m : gmap string bool) (k k' : string) :
  lookupBool (<[k := true]> m) k' = if decide (k = k') then true else lookupBool m k'.
Proof.
  unfold lookupBool. destruct (decide (k = k')) as [->|Hne].
  - by rewrite lookup_insert_eq.
  - by rewrite lookup_insert_ne.
Qed.

Lemma lookupBool_empty (k : string) : lookupBool ∅ k = false.
Proof. unfold lookupBool. by rewrite lookup_empty. Qed.

Lemma fold_left_preserves {A B : Type} (P : A -> Prop) (f : A -> B -> A) (l : list B) :
  (forall a b, P a -> P (f a b)) -> forall a, P a -> P (fold_left f l a).
Proof.
  intros Hstep. induction l as [|b l IH]; intros a Ha; simpl; [done|].
  apply IH, Hstep, Ha.
Qed.

(** ** The node list of a parse: every id once *)

Section FlowInvariant.

Lemma flowInv_init : flowInv (mkFlow ∅ [] []).
Proof.
  split; simpl.
  - constructor.
  - intros id. rewrite lookupBool_empty. split; [done|]. intros H. inversion H.
Qed.

Lemma flowInv_append (st : flowState) (n : Node) (es : list Edge) :
  flowInv st ->
  lookupBool (seenNodes st) (NodeID n) = false ->
  flowInv (mkFlow (<[NodeID n := true]> (seenNodes st)) (nodes st ++ [n]) es).
Proof.
  intros [Hnd Hseen] Hnew. split; simpl.
  - rewrite map_app. simpl. apply NoDup_app. split; [done|]. split.
    + intros x Hx Hx'. apply list_elem_of_singleton in Hx'. subst x.
      apply Hseen in Hx. congruence.
    + apply NoDup_singleton.
  - intros id. rewrite lookupBool_insert, map_app, elem_of_app. simpl.
    rewrite list_elem_of_singleton, <- Hseen.
    destruct (decide (NodeID n = id)) as [->|Hne].
    + split; [by right|done].
    + split; [by left|]. intros [?|?]; [done|congruence].
Qed.

Lemma flowInv_edges (st : flowState) (es : list Edge) :
  flowInv st -> flowInv (mkFlow (seenNodes st) (nodes st) es).
Proof. intros H. exact H. Qed.

Lemma register_inv (lineNum : Z) (id : string) (st : flowState) :
  flowInv st -> flowInv (register lineNum id st).
Proof.
  intros Hinv. unfold register.
  destruct (lookupBool (seenNodes st) id) eqn:Hs; simpl; [done|].
  by apply (flowInv_append st (mkNode id "" lineNum "")).
Qed.

Lemma edgeStep_inv (lineNum : Z) (st : flowState) (m : submatches) :
  flowInv st -> flowInv (edgeStep lineNum st m).
Proof.
  intros Hinv. unfold edgeStep.
  by apply register_inv, register_inv, flowInv_edges.
Qed.

Lemma backfill_ids (id label shape : string) (ns : list Node) :
  map NodeID (backfill id label shape ns) = map NodeID ns.
Proof.
  induction ns as [|n ns IH]; simpl; [done|].
  destruct (eqb_str (NodeID n) id && eqb_str (NodeLabel n) ""); simpl; [done|].
  by rewrite IH.
Qed.

Lemma nodeStep_inv (lineNum : Z) (st : flowState) (m : submatches) :
  flowInv st -> flowInv (nodeStep lineNum st m).
Proof.
  intros Hinv. unfold nodeStep.
  destruct (eqb_str (group m 1) ""); [done|].
  destruct (labelShape m) as [label shape].
  destruct (lookupBool (seenNodes st) (group m 1)) eqn:Hs; simpl.
  - destruct (eqb_str label ""); simpl; [done|].
    destruct Hinv as [Hnd Hseen]. split; simpl; by rewrite backfill_ids.
  - by apply (flowInv_append st (mkNode (group m 1) label lineNum shape)).
Qed.

Lemma flowLine_inv (startLine : Z) (i : nat) (line : string) (st : flowState) :
  flowInv st -> flowInv (flowLine startLine i line st).
Proof.
  intros Hinv. unfold flowLine.
  destruct (blankOrComment _); [done|].
  destruct (_ || _); [done|].
  destruct (isDirective _); [done|].
  apply fold_left_preserves; [intros; by apply nodeStep_inv|].
  apply fold_left_preserves; [intros; by apply edgeStep_inv|done].
Qed.

Lemma flowLoop_inv (startLine : Z) (lines : list string) :
  forall (i : nat) (st : flowState),
    flowInv st -> flowInv (flowLoop startLine i lines st).
Proof.
  induction lines as [|line rest IH]; intros i st Hinv; simpl; [done|].
  by apply IH, flowLine_inv.
Qed.

Lemma parseType_Nodes (lines : list string) (d : Diagram) :
  Nodes (parseType d lines) = Nodes d /\ Edges (parseType d lines) = Edges d
  /\ StartLine (parseType d lines) = StartLine d.
Proof.
  revert d. induction lines as [|line rest IH]; intros d; [done|].
  cbn [parseType].
  destruct (blankOrComment _); [apply IH|].
  destruct (Fields _) as [|keyword more]; [apply IH|].
  cbn [Nodes Edges StartLine]. done.
Qed.

Lemma Parse_nodes_NoDup (source : string) (startLine : Z) :
  NoDup (map NodeID (Nodes (Parse source startLine))).
Proof.
  unfold Parse.
  set (d0 := mkDiagram "" "" "" [] [] (Split source LF) startLine).
  destruct (parseType_Nodes (Split source LF) d0) as (Hn & He & _).
  destruct (isFlow _).
  - unfold parseFlowchart. cbn [Nodes]. rewrite Hn, He.
    apply (flowLoop_inv _ _ 0%nat), flowInv_init.
  - rewrite Hn. constructor.
Qed.

End FlowInvariant.

(** ** The rule no-duplicate-node-ids on a node list *)

Section Duplicates.

Lemma firstLine_app (id : string) (a b : list Node) :
  firstLine id (a ++ b) =
  match firstLine id a with Some l => Some l | None => firstLine id b end.
Proof.
  induction a as [|n a IH]; simpl; [done|].
  by destruct (eqb_str (NodeID n) id).
Qed.

Lemma firstLine_Some_elem (id : string) (ns : list Node) (l : Z) :
  firstLine id ns = Some l -> id ∈ map NodeID ns.
Proof.
  induction ns as [|n ns IH]; simpl; [done|].
  destruct (eqb_str (NodeID n) id) eqn:E.
  - intros _. apply eqb_str_true in E. rewrite E. apply list_elem_of_here.
  - intros H. apply list_elem_of_further, IH, H.
Qed.

(** The loop of the check, started after the nodes [ns1] have been seen. *)
Lemma dupStep_fold (ns2 : list Node) :
  forall (ns1 : list Node) (seen : gmap string Z) (fs : list Finding),
    (forall id, seen !! id = firstLine id ns1) ->
    (fold_left dupStep ns2 (seen, fs)).2
    = fs ++ flat_map (duplicateAt (ns1 ++ ns2)) (seq (length ns1) (length ns2)).
Proof.
  induction ns2 as [|n ns2 IH]; intros ns1 seen fs Hseen.
  - simpl. by rewrite app_nil_r.
  - cbn [fold_left length seq flat_map].
    assert (Hat : duplicateAt (ns1 ++ n :: ns2) (length ns1)
                  = match firstLine (NodeID n) ns1 with
                    | Some first => [duplicateFinding n first]
                    | None => []
                    end).
    { unfold duplicateAt. rewrite list_lookup_middle by done.
      by rewrite take_app_length. }
    rewrite Hat.
    replace (ns1 ++ n :: ns2) with ((ns1 ++ [n]) ++ ns2) by (by rewrite <- app_assoc).
    replace (S (length ns1)) with (length (ns1 ++ [n])) by (rewrite length_app; simpl; lia).
    unfold dupStep at 2. rewrite Hseen.
    destruct (firstLine (NodeID n) ns1) as [first|] eqn:Hfirst.
    + rewrite (IH (ns1 ++ [n]) seen).
      * by rewrite <- app_assoc.
      * intros id. rewrite firstLine_app, Hseen. simpl.
        destruct (firstLine id ns1) eqn:Hid; [done|].
        destruct (eqb_str (NodeID n) id) eqn:E; [|done].
        apply eqb_str_true in E. congruence.
    + rewrite (IH (ns1 ++ [n]) (<[NodeID n := NodeLine n]> seen)); [done|].
      intros id. rewrite firstLine_app. simpl.
      destruct (decide (NodeID n = id)) as [<-|Hne].
      * by rewrite lookup_insert_eq, Hfirst, eqb_str_refl.
      * rewrite lookup_insert_ne, Hseen by done.
        apply eqb_str_false in Hne. rewrite Hne. by destruct (firstLine id ns1).
Qed.

Lemma NoDuplicateNodeIDs_Check_flow (d : Diagram) :
  isFlow (Type_ d) = true ->
  NoDuplicateNodeIDs_Check d
  = flat_map (duplicateAt (Nodes d)) (seq 0 (length (Nodes d))).
Proof.
  intros Hflow. unfold NoDuplicateNodeIDs_Check. rewrite Hflow. cbn [negb].
  by rewrite (dupStep_fold (Nodes d) [] ∅ []).
Qed.

Lemma duplicateAt_NoDup (ns : list Node) (k : nat) :
  NoDup (map NodeID ns) -> duplicateAt ns k = [].
Proof.
  intros Hnd. unfold duplicateAt.
  destruct (ns !! k) as [n|] eqn:Hk; [|done].
  destruct (firstLine (NodeID n) (take k ns)) as [first|] eqn:Hfirst; [|done].
  exfalso. apply firstLine_Some_elem in Hfirst.
  rewrite <- (take_drop_middle ns k n Hk), map_app in Hnd.
  apply NoDup_app in Hnd as (_ & Hdisj & _).
  apply (Hdisj _ Hfirst). simpl. apply list_elem_of_here.
Qed.

Lemma NoDuplicateNodeIDs_Check_NoDup (d : Diagram) :
  NoDup (map NodeID (Nodes d)) -> NoDuplicateNodeIDs_Check d = [].
Proof.
  intros Hnd. destruct (isFlow (Type_ d)) eqn:Hflow.
  - rewrite NoDuplicateNodeIDs_Check_flow by done.
    induction (seq 0 (length (Nodes d))) as [|k ks IH]; simpl; [done|].
    by rewrite duplicateAt_NoDup, IH.
  - unfold NoDuplicateNodeIDs_Check. by rewrite Hflow.
Qed.

End Duplicates.

(** C2.  For every source and every start line, the node ids of the diagram
    that [Parse] returns are pairwise distinct (an id is registered once, at
    its first occurrence), and therefore the no-duplicate-node-ids check
    returns no finding on it. *)
Theorem C2_parsed_node_ids_distinct (source : string) (startLine : Z) :
  NoDup (map NodeID (Nodes (Parse source startLine)))
  /\ NoDuplicateNodeIDs_Check (Parse source startLine) = [].
Proof.
  split.
  - apply Parse_nodes_NoDup.
  - apply NoDuplicateNodeIDs_Check_NoDup, Parse_nodes_NoDup.
Qed.




(** ** Which shapes the node-definition pattern can yield *)

Section Shapes.

Lemma stripPrefix_hasChar (a : ascii) (p s r : string) :
  stripPrefix p s = Some r -> hasChar a p = true -> hasChar a s = true.
Proof.
  revert s. induction p as [|x p IH]; intros s; simpl; [discriminate|].
  destruct s as [|y s]; [discriminate|].
  destruct (Ascii.eqb x y) eqn:E; [|discriminate].
  apply Ascii.eqb_eq in E as ->. intros Hs Hp. simpl.
  destruct (Ascii.eqb y a); [done|]. simpl in *. by apply IH.
Qed.

(** If what follows a repetition can only succeed on a text that holds [a],
    the repetition can only succeed on such a text. *)
Lemma runStar_hasChar (a : ascii) (p : ascii -> bool) (k : cont) (s : string) :
  (forall pos s' caps, is_Some (k pos s' caps) -> hasChar a s' = true) ->
  forall pos caps, is_Some (runStar p pos s caps k) -> hasChar a s = true.
Proof.
  intros Hk. induction s as [|c s IH]; intros pos caps; simpl.
  - apply Hk.
  - destruct (p c).
    + destruct (runStar p (S pos) s caps k) eqn:E.
      * intros _. rewrite (IH (S pos) caps) by (by rewrite E). apply orb_true_r.
      * apply Hk.
    + apply Hk.
Qed.

(** A repetition of "any character but [stop]" followed by something that
    succeeds on every text that starts with [stop], succeeds on every text
    that holds [stop]. *)
Lemma runStar_reaches (stop : ascii) (k : cont) (s : string) :
  (forall pos s' caps, is_Some (k pos (String stop s') caps)) ->
  hasChar stop s = true ->
  forall pos caps, is_Some (runStar (notChar stop) pos s caps k).
Proof.
  intros Hk. induction s as [|c s IH]; intros Hs pos caps; simpl in *; [done|].
  unfold notChar at 1. destruct (Ascii.eqb c stop) eqn:E; simpl.
  - apply Ascii.eqb_eq in E as ->. apply Hk.
  - destruct (runStar (notChar stop) (S pos) s caps k) eqn:R; [done|].
    specialize (IH Hs (S pos) caps). rewrite R in IH. by destruct IH.
Qed.

(** The alternative [open (class)* close]. *)
Lemma delimited_hasChar (a : ascii) (o c : string) (n : nat) (p : ascii -> bool)
    (pos : nat) (s : string) (caps : submatches) (k : cont) :
  is_Some (run (Lit o · Cap n (Star p) · Lit c) pos s caps k) ->
  hasChar a c = true ->
  exists s1, stripPrefix o s = Some s1 /\ hasChar a s1 = true.
Proof.
  cbn [run]. destruct (stripPrefix o s) as [s1|] eqn:Ho; [|by intros []].
  intros Hrun Hc. exists s1. split; [done|].
  revert Hrun. apply runStar_hasChar. intros pos' s' caps'.
  destruct (stripPrefix c s') as [r|] eqn:Hs'; [|by intros []].
  intros _. by apply (stripPrefix_hasChar a c s' r).
Qed.

Lemma delimited_reaches (x stop : ascii) (n : nat) (pos : nat) (s1 : string)
    (caps : submatches) (k : cont) :
  (forall pos' s' caps', is_Some (k pos' s' caps')) ->
  hasChar stop s1 = true ->
  is_Some (run (Lit (String x "") · Cap n (Star (notChar stop)) · Lit (String stop ""))
               pos (String x s1) caps k).
Proof.
  intros Hk Hs. cbn [run stripPrefix]. rewrite Ascii.eqb_refl.
  apply runStar_reaches; [|done].
  intros pos' s' caps'. cbn [stripPrefix]. rewrite Ascii.eqb_refl. apply Hk.
Qed.

(** Captures: a match leaves alone the groups the expression does not
    hold, and the number of groups. *)
Lemma runStar_frame (p : ascii -> bool) (k : cont) (s : string) :
  forall pos caps res,
    runStar p pos s caps k = Some res ->
    exists pos' s', k pos' s' caps = Some res.
Proof.
  induction s as [|c s IH]; intros pos caps res; simpl.
  - eauto.
  - destruct (p c); [|eauto].
    destruct (runStar p (S pos) s caps k) eqn:E; [|eauto].
    intros [= <-]. by apply (IH (S pos)).
Qed.

Lemma run_frame (r : regex) :
  forall pos s caps (k : cont) res,
    run r pos s caps k = Some res ->
    exists pos' s' caps',
      k pos' s' caps' = Some res
      /\ length caps' = length caps
      /\ forall j, j ∉ groupsOf r -> caps' !! j = caps !! j.
Proof.
  induction r as [|p|l|p|r1 IH1 r2 IH2|r1 IH1 r2 IH2|r1 IH1|n r1 IH1];
    intros pos s caps k res; cbn [run groupsOf].
  - destruct (Nat.eqb pos 0); [|done]. eauto 6.
  - destruct s as [|c s]; [done|]. destruct (p c); [|done]. eauto 6.
  - destruct (stripPrefix l s); [|done]. eauto 6.
  - intros H. apply runStar_frame in H as (pos' & s' & H). eauto 6.
  - intros H. apply IH1 in H as (pos1 & s1 & caps1 & H & Hlen1 & Hf1).
    apply IH2 in H as (pos2 & s2 & caps2 & H & Hlen2 & Hf2).
    exists pos2, s2, caps2. split; [done|]. split; [congruence|].
    intros j Hj. rewrite elem_of_app in Hj.
    rewrite Hf2, Hf1; tauto.
  - destruct (run r1 pos s caps k) eqn:E.
    + intros [= <-]. apply IH1 in E as (pos1 & s1 & caps1 & H & Hlen & Hf).
      exists pos1, s1, caps1. repeat split; [done..|].
      intros j Hj. apply Hf. rewrite elem_of_app in Hj. tauto.
    + intros H. apply IH2 in H as (pos1 & s1 & caps1 & H & Hlen & Hf).
      exists pos1, s1, caps1. repeat split; [done..|].
      intros j Hj. apply Hf. rewrite elem_of_app in Hj. tauto.
  - destruct (run r1 pos s caps k) eqn:E.
    + intros [= <-]. by apply IH1 in E.
    + intros H. exists pos, s, caps. done.
  - intros H. apply IH1 in H as (pos1 & s1 & caps1 & H & Hlen & Hf).
    exists pos1, s1, (<[n := String.substring 0 (pos1 - pos) s]> caps1).
    split; [exact H|]. split.
    + rewrite <- Hlen. apply length_insert.
    + intros j Hj. rewrite elem_of_cons in Hj.
      etransitivity; [apply list_lookup_insert_ne|apply Hf].
      * intros ->. apply Hj. by left.
      * intros ?. apply Hj. by right.
Qed.

Lemma run_Cat (r1 r2 : regex) (pos : nat) (s : string) (caps : submatches) (k : cont) :
  run (Cat r1 r2) pos s caps k
  = run r1 pos s caps (fun pos' s' caps' => run r2 pos' s' caps' k).
Proof. reflexivity. Qed.

Lemma run_Opt (r : regex) (pos : nat) (s : string) (caps : submatches) (k : cont) :
  run (Opt r) pos s caps k
  = match run r pos s caps k with Some m => Some m | None => k pos s caps end.
Proof. reflexivity. Qed.

(** A choice succeeds through one of its alternatives, all the alternatives
    before that one having failed. *)
Lemma run_alternatives (r : regex) :
  forall pos s caps (k : cont) res,
    run r pos s caps k = Some res ->
    exists i a,
      alternatives r !! i = Some a
      /\ run a pos s caps k = Some res
      /\ forall j b, (j < i)%nat -> alternatives r !! j = Some b ->
                     run b pos s caps k = None.
Proof.
  assert (Hleaf : forall (r : regex) pos s caps (k : cont) res,
            alternatives r = [r] ->
            run r pos s caps k = Some res ->
            exists i a,
              alternatives r !! i = Some a
              /\ run a pos s caps k = Some res
              /\ forall j b, (j < i)%nat -> alternatives r !! j = Some b ->
                             run b pos s caps k = None).
  { intros r0 pos s caps k res Hr0 H. exists 0%nat, r0. rewrite Hr0.
    split; [done|]. split; [done|]. intros j b Hj. lia. }
  induction r as [|p|l|p|r1 IH1 r2 IH2|r1 IH1 r2 IH2|r1 IH1|n r1 IH1];
    intros pos s caps k res; try (by apply Hleaf).
  cbn [run alternatives].
  destruct (run r1 pos s caps k) eqn:E.
  - intros [= <-]. apply IH1 in E as (i & a & Hi & Ha & Hbefore).
    exists i, a. split; [by apply lookup_app_l_Some|]. split; [done|].
    intros j b Hj Hb. apply (Hbefore j b Hj).
    rewrite lookup_app_l in Hb; [done|].
    apply lookup_lt_Some in Hi. lia.
  - intros H. apply IH2 in H as (i & a & Hi & Ha & Hbefore).
    exists (length (alternatives r1) + i)%nat, a.
    split; [by rewrite lookup_app_r, Nat.add_comm, Nat.add_sub by lia|].
    split; [done|].
    intros j b Hj Hb.
    destruct (decide (j < length (alternatives r1))%nat) as [Hlt|Hge].
    + rewrite lookup_app_l in Hb by done.
      clear -E Hb. revert j b pos s caps k E Hb.
      induction r1 as [|p|l|p|q1 IHq1 q2 IHq2|q1 IHq1 q2 IHq2|q1 IHq1|n q1 IHq1];
        intros j b pos s caps k E Hb;
        try (destruct j; simpl in Hb; [by injection Hb as <-|done]).
      cbn [run] in E. cbn [alternatives] in Hb.
      destruct (run q1 pos s caps k) eqn:E1; [done|].
      destruct (decide (j < length (alternatives q1))%nat) as [Hlt1|Hge1].
      * rewrite lookup_app_l in Hb by done. by apply (IHq1 j).
      * rewrite lookup_app_r in Hb by lia. by apply (IHq2 (j - length (alternatives q1))%nat).
    + rewrite lookup_app_r in Hb by lia.
      apply (Hbefore (j - length (alternatives r1))%nat b); [lia|done].
Qed.

Lemma stripPrefix2 (a b : ascii) (s s1 : string) :
  stripPrefix (String a (String b "")) s = Some s1 -> s = String a (String b s1).
Proof.
  destruct s as [|x [|y s]]; simpl; try done.
  - by destruct (Ascii.eqb a x).
  - destruct (Ascii.eqb a x) eqn:E1; [|done].
    destruct (Ascii.eqb b y) eqn:E2; [|done].
    apply Ascii.eqb_eq in E1 as ->. apply Ascii.eqb_eq in E2 as ->. by intros [= ->].
Qed.

(** An alternative with a two-character opening delimiter that starts with
    [x] and a closing delimiter that holds [stop] can only succeed where the
    alternative [x (any but stop)* stop] succeeds too. *)
Lemma double_delimiter_shadowed (x y stop : ascii) (c : string) (n n' : nat)
    (p : ascii -> bool) (pos : nat) (s : string) (caps : submatches) (k : cont) :
  (forall pos' s' caps', is_Some (k pos' s' caps')) ->
  hasChar stop c = true ->
  run (Lit (String x (String y "")) · Cap n (Star p) · Lit c) pos s caps k <> None ->
  run (Lit (String x "") · Cap n' (Star (notChar stop)) · Lit (String stop ""))
      pos s caps k <> None.
Proof.
  intros Hk Hc Hrun.
  destruct (run (Lit (String x (String y "")) · Cap n (Star p) · Lit c) pos s caps k)
    as [res|] eqn:E; [|done].
  destruct (delimited_hasChar stop (String x (String y "")) c n p pos s caps k)
    as (s1 & Hs1 & Hhas); [by rewrite E|done|].
  apply stripPrefix2 in Hs1 as ->.
  destruct (delimited_reaches x stop n' pos (String y s1) caps k Hk) as [res' Hres'].
  - simpl. rewrite Hhas. apply orb_true_r.
  - by rewrite Hres'.
Qed.

(** The shape read off the submatches, when at most group [n] of the groups
    from 2 on took part in the match. *)
Lemma labelShapeFrom_spec (gs : list string) :
  forall j,
    (labelShapeFrom j gs).2 = "default"
    \/ exists i g, gs !! i = Some g /\ g <> "" /\ (labelShapeFrom j gs).2 = shapeOf (j + i).
Proof.
  induction gs as [|g gs IH]; intros j; simpl; [by left|].
  destruct (eqb_str g "") eqn:E; simpl.
  - destruct (IH (S j)) as [H|(i & g' & Hi & Hg' & H)]; [by left|].
    right. exists (S i), g'. split; [done|]. split; [done|].
    by rewrite H, Nat.add_succ_r.
  - right. exists 0%nat, g. apply eqb_str_false in E. by rewrite Nat.add_0_r.
Qed.

Lemma labelShape_framed (m : submatches) (n : nat) :
  shapeOf n ∈ simpleShapes ->
  (forall j, j <> 0%nat -> j <> 1%nat -> j <> n -> m !! j = replicate 12 "" !! j) ->
  (labelShape m).2 ∈ simpleShapes.
Proof.
  intros Hn Hm. unfold labelShape.
  destruct (labelShapeFrom_spec (drop 2 m) 2) as [->|(i & g & Hi & Hg & ->)].
  - apply list_elem_of_here.
  - rewrite lookup_drop in Hi.
    destruct (decide ((2 + i)%nat = n)) as [->|Hne]; [done|].
    rewrite Hm in Hi by lia.
    apply lookup_replicate in Hi as [-> _]. done.
Qed.

Lemma findAllFrom_matchAt (re : Regexp) (s : string) :
  forall skip pos m,
    m ∈ findAllFrom re skip pos s ->
    exists pos' s' len, matchAt re pos' s' = Some (len, m).
Proof.
  induction s as [|c s IH]; intros skip pos m.
  - destruct skip as [|skip]; simpl; [|by intros H; inversion H].
    destruct (matchAt re pos "") as [[len caps]|] eqn:E; [|by intros H; inversion H].
    intros H. apply list_elem_of_singleton in H as ->. eauto.
  - destruct skip as [|skip]; simpl; [|by apply IH].
    destruct (matchAt re pos (String c s)) as [[len caps]|] eqn:E; [|by apply IH].
    intros H. apply elem_of_cons in H as [->|H]; [eauto|by apply IH in H].
Qed.

(** Whatever the text, a match of the node-definition pattern yields one of
    the shape tags rect, round, rhombus, asymmetric, or default. *)
Lemma nodeDefPattern_simple_shape (pos : nat) (s : string) (len : nat) (m : submatches) :
  matchAt nodeDefPattern pos s = Some (len, m) ->
  (labelShape m).2 ∈ simpleShapes.
Proof.
  unfold matchAt, nodeDefPattern. cbn [expr numCap].
  set (caps0 := replicate 12 "").
  set (k := fun (pos' : nat) (_ : string) (caps' : submatches) =>
              Some ((pos' - pos)%nat, <[0%nat := String.substring 0 (pos' - pos) s]> caps')).
  assert (Hk : forall pos' s' caps', is_Some (k pos' s' caps')) by (intros; by eexists).
  assert (Hkm : forall pos' s' caps', k pos' s' caps' = Some (len, m) ->
                forall j, j <> 0%nat -> m !! j = caps' !! j).
  { intros pos' s' caps' [= _ <-] j Hj. by apply list_lookup_insert_ne. }
  rewrite run_Cat. intros H.
  apply run_frame in H as (pos1 & s1 & caps1 & H & _ & Hf1).
  cbn [groupsOf app] in Hf1. cbv beta in H. rewrite run_Opt in H.
  match type of H with
  | match run ?alts _ _ _ _ with _ => _ end = _ => set (ALTS := alts) in H
  end.
  destruct (run ALTS pos1 s1 caps1 k) as [res|] eqn:E.
  - injection H as ->.
    apply run_alternatives in E as (i & a & Hi & Ha & Hbefore).
    assert (Hfirst : forall b, alternatives ALTS !! 0%nat = Some b -> (0 < i)%nat ->
                     run b pos1 s1 caps1 k = None)
      by (intros b Hb Hlt; by apply (Hbefore 0%nat)).
    assert (Hsecond : forall b, alternatives ALTS !! 1%nat = Some b -> (1 < i)%nat ->
                      run b pos1 s1 caps1 k = None)
      by (intros b Hb Hlt; by apply (Hbefore 1%nat)).
    specialize (Hfirst _ eq_refl). specialize (Hsecond _ eq_refl).
    clear Hbefore.
    assert (Hgood : forall n,
              (forall j, j ∈ groupsOf a -> j = n) ->
              shapeOf n ∈ simpleShapes -> (labelShape m).2 ∈ simpleShapes).
    { intros n Hgroups Hn. apply (labelShape_framed m n Hn). intros j H0 H1 Hjn.
      apply run_frame in Ha as (pos2 & s2 & caps2 & Ha & _ & Hf2).
      rewrite (Hkm _ _ _ Ha j H0), Hf2, Hf1; [done| |].
      - rewrite list_elem_of_singleton. done.
      - intros Hin. by apply Hjn, Hgroups. }
    assert (Hone : forall n, groupsOf a = [n] ->
              shapeOf n ∈ simpleShapes -> (labelShape m).2 ∈ simpleShapes).
    { intros n Hg Hn. apply (Hgood n); [|done].
      intros j Hj. rewrite Hg in Hj. by apply list_elem_of_singleton in Hj. }
    assert (Hsimple : forall sh, sh ∈ simpleShapes <-> bool_decide (sh ∈ simpleShapes) = true)
      by (intros; by rewrite bool_decide_eq_true).
    destruct i as [|[|[|[|[|[|[|[|[|[|i]]]]]]]]]]; simpl in Hi; try discriminate;
      injection Hi as <-.
    + apply (Hone 2%nat); [done|by apply Hsimple].
    + apply (Hone 3%nat); [done|by apply Hsimple].
    + apply (Hone 4%nat); [done|by apply Hsimple].
    + exfalso. 
      apply (double_delimiter_shadowed "[" "[" "]" "]]" 5 2 (notChar "]") pos1 s1 caps1 k);
        [done|done|by rewrite Ha|apply Hfirst; lia].
    + exfalso.
      apply (double_delimiter_shadowed "[" "(" "]" ")]" 6 2 (notChar ")") pos1 s1 caps1 k);
        [done|done|by rewrite Ha|apply Hfirst; lia].
    + exfalso.
      apply (double_delimiter_shadowed "(" "[" ")" "])" 7 3 (notChar "]") pos1 s1 caps1 k);
        [done|done|by rewrite Ha|apply Hsecond; lia].
    + exfalso.
      apply (double_delimiter_shadowed "(" "(" ")" "))" 8 3 (notChar ")") pos1 s1 caps1 k);
        [done|done|by rewrite Ha|apply Hsecond; lia].
    + apply (Hone 9%nat); [done|by apply Hsimple].
    + exfalso.
      apply (double_delimiter_shadowed "[" "/" "]" "/]" 10 2 (notChar "]") pos1 s1 caps1 k);
        [done|done|by rewrite Ha|apply Hfirst; lia].
    + exfalso.
      apply (double_delimiter_shadowed "[" "\" "]" "\]" 11 2 (notChar "]") pos1 s1 caps1 k);
        [done|done|by rewrite Ha|apply Hfirst; lia].
  - apply (labelShape_framed m 0); [apply list_elem_of_here|].
    intros j H0 H1 _. rewrite (Hkm _ _ _ H j H0), Hf1; [done|].
    by rewrite list_elem_of_singleton.
Qed.

Lemma nodeDefPattern_shapes (line : string) (m : submatches) :
  m ∈ FindAllStringSubmatch nodeDefPattern line ->
  (labelShape m).2 ∈ simpleShapes.
Proof.
  intros H. apply findAllFrom_matchAt in H as (pos & s & len & H).
  by apply (nodeDefPattern_simple_shape pos s len).
Qed.

Lemma fold_left_preserves_elem {A B : Type} (P : A -> Prop) (f : A -> B -> A) (l : list B) :
  (forall a b, b ∈ l -> P a -> P (f a b)) -> forall a, P a -> P (fold_left f l a).
Proof.
  induction l as [|b l IH]; intros Hstep a Ha; simpl; [done|].
  apply IH.
  - intros a' b' Hb'. apply Hstep. by apply list_elem_of_further.
  - apply Hstep; [apply list_elem_of_here|done].
Qed.

Lemma backfill_shapes (id label shape : string) (ns : list Node) :
  shape ∈ simpleShapes ->
  Forall (fun n => NodeShape n ∈ "" :: simpleShapes) ns ->
  Forall (fun n => NodeShape n ∈ "" :: simpleShapes) (backfill id label shape ns).
Proof.
  intros Hshape. induction ns as [|n ns IH]; intros Hns; simpl; [done|].
  apply Forall_cons in Hns as [Hn Hns].
  destruct (eqb_str (NodeID n) id && eqb_str (NodeLabel n) "").
  - apply Forall_cons. split; [|done]. simpl. by apply list_elem_of_further.
  - apply Forall_cons. split; [done|by apply IH].
Qed.

Lemma flowLine_shapes (startLine : Z) (i : nat) (line : string) (st : flowState) :
  shapesInv st -> shapesInv (flowLine startLine i line st).
Proof.
  intros Hinv. unfold flowLine.
  destruct (blankOrComment _); [done|].
  destruct (_ || _); [done|].
  destruct (isDirective _); [done|].
  apply fold_left_preserves_elem.
  - intros st' m Hm Hst'. unfold nodeStep.
    destruct (eqb_str (group m 1) ""); [done|].
    pose proof (nodeDefPattern_shapes _ m Hm) as Hshape.
    destruct (labelShape m) as [label shape]. simpl in Hshape.
    destruct (negb (lookupBool (seenNodes st') (group m 1))).
    + unfold shapesInv. cbn [nodes]. apply Forall_app. split; [done|].
      apply Forall_singleton. simpl. by apply list_elem_of_further.
    + destruct (negb (eqb_str label "")); [|done].
      unfold shapesInv. cbn [nodes]. by apply backfill_shapes.
  - apply fold_left_preserves; [|done].
    intros st' m Hst'. unfold edgeStep, register. cbn [seenNodes nodes edges].
    repeat case_match; unfold shapesInv in *; cbn [nodes] in *;
      repeat (apply Forall_app; split); try done;
      apply Forall_singleton; simpl; apply list_elem_of_here.
Qed.

Lemma Parse_shapes (source : string) (startLine : Z) (n : Node) :
  n ∈ Nodes (Parse source startLine) -> NodeShape n ∈ "" :: simpleShapes.
Proof.
  unfold Parse.
  set (d0 := mkDiagram "" "" "" [] [] (Split source LF) startLine).
  destruct (parseType_Nodes (Split source LF) d0) as (Hn & He & _).
  destruct (isFlow _).
  - unfold parseFlowchart. cbn [Nodes]. rewrite Hn, He. simpl Nodes. simpl Edges.
    assert (H : forall ls i st, shapesInv st ->
                shapesInv (flowLoop (StartLine (parseType d0 (Split source LF))) i ls st)).
    { induction ls as [|l ls IH]; intros i st Hst; simpl; [done|].
      by apply IH, flowLine_shapes. }
    intros Hin. specialize (H (Split source LF) 0%nat (mkFlow ∅ [] [])).
    unfold shapesInv in H. cbn [nodes] in H. specialize (H (Forall_nil_2 _)).
    eapply list.Forall_forall in H; [exact H|exact Hin].
  - rewrite Hn. intros H. inversion H.
Qed.

End Shapes.

(** ** Node definitions: shapes, registration and backfill *)

(** C3 (the code falls short of it).  The alternatives of the node-definition
    pattern are tried from left to right and the plain bracket and the plain
    paren come first, so they win over the doubled and the mixed delimiters:
    [A[[Sub]]] is read as a rectangle labelled ["[Sub"], [A((C))] as a
    rounded node labelled ["(C"], and [A([S])] as a rounded node labelled
    ["[S]"]; none gets the shape subroutine, circle or stadium.  The single
    delimiters are read as stated.  Whatever the source, a parsed node has an
    empty shape (registered from an edge), the shape default, rect, round,
    rhombus or asymmetric, and never one of the six other tags. *)
Theorem C3_double_delimiters_shadowed :
  Nodes (Parse ("flowchart LR" +:+ nl +:+ "  A[[Sub]]") 1) = [mkNode "A" "[Sub" 2 "rect"]
  /\ Nodes (Parse ("flowchart LR" +:+ nl +:+ "  A((C))") 1) = [mkNode "A" "(C" 2 "round"]
  /\ Nodes (Parse ("flowchart LR" +:+ nl +:+ "  A([S])") 1) = [mkNode "A" "[S]" 2 "round"]
  /\ FindAllStringSubmatch nodeDefPattern "A[[Sub]]"
     = [["A[[Sub]"; "A"; "[Sub"; ""; ""; ""; ""; ""; ""; ""; ""; ""]]
  /\ Nodes (Parse ("graph TD" +:+ nl +:+ "A[r]" +:+ nl +:+ "B(o)" +:+ nl +:+ "C{h}"
                   +:+ nl +:+ "D>a]") 1)
     = [mkNode "A" "r" 2 "rect"; mkNode "B" "o" 3 "round"; mkNode "C" "h" 4 "rhombus";
        mkNode "D" "a" 5 "asymmetric"]
  /\ (forall source startLine n,
        n ∈ Nodes (Parse source startLine) ->
        NodeShape n ∈ ["" ; "default"; "rect"; "round"; "rhombus"; "asymmetric"]).
Proof.
  split; [vm_compute; reflexivity|].
  split; [vm_compute; reflexivity|].
  split; [vm_compute; reflexivity|].
  split; [vm_compute; reflexivity|].
  split; [vm_compute; reflexivity|].
  apply Parse_shapes.
Qed.

Section NodeDefinitions.

Lemma backfill_middle (id label shape : string) (pre post : list Node) (n : Node) :
  id ∉ map NodeID pre -> NodeID n = id -> NodeLabel n = "" ->
  backfill id label shape (pre ++ n :: post)
  = pre ++ mkNode id label (NodeLine n) shape :: post.
Proof.
  intros Hpre Hid Hlab. induction pre as [|x pre IH]; simpl.
  - by rewrite Hid, Hlab, !eqb_str_refl.
  - destruct (eqb_str (NodeID x) id) eqn:E.
    + apply eqb_str_true in E. exfalso. apply Hpre. simpl. rewrite E.
      apply list_elem_of_here.
    + simpl. rewrite IH; [done|].
      intros H. apply Hpre. simpl. by apply list_elem_of_further.
Qed.

Lemma backfill_labelled (id label shape : string) (ns : list Node) :
  (forall x, x ∈ ns -> NodeID x = id -> NodeLabel x <> "") ->
  backfill id label shape ns = ns.
Proof.
  induction ns as [|x ns IH]; intros H; simpl; [done|].
  destruct (eqb_str (NodeID x) id) eqn:E; simpl.
  - apply eqb_str_true in E.
    assert (Hx : NodeLabel x <> "") by (apply H; [apply list_elem_of_here|done]).
    apply eqb_str_false in Hx. rewrite Hx.
    rewrite IH; [done|]. intros y Hy. apply H. by apply list_elem_of_further.
  - rewrite IH; [done|]. intros y Hy. apply H. by apply list_elem_of_further.
Qed.

(** With pairwise distinct ids, a node is determined by its id. *)
Lemma NoDup_ids_inj (ns : list Node) (x y : Node) :
  NoDup (map NodeID ns) -> x ∈ ns -> y ∈ ns -> NodeID x = NodeID y -> x = y.
Proof.
  induction ns as [|z ns IH]; simpl; intros Hnd Hx Hy Hxy.
  - inversion Hx.
  - apply NoDup_cons in Hnd as [Hz Hnd].
    apply elem_of_cons in Hx as [->|Hx]; apply elem_of_cons in Hy as [->|Hy].
    + done.
    + exfalso. apply Hz. rewrite Hxy. by apply list_elem_of_fmap_2.
    + exfalso. apply Hz. rewrite <- Hxy. by apply list_elem_of_fmap_2.
    + by apply IH.
Qed.

Lemma flowState_eta (st : flowState) :
  mkFlow (seenNodes st) (nodes st) (edges st) = st.
Proof. by destruct st. Qed.

(** A definition of an id that is registered and whose node has a label, or
    a definition without a label, changes nothing. *)
Lemma nodeStep_unchanged (lineNum : Z) (st : flowState) (m : submatches) (n : Node) :
  flowInv st -> n ∈ nodes st -> NodeID n = group m 1 ->
  NodeLabel n <> "" \/ (labelShape m).1 = "" ->
  nodeStep lineNum st m = st.
Proof.
  intros [Hnd Hseen] Hn Hid Hcase. unfold nodeStep.
  destruct (eqb_str (group m 1) ""); [done|].
  destruct (labelShape m) as [label shape]. simpl in Hcase.
  assert (Hs : lookupBool (seenNodes st) (group m 1) = true).
  { apply Hseen. rewrite <- Hid. by apply list_elem_of_fmap_2. }
  rewrite Hs. cbn [negb].
  destruct (eqb_str label "") eqn:El; cbn [negb]; [done|].
  destruct Hcase as [Hlab|Hlab]; [|apply eqb_str_false in El; done].
  rewrite backfill_labelled; [apply flowState_eta|].
  intros x Hx Hxid.
  assert (x = n) as -> by (apply (NoDup_ids_inj (nodes st)); congruence).
  done.
Qed.

End NodeDefinitions.

(** C4, as amended.  During a flowchart/graph parse (the ids of the node list
    are pairwise distinct and [seenNodes] holds exactly them), a node
    definition for a new id appends a node with the definition's label and
    shape, at the current line; a definition with a non-empty label for an id
    whose node has an empty label gives that node the definition's label and
    shape, in place; a definition for an id whose node has a non-empty
    label, or a definition with an empty label for a registered id, changes
    nothing; and once a definition with a non-empty label has been
    processed, no later definition of that id changes anything. *)
Theorem C4_node_definition (lineNum : Z) (st : flowState) (m : submatches)
    (id label shape : string) :
  flowInv st ->
  group m 1 = id -> id <> "" -> labelShape m = (label, shape) ->
  let st' := nodeStep lineNum st m in
  (id ∉ map NodeID (nodes st) ->
     nodes st' = nodes st ++ [mkNode id label lineNum shape])
  /\ (forall pre n post,
        nodes st = pre ++ n :: post -> NodeID n = id -> NodeLabel n = "" -> label <> "" ->
        nodes st' = pre ++ mkNode id label (NodeLine n) shape :: post)
  /\ (forall n, n ∈ nodes st -> NodeID n = id -> NodeLabel n <> "" \/ label = "" ->
        st' = st)
  /\ (label <> "" ->
        forall lineNum' m', group m' 1 = id -> nodeStep lineNum' st' m' = st').
Proof.
  intros Hinv Hid Hne Hls st'.
  assert (Hnew : id ∉ map NodeID (nodes st) ->
                 nodes st' = nodes st ++ [mkNode id label lineNum shape]).
  { intros Hnot. subst st'. unfold nodeStep. rewrite Hid, Hls.
    apply eqb_str_false in Hne. rewrite Hne.
    destruct (lookupBool (seenNodes st) id) eqn:Hs; [|done].
    exfalso. apply Hnot. by apply Hinv. }
  assert (Hfill : forall pre n post,
             nodes st = pre ++ n :: post -> NodeID n = id -> NodeLabel n = "" ->
             label <> "" ->
             nodes st' = pre ++ mkNode id label (NodeLine n) shape :: post).
  { intros pre n post Hsplit Hn Hlab Hlabel. subst st'. unfold nodeStep.
    rewrite Hid, Hls. apply eqb_str_false in Hne. rewrite Hne.
    assert (Hs : lookupBool (seenNodes st) id = true).
    { apply Hinv. rewrite Hsplit, map_app. apply elem_of_app. right.
      simpl. rewrite Hn. apply list_elem_of_here. }
    rewrite Hs. cbn [negb]. apply eqb_str_false in Hlabel. rewrite Hlabel.
    cbn [negb nodes]. rewrite Hsplit. apply backfill_middle; [|done|done].
    destruct Hinv as [Hnd _]. rewrite Hsplit, map_app in Hnd.
    apply NoDup_app in Hnd as (_ & Hdisj & _).
    intros Hin. apply (Hdisj _ Hin). simpl. rewrite Hn. apply list_elem_of_here. }
  assert (Hsame : forall n, n ∈ nodes st -> NodeID n = id ->
             NodeLabel n <> "" \/ label = "" -> st' = st).
  { intros n Hn Hnid Hcase. subst st'.
    apply (nodeStep_unchanged lineNum st m n); [done|done|congruence|].
    by rewrite Hls. }
  split; [exact Hnew|]. split; [exact Hfill|]. split; [exact Hsame|].
  intros Hlabel lineNum' m' Hid'.
  assert (Hinv' : flowInv st') by (by apply nodeStep_inv).
  assert (Hex : exists n', n' ∈ nodes st' /\ NodeID n' = id /\ NodeLabel n' <> "").
  { destruct (decide (id ∈ map NodeID (nodes st))) as [Hin|Hnot].
    - apply list_elem_of_fmap in Hin as (n & Hn & Hnin).
      destruct (decide (NodeLabel n = "")) as [Hempty|Hfull].
      + apply list_elem_of_split in Hnin as (pre & post & Hsplit).
        rewrite (Hfill pre n post) by done.
        exists (mkNode id label (NodeLine n) shape). split; [|done].
        apply elem_of_app. right. apply list_elem_of_here.
      + rewrite (Hsame n) by (done || by left). by exists n.
    - rewrite (Hnew Hnot). exists (mkNode id label lineNum shape). split; [|done].
      apply elem_of_app. right. apply list_elem_of_here. }
  destruct Hex as (n' & Hn' & Hn'id & Hn'lab).
  apply (nodeStep_unchanged lineNum' st' m' n'); [done|done|congruence|by left].
Qed.

(** A witness for C4: after the edge [A --> B] has registered A without a
    label, the definition [A[Start]] on line 3 backfills it in place. *)
Lemma C4_node_definition_witness :
  flowInv after_edge_A_B
  /\ FindAllStringSubmatch nodeDefPattern "A[Start]"
     = [["A[Start]"; "A"; "Start"; ""; ""; ""; ""; ""; ""; ""; ""; ""]]
  /\ nodes (nodeStep 3 after_edge_A_B
              ["A[Start]"; "A"; "Start"; ""; ""; ""; ""; ""; ""; ""; ""; ""])
     = [mkNode "A" "Start" 2 "rect"; mkNode "B" "" 2 ""].
Proof.
  assert (H : flowInv after_edge_A_B) by apply flowLoop_inv, flowInv_init.
  split; [exact H|]. split; [vm_compute; reflexivity|].
  destruct (C4_node_definition 3 after_edge_A_B
              ["A[Start]"; "A"; "Start"; ""; ""; ""; ""; ""; ""; ""; ""; ""]
              "A" "Start" "rect" H) as (_ & Hfill & _);
    [reflexivity | discriminate | reflexivity |].
  apply (Hfill [] (mkNode "A" "" 2 "") [mkNode "B" "" 2 ""]);
    [vm_compute; reflexivity | reflexivity | reflexivity | discriminate].
Defined.

(** C4, as stated, fails: [A[]] on line 3 is a node definition for the id A
    (label empty, shape "default") and A is registered with an empty label,
    yet the node keeps the empty shape it was registered with: the
    definition's shape is not written into it. *)
Lemma C4_counterexample :
  map (fun m => (group m 1, labelShape m)) (FindAllStringSubmatch nodeDefPattern "A[]")
  = [("A", ("", "default"))]
  /\ nodes after_edge_A_B = [mkNode "A" "" 2 ""; mkNode "B" "" 2 ""]
  /\ Nodes (Parse ("flowchart LR" +:+ nl +:+ "  A --> B" +:+ nl +:+ "  A[]") 1)
     = [mkNode "A" "" 2 ""; mkNode "B" "" 2 ""].
Proof. vm_compute. repeat split. Qed.

(** ** Extraction of fenced blocks *)

Section Extraction.

Lemma int_add_1 (z : Z) : 0 <= z < 2 ^ 63 - 1 -> int_add z 1 = z + 1.
Proof. intros Hz. unfold int_add. apply wrap64_small. lia. Qed.

(** Outside a block, lines that open no fence are passed over. *)
Lemma extract_outside (ls : list string) :
  forall (bs : list MermaidBlock) (keep : list string) (z : Z),
    Forall (fun l => opens l = false) ls ->
    0 <= z -> z + Z.of_nat (length ls) < 2 ^ 63 ->
    fold_left extractStep ls (mkExtract bs None keep z)
    = mkExtract bs None keep (z + Z.of_nat (length ls)).
Proof.
  induction ls as [|l ls IH]; intros bs keep z Hls Hz Hbound.
  - simpl. by rewrite Z.add_0_r.
  - apply Forall_cons in Hls as [Hl Hls].
    cbn [fold_left length] in *. unfold extractStep at 2. cbn [current lineNum blocks lines].
    unfold opens in Hl. rewrite Hl, int_add_1 by lia.
    rewrite IH by (done || lia). f_equal. lia.
Qed.

(** Inside a block, lines that close no fence are buffered. *)
Lemma extract_inside (ls : list string) :
  forall (bs : list MermaidBlock) (cur : MermaidBlock) (acc : list string) (z : Z),
    Forall (fun l => closes l = false) ls ->
    0 <= z -> z + Z.of_nat (length ls) < 2 ^ 63 ->
    fold_left extractStep ls (mkExtract bs (Some cur) acc z)
    = mkExtract bs (Some cur) (acc ++ ls) (z + Z.of_nat (length ls)).
Proof.
  induction ls as [|l ls IH]; intros bs cur acc z Hls Hz Hbound.
  - simpl. by rewrite Z.add_0_r, app_nil_r.
  - apply Forall_cons in Hls as [Hl Hls].
    cbn [fold_left length] in *. unfold extractStep at 2. cbn [current lineNum blocks lines].
    unfold closes in Hl. rewrite Hl, int_add_1 by lia.
    rewrite IH by (done || lia). rewrite <- app_assoc. f_equal. lia.
Qed.

(** Inside a block that is never closed, no block is emitted, however many
    lines follow. *)
Lemma extract_unclosed (ls : list string) :
  forall (st : extractState),
    is_Some (current st) ->
    Forall (fun l => closes l = false) ls ->
    blocks (fold_left extractStep ls st) = blocks st.
Proof.
  induction ls as [|l ls IH]; intros st [cur Hcur] Hls; [done|].
  apply Forall_cons in Hls as [Hl Hls].
  cbn [fold_left]. rewrite IH; [|clear IH|done].
  - unfold extractStep. rewrite Hcur. unfold closes in Hl. by rewrite Hl.
  - unfold extractStep. rewrite Hcur. unfold closes in Hl. rewrite Hl. by eexists.
Qed.

End Extraction.

(** C5.  A document of fewer than 2^63 lines that holds exactly one
    well-formed mermaid block (no opening fence before it, an opening fence
    at line L, k lines none of which is a closing fence, a closing fence at
    line L+k+1, no opening fence after it) yields exactly one block, with
    start line L, end line L+k+1 and, as source, the k lines between the
    fences joined by line feeds. *)
Theorem C5_single_block_round_trip (pre body post : list string) (opener closer : string) :
  Forall (fun l => opens l = false) pre ->
  opens opener = true ->
  Forall (fun l => closes l = false) body ->
  closes closer = true ->
  Forall (fun l => opens l = false) post ->
  Z.of_nat (length (pre ++ opener :: body ++ closer :: post)) < 2 ^ 63 ->
  let L := Z.of_nat (length pre) + 1 in
  let k := Z.of_nat (length body) in
  ExtractMermaidBlocks (mkScanner (pre ++ opener :: body ++ closer :: post) None)
  = inl [mkBlock (Join body nl) L (L + k + 1)].
Proof.
  intros Hpre Hopen Hbody Hclose Hpost Hlen L k.
  rewrite !length_app in Hlen. cbn [length] in Hlen. rewrite length_app in Hlen.
  cbn [length] in Hlen.
  unfold ExtractMermaidBlocks. cbn [Lines Err]. f_equal.
  rewrite fold_left_app. unfold extractInit.
  rewrite extract_outside by (done || lia).
  cbn [fold_left]. unfold extractStep at 2. cbn [current lineNum blocks lines].
  unfold opens in Hopen. rewrite Hopen, int_add_1 by lia.
  rewrite fold_left_app, extract_inside by (done || lia).
  cbn [fold_left]. unfold extractStep at 2. cbn [current lineNum blocks lines].
  unfold closes in Hclose. rewrite Hclose, int_add_1 by lia.
  rewrite extract_outside by (done || lia).
  cbn [blocks app BlockStartLine]. subst L k. do 2 f_equal; lia.
Qed.

(** A witness for C5: the document of the test suite, with its block at
    lines 5 to 8. *)
Lemma C5_single_block_round_trip_witness :
  ExtractMermaidBlocks
    (mkScanner (["# Title"; ""; "Some text"; ""] ++ "```mermaid"
                :: ["flowchart LR"; "  A --> B"] ++ "```" :: [""; "More text"]) None)
  = inl [mkBlock ("flowchart LR" +:+ nl +:+ "  A --> B") 5 8].
Proof.
  apply (C5_single_block_round_trip
           ["# Title"; ""; "Some text"; ""] ["flowchart LR"; "  A --> B"]
           [""; "More text"] "```mermaid" "```").
  - repeat constructor.
  - reflexivity.
  - repeat constructor.
  - reflexivity.
  - repeat constructor.
  - vm_compute. reflexivity.
Defined.

(** C10.  When the scanner ends cleanly and the lines after an opening fence
    (met outside any block) hold no closing fence, the extraction succeeds
    and returns exactly the blocks closed before that fence: nothing is
    emitted for the fence left open. *)
Theorem C10_unterminated_block_discarded (pre rest : list string) (opener : string) :
  current (fold_left extractStep pre extractInit) = None ->
  opens opener = true ->
  Forall (fun l => closes l = false) rest ->
  ExtractMermaidBlocks (mkScanner (pre ++ opener :: rest) None)
  = inl (blocks (fold_left extractStep pre extractInit))
  /\ ExtractMermaidBlocks (mkScanner (pre ++ opener :: rest) None)
     = ExtractMermaidBlocks (mkScanner pre None).
Proof.
  intros Hout Hopen Hrest.
  assert (H : ExtractMermaidBlocks (mkScanner (pre ++ opener :: rest) None)
              = inl (blocks (fold_left extractStep pre extractInit))).
  { unfold ExtractMermaidBlocks. cbn [Lines Err]. f_equal.
    rewrite fold_left_app. cbn [fold_left].
    set (st := fold_left extractStep pre extractInit) in *.
    assert (Hstep : extractStep st opener
                    = mkExtract (blocks st) (Some (mkBlock "" (int_add (lineNum st) 1) 0))
                                [] (int_add (lineNum st) 1)).
    { unfold extractStep. rewrite Hout. unfold opens in Hopen. by rewrite Hopen. }
    rewrite Hstep, extract_unclosed; [done|by eexists|done]. }
  split; [exact H|]. rewrite H. reflexivity.
Qed.

(** A witness for C10: a closed block, then a fence that is opened at line 6
    and never closed. *)
Lemma C10_unterminated_block_discarded_witness :
  ExtractMermaidBlocks
    (mkScanner (["```mermaid"; "graph TD"; "  A --> B"; "```"; "Text"]
                ++ "~~~mermaid" :: ["flowchart LR"; "  C --> D"; ""]) None)
  = inl [mkBlock ("graph TD" +:+ nl +:+ "  A --> B") 1 4].
Proof.
  apply (C10_unterminated_block_discarded
           ["```mermaid"; "graph TD"; "  A --> B"; "```"; "Text"]
           ["flowchart LR"; "  C --> D"; ""] "~~~mermaid").
  - reflexivity.
  - reflexivity.
  - repeat constructor.
Defined.

(** ** The rules node-has-label and no-orphan-nodes *)

Section NodeRules.

Lemma labelStep_fold (ns : list Node) :
  forall fs, fold_left labelStep ns fs = fs ++ map labelFinding (List.filter emptyLabel ns).
Proof.
  induction ns as [|n ns IH]; intros fs; simpl.
  - by rewrite app_nil_r.
  - rewrite IH. unfold labelStep, emptyLabel.
    destruct (eqb_str (NodeLabel n) ""); simpl; [|done].
    by rewrite <- app_assoc.
Qed.

Lemma NodeHasLabel_Check_flow (d : Diagram) :
  isFlow (Type_ d) = true ->
  NodeHasLabel_Check d = map labelFinding (List.filter emptyLabel (Nodes d)).
Proof.
  intros Hflow. unfold NodeHasLabel_Check. rewrite Hflow. cbn [negb].
  by rewrite labelStep_fold.
Qed.

(** [connected] holds exactly the endpoints of the edges. *)
Lemma connectStep_fold (es : list Edge) :
  forall (m : gmap string bool) (id : string),
    lookupBool (fold_left connectStep es m) id = true
    <-> lookupBool m id = true \/ id ∈ map From es \/ id ∈ map To es.
Proof.
  induction es as [|e es IH]; intros m id; simpl.
  - split; [by left|]. intros [H|[H|H]]; [done|inversion H|inversion H].
  - rewrite IH. unfold connectStep. rewrite !lookupBool_insert, !elem_of_cons.
    destruct (decide (To e = id)) as [Ht|Ht]; destruct (decide (From e = id)) as [Hf|Hf];
      split; intros H; try tauto; intuition congruence.
Qed.

Lemma connected_orphan (es : list Edge) (n : Node) :
  negb (lookupBool (fold_left connectStep es ∅) (NodeID n)) = isOrphan es n.
Proof.
  unfold isOrphan.
  destruct (lookupBool (fold_left connectStep es ∅) (NodeID n)) eqn:E.
  - apply connectStep_fold in E as [E|[E|E]].
    + by rewrite lookupBool_empty in E.
    + by rewrite (bool_decide_eq_true_2 _ E).
    + rewrite (bool_decide_eq_true_2 _ E). by rewrite andb_false_r.
  - assert (Hf : NodeID n ∉ map From es).
    { intros H. assert (E' : lookupBool (fold_left connectStep es ∅) (NodeID n) = true)
        by (apply connectStep_fold; tauto). congruence. }
    assert (Ht : NodeID n ∉ map To es).
    { intros H. assert (E' : lookupBool (fold_left connectStep es ∅) (NodeID n) = true)
        by (apply connectStep_fold; tauto). congruence. }
    by rewrite (bool_decide_eq_false_2 _ Hf), (bool_decide_eq_false_2 _ Ht).
Qed.

Lemma orphanStep_fold (es : list Edge) (ns : list Node) :
  forall fs,
    fold_left (orphanStep (fold_left connectStep es ∅)) ns fs
    = fs ++ map orphanFinding (List.filter (isOrphan es) ns).
Proof.
  induction ns as [|n ns IH]; intros fs; simpl.
  - by rewrite app_nil_r.
  - rewrite IH. unfold orphanStep. rewrite connected_orphan.
    destruct (isOrphan es n); simpl; [|done].
    by rewrite <- app_assoc.
Qed.

End NodeRules.

(** C7.  For every source whose parse is a flowchart or a graph, the findings
    of the node-has-label rule are, in order, one per node of the parsed
    diagram whose label is empty, each at that node's line; in particular
    there are exactly as many findings as there are such nodes. *)
Theorem C7_node_has_label_count (source : string) (startLine : Z) :
  let d := Parse source startLine in
  isFlow (Type_ d) = true ->
  length (NodeHasLabel_Check d) = length (List.filter emptyLabel (Nodes d))
  /\ map Line (NodeHasLabel_Check d) = map NodeLine (List.filter emptyLabel (Nodes d))
  /\ NodeHasLabel_Check d = map labelFinding (List.filter emptyLabel (Nodes d)).
Proof.
  intros d Hflow. rewrite (NodeHasLabel_Check_flow d Hflow).
  split; [by rewrite length_map|]. split; [|done].
  by rewrite map_map.
Qed.

(** A witness for C7: of the three nodes A, B and C, the two without a label
    are reported, both at line 2. *)
Lemma C7_node_has_label_count_witness :
  map Line (NodeHasLabel_Check
              (Parse ("flowchart LR" +:+ nl +:+ "  A --> B" +:+ nl +:+ "  C[Orphan]") 1))
  = [2; 2].
Proof.
  destruct (C7_node_has_label_count
              ("flowchart LR" +:+ nl +:+ "  A --> B" +:+ nl +:+ "  C[Orphan]") 1)
    as (_ & Hlines & _); [reflexivity|].
  rewrite Hlines. reflexivity.
Defined.

(** C8.  On a flowchart/graph diagram without edges no-orphan-nodes returns
    nothing, whatever the nodes; with edges it returns, in order, one finding
    per node whose id is the source or the target of no edge, at that node's
    line. *)
Theorem C8_orphan_nodes (d : Diagram) :
  isFlow (Type_ d) = true ->
  (Edges d = [] -> NoOrphanNodes_Check d = [])
  /\ (Edges d <> [] ->
      NoOrphanNodes_Check d
      = map orphanFinding (List.filter (isOrphan (Edges d)) (Nodes d)))
  /\ (forall n, Line (orphanFinding n) = NodeLine n).
Proof.
  intros Hflow. unfold NoOrphanNodes_Check. rewrite Hflow. cbn [negb].
  split; [|split; [|done]].
  - by intros ->.
  - intros Hne. destruct (Edges d) as [|e es] eqn:He; [done|].
    cbn [length Nat.eqb]. by rewrite orphanStep_fold.
Qed.

(** A witness for C8: with the edge A --> B, the node C is the orphan. *)
Lemma C8_orphan_nodes_witness :
  NoOrphanNodes_Check
    (mkDiagram "flowchart" "flowchart" "LR"
       [mkNode "A" "" 2 ""; mkNode "B" "" 2 ""; mkNode "C" "Orphan" 3 "rect"]
       [mkEdge "A" "B" "" 2 "-->"] [] 1)
  = [orphanFinding (mkNode "C" "Orphan" 3 "rect")].
Proof.
  destruct (C8_orphan_nodes
              (mkDiagram "flowchart" "flowchart" "LR"
                 [mkNode "A" "" 2 ""; mkNode "B" "" 2 ""; mkNode "C" "Orphan" 3 "rect"]
                 [mkEdge "A" "B" "" 2 "-->"] [] 1))
    as (_ & Hsome & _); [reflexivity|].
  rewrite Hsome; [reflexivity|discriminate].
Defined.

(** C9.  Linting "flowchart XX\n  A --> B" under the default configuration
    gives exactly one valid-direction finding, of severity error, for the
    direction XX (which is not a valid direction after upper-casing), and no
    no-unknown-diagram-type finding. *)
Theorem C9_invalid_direction_scenario (filename : string) :
  let findings :=
    LintSource (New DefaultConfig) ("flowchart XX" +:+ nl +:+ "  A --> B") filename in
  findByRule findings "valid-direction"
  = [mkFinding "valid-direction" SeverityError
       (Sprintf "invalid flowchart direction %q; must be one of TB, TD, BT, LR, RL"
                [Quoted "XX"])
       filename 1]
  /\ findByRule findings "no-unknown-diagram-type" = []
  /\ lookupBool ValidFlowchartDirections (ToUpper "XX") = false.
Proof. vm_compute. repeat split. Qed.

(** ** The rule engine *)

Section Engine.

Lemma stamp_fold (filename : string) (severity : Severity) (fs : list Finding) :
  forall acc,
    fold_left (stamp filename severity) fs acc
    = acc ++ map (fun f => mkFinding (Rule f) severity (Message f) filename (Line f)) fs.
Proof.
  induction fs as [|f fs IH]; intros acc; simpl.
  - by rewrite app_nil_r.
  - rewrite IH. unfold stamp. by rewrite <- app_assoc.
Qed.

Lemma ruleStep_fold (cfg : Config) (rules : list LintRule) (d : Diagram) (filename : string) :
  forall acc,
    fold_left (ruleStep (mkLinter cfg AllRules) d filename) rules acc
    = acc ++ flat_map (contribution cfg d filename) rules.
Proof.
  induction rules as [|r rules IH]; intros acc; simpl.
  - by rewrite app_nil_r.
  - rewrite IH. unfold ruleStep, contribution. cbn [LConfig].
    destruct (IsRuleEnabled cfg (Name r)); cbn [negb].
    + rewrite stamp_fold. by rewrite <- app_assoc.
    + done.
Qed.

Lemma lintDiagram_contributions (cfg : Config) (d : Diagram) (filename : string) :
  lintDiagram (New cfg) d filename = flat_map (contribution cfg d filename) AllRules.
Proof. unfold lintDiagram, New. cbn [LRules]. by rewrite ruleStep_fold. Qed.

(** Every finding of a registered rule carries that rule's name. *)
Lemma Forall_fold_left {A B : Type} (P : B -> Prop) (f : list B -> A -> list B) (l : list A) :
  (forall acc a, Forall P acc -> Forall P (f acc a)) ->
  forall acc, Forall P acc -> Forall P (fold_left f l acc).
Proof. intros Hstep. apply (fold_left_preserves (Forall P)). exact Hstep. Qed.

Lemma Check_rule_name (r : LintRule) (d : Diagram) :
  r ∈ AllRules -> Forall (fun f => Rule f = Name r) (Check r d).
Proof.
  unfold AllRules. rewrite !elem_of_cons. 
  intros [->|[->|[->|[->|[->|[->|H]]]]]]; [..|inversion H];
    unfold NoUnknownDiagramType, NoEmptyDiagram, ValidDirection, NoDuplicateNodeIDs,
      NodeHasLabel, NoOrphanNodes; cbn [Check Name].
  - unfold NoUnknownDiagramType_Check. repeat case_match; by repeat constructor.
  - unfold NoEmptyDiagram_Check. repeat case_match; by repeat constructor.
  - unfold ValidDirection_Check. repeat case_match; by repeat constructor.
  - unfold NoDuplicateNodeIDs_Check.
    destruct (negb _); [constructor|].
    assert (H : forall ns acc, Forall (fun f => Rule f = NoDuplicateNodeIDs_Name) acc.2 ->
                Forall (fun f => Rule f = NoDuplicateNodeIDs_Name) (fold_left dupStep ns acc).2).
    { induction ns as [|n ns IH]; intros acc Hacc; [done|].
      simpl. apply IH. destruct acc as [seen fs]. unfold dupStep.
      destruct (seen !! NodeID n); [|done].
      cbn [snd] in *. apply Forall_app. split; [done|]. by repeat constructor. }
    apply H. constructor.
  - unfold NodeHasLabel_Check.
    destruct (negb _); [constructor|].
    apply Forall_fold_left; [|constructor].
    intros acc n Hacc. unfold labelStep. destruct (eqb_str _ _); [|done].
    apply Forall_app. split; [done|]. by repeat constructor.
  - unfold NoOrphanNodes_Check.
    destruct (negb _); [constructor|].
    destruct (Nat.eqb _ _); [constructor|].
    apply Forall_fold_left; [|constructor].
    intros acc n Hacc. unfold orphanStep. destruct (negb _); [|done].
    apply Forall_app. split; [done|]. by repeat constructor.
Qed.


End Engine.



(** * Further properties of the code *)

(** ** More on the extraction of fenced blocks *)

Section ExtractionInvariant.

Lemma blockOf_snoc (doc : list string) (l : string) (b : MermaidBlock) :
  blockOf doc b -> blockOf (doc ++ [l]) b.
Proof.
  intros (pre & opener & body & closer & post & -> & H).
  exists pre, opener, body, closer, (post ++ [l]). split; [|exact H].
  rewrite <- app_assoc. cbn [app]. rewrite <- app_assoc. done.
Qed.

Lemma blockOf_range (doc : list string) (b : MermaidBlock) :
  blockOf doc b ->
  1 <= BlockStartLine b /\ BlockStartLine b < EndLine b /\ EndLine b <= Z.of_nat (length doc).
Proof.
  intros (pre & opener & body & closer & post & -> & _ & _ & _ & _ & -> & ->).
  rewrite length_app. cbn [length]. rewrite length_app. cbn [length]. lia.
Qed.

Lemma extractInv_init : extractInv [] extractInit.
Proof. unfold extractInv, extractInit. cbn. repeat split; constructor. Qed.

Lemma extractStep_inv (doc : list string) (st : extractState) (l : string) :
  Z.of_nat (length doc) + 1 < 2 ^ 63 ->
  extractInv doc st -> extractInv (doc ++ [l]) (extractStep st l).
Proof.
  intros Hbound (Hnum & Hblocks & Hsorted & Hcur).
  assert (Hnum' : int_add (lineNum st) 1 = Z.of_nat (length (doc ++ [l]))).
  { rewrite int_add_1 by lia. rewrite length_app. cbn [length]. lia. }
  assert (Hblocks' : Forall (blockOf (doc ++ [l])) (blocks st)).
  { eapply Forall_impl; [exact Hblocks|]. intros b. apply blockOf_snoc. }
  unfold extractStep. destruct (current st) as [cur|] eqn:Ecur.
  - destruct Hcur as (Hbefore & pre & opener & Hdoc & Hopen & Hbody & Hstart).
    destruct (isClosingFence (TrimSpace l)) eqn:Hclose.
    + unfold extractInv. cbn [lineNum blocks current lines].
      split; [done|]. split; [|split; [|done]].
      * apply Forall_app. split; [done|]. apply Forall_singleton.
        exists pre, opener, (lines st), l, []. cbn [BlockSource BlockStartLine EndLine].
        split; [by rewrite Hdoc, <- app_assoc|]. repeat split; try done.
        rewrite Hnum', Hdoc, !length_app. cbn [length]. lia.
      * apply StronglySorted_app. split; [|split; [done|]].
        -- intros b1 b2 Hb1 Hb2. apply list_elem_of_singleton in Hb2 as ->.
           unfold blockBefore. cbn [BlockStartLine].
           rewrite list.Forall_forall in Hbefore. by apply Hbefore.
        -- repeat constructor.
    + unfold extractInv. cbn [lineNum blocks current lines].
      split; [done|]. split; [done|]. split; [done|]. split; [done|].
      exists pre, opener. split; [by rewrite Hdoc, <- app_assoc|].
      split; [done|]. split; [|done].
      apply Forall_app. split; [done|]. by apply Forall_singleton.
  - destruct (isMermaidFenceOpen (TrimSpace l)) eqn:Hopen.
    + unfold extractInv. cbn [lineNum blocks current lines BlockStartLine].
      split; [done|]. split; [done|]. split; [done|]. split.
      * rewrite list.Forall_forall. intros b Hb.
        rewrite list.Forall_forall in Hblocks.
        pose proof (blockOf_range doc b (Hblocks b Hb)) as (_ & _ & Hend).
        rewrite Hnum', length_app. cbn [length]. lia.
      * exists doc, l. split; [done|]. split; [done|]. split; [constructor|].
        rewrite Hnum', length_app. cbn [length]. lia.
    + unfold extractInv. cbn [lineNum blocks current lines]. done.
Qed.

Lemma extract_inv (doc : list string) :
  Z.of_nat (length doc) < 2 ^ 63 ->
  extractInv doc (fold_left extractStep doc extractInit).
Proof.
  induction doc as [|l doc IH] using rev_ind; intros Hbound.
  - apply extractInv_init.
  - rewrite fold_left_app. cbn [fold_left].
    rewrite length_app in Hbound. cbn [length] in Hbound.
    apply extractStep_inv; [lia|]. apply IH. lia.
Qed.

(** Outside a block, lines that open no fence change neither the blocks nor
    the fact of being outside, however many they are. *)
Lemma extract_no_fence (ls : list string) :
  forall st,
    current st = None ->
    Forall (fun l => opens l = false) ls ->
    blocks (fold_left extractStep ls st) = blocks st
    /\ current (fold_left extractStep ls st) = None.
Proof.
  induction ls as [|l ls IH]; intros st Hcur Hls; [done|].
  apply Forall_cons in Hls as [Hl Hls]. cbn [fold_left].
  assert (Hstep : extractStep st l = mkExtract (blocks st) None (lines st) (int_add (lineNum st) 1)).
  { unfold extractStep. rewrite Hcur. unfold opens in Hl. by rewrite Hl. }
  rewrite Hstep. by destruct (IH (mkExtract (blocks st) None (lines st) (int_add (lineNum st) 1))
                               eq_refl Hls) as [-> ->].
Qed.

Lemma extractStep_rel (bs : list MermaidBlock) (delta : Z) (st st0 : extractState)
    (l : string) :
  0 <= delta -> 0 <= lineNum st0 -> lineNum st0 + delta + 1 < 2 ^ 63 ->
  extractRel bs delta st st0 ->
  extractRel bs delta (extractStep st l) (extractStep st0 l).
Proof.
  intros Hdelta Hz Hbound (Hnum & Hblocks & Hcur).
  assert (Hnum' : int_add (lineNum st) 1 = int_add (lineNum st0) 1 + delta).
  { rewrite !int_add_1 by lia. lia. }
  unfold extractStep.
  destruct (current st) as [c|], (current st0) as [c0|]; try done.
  - destruct Hcur as [Hstart Hlines].
    destruct (isClosingFence (TrimSpace l)).
    + unfold extractRel. cbn [lineNum blocks current lines]. split; [done|]. split; [|done].
      rewrite Hblocks, map_app, <- app_assoc. cbn [map]. unfold shiftBlock at 3.
      cbn [BlockSource BlockStartLine EndLine]. by rewrite Hlines, Hstart, Hnum'.
    + unfold extractRel. cbn [lineNum blocks current lines]. by rewrite Hlines.
  - destruct (isMermaidFenceOpen (TrimSpace l)).
    + unfold extractRel. cbn [lineNum blocks current lines BlockStartLine]. done.
    + unfold extractRel. cbn [lineNum blocks current lines]. done.
Qed.

Lemma extractStep_lineNum (st : extractState) (l : string) :
  lineNum (extractStep st l) = int_add (lineNum st) 1.
Proof. unfold extractStep. by repeat case_match. Qed.

Lemma extract_rel (bs : list MermaidBlock) (delta : Z) (ls : list string) :
  forall st st0,
    0 <= delta -> 0 <= lineNum st0 ->
    lineNum st0 + delta + Z.of_nat (length ls) < 2 ^ 63 ->
    extractRel bs delta st st0 ->
    extractRel bs delta (fold_left extractStep ls st) (fold_left extractStep ls st0).
Proof.
  induction ls as [|l ls IH]; intros st st0 Hdelta Hz Hbound Hrel; [done|].
  cbn [fold_left length] in *. apply IH; [done| | |].
  - rewrite extractStep_lineNum, int_add_1 by lia. lia.
  - rewrite extractStep_lineNum, int_add_1 by lia. lia.
  - apply extractStep_rel; [done|done|lia|done].
Qed.

(** The blocks of two runs of lines read one after the other. *)
Lemma extract_concat (doc1 doc2 : list string) (bs1 bs2 : list MermaidBlock) :
  Z.of_nat (length (doc1 ++ doc2)) < 2 ^ 63 ->
  current (fold_left extractStep doc1 extractInit) = None ->
  ExtractMermaidBlocks (mkScanner doc1 None) = inl bs1 ->
  ExtractMermaidBlocks (mkScanner doc2 None) = inl bs2 ->
  ExtractMermaidBlocks (mkScanner (doc1 ++ doc2) None)
  = inl (bs1 ++ map (shiftBlock (Z.of_nat (length doc1))) bs2).
Proof.
  intros Hbound Hout. unfold ExtractMermaidBlocks. cbn [Lines Err].
  intros [= <-] [= <-]. f_equal. rewrite fold_left_app.
  rewrite length_app in Hbound.
  set (st1 := fold_left extractStep doc1 extractInit) in *.
  assert (Hnum : lineNum st1 = Z.of_nat (length doc1)).
  { by destruct (extract_inv doc1 ltac:(lia)) as (H & _). }
  destruct (extract_rel (blocks st1) (Z.of_nat (length doc1)) doc2 st1 extractInit)
    as (_ & H & _); [lia|done|cbn; lia| |exact H].
  unfold extractRel. rewrite Hout. cbn. rewrite app_nil_r. done.
Qed.

End ExtractionInvariant.

(** X1.  A document none of whose lines opens a mermaid fence (text only, or
    fences of other languages) yields no block, and linting it yields no
    finding, whatever the rules enabled and however long the document. *)
Theorem X1_no_fence_no_block (l : Linter) (doc : list string) (filename : string) :
  Forall (fun line => opens line = false) doc ->
  ExtractMermaidBlocks (mkScanner doc None) = inl []
  /\ LintMarkdownReader l (mkScanner doc None) filename = inl [].
Proof.
  intros Hdoc.
  assert (H : ExtractMermaidBlocks (mkScanner doc None) = inl []).
  { unfold ExtractMermaidBlocks. cbn [Lines Err]. f_equal.
    by destruct (extract_no_fence doc extractInit eq_refl Hdoc) as [-> _]. }
  split; [done|]. unfold LintMarkdownReader. by rewrite H.
Qed.

(** A witness for X1: the python block of the test suite. *)
Lemma X1_no_fence_no_block_witness :
  LintMarkdownReader (New DefaultConfig)
    (mkScanner ["# Doc"; ""; "```python"; "print('hello')"; "```"; ""] None) "doc.md"
  = inl [].
Proof.
  apply (X1_no_fence_no_block (New DefaultConfig)
           ["# Doc"; ""; "```python"; "print('hello')"; "```"; ""] "doc.md").
  repeat constructor.
Defined.

(** X2.  In a document of fewer than 2^63 lines read to a clean end, every
    block returned is a fenced segment of the document: an opening fence at
    its start line, a closing fence at its end line, between them lines none
    of which is a closing fence, and as source exactly those lines joined by
    line feeds. *)
Theorem X2_blocks_are_fenced_segments (doc : list string) (bs : list MermaidBlock) :
  Z.of_nat (length doc) < 2 ^ 63 ->
  ExtractMermaidBlocks (mkScanner doc None) = inl bs ->
  Forall (blockOf doc) bs.
Proof.
  intros Hbound. unfold ExtractMermaidBlocks. cbn [Lines Err]. intros [= <-].
  by destruct (extract_inv doc Hbound) as (_ & H & _).
Qed.

Lemma X2_blocks_are_fenced_segments_witness :
  Forall (blockOf ["```mermaid"; "graph TD"; "```"; "text"; "~~~ Mermaid"; "~~~"])
    [mkBlock "graph TD" 1 3; mkBlock "" 5 6].
Proof.
  apply (X2_blocks_are_fenced_segments
           ["```mermaid"; "graph TD"; "```"; "text"; "~~~ Mermaid"; "~~~"]).
  - vm_compute. reflexivity.
  - vm_compute. reflexivity.
Defined.

(** X3.  The blocks of a document of fewer than 2^63 lines come in the order
    of the document and do not overlap: each block starts at line 1 or
    later, ends after it starts and within the document, and ends before the
    next block starts. *)
Theorem X3_blocks_ordered_disjoint (doc : list string) (bs : list MermaidBlock) :
  Z.of_nat (length doc) < 2 ^ 63 ->
  ExtractMermaidBlocks (mkScanner doc None) = inl bs ->
  Forall (fun b => 1 <= BlockStartLine b /\ BlockStartLine b < EndLine b
                   /\ EndLine b <= Z.of_nat (length doc)) bs
  /\ StronglySorted blockBefore bs.
Proof.
  intros Hbound. unfold ExtractMermaidBlocks. cbn [Lines Err]. intros [= <-].
  destruct (extract_inv doc Hbound) as (_ & Hblocks & Hsorted & _).
  split; [|done].
  eapply Forall_impl; [exact Hblocks|]. intros b. apply blockOf_range.
Qed.

Lemma X3_blocks_ordered_disjoint_witness :
  StronglySorted blockBefore [mkBlock "graph TD" 1 3; mkBlock "" 5 6].
Proof.
  apply (X3_blocks_ordered_disjoint
           ["```mermaid"; "graph TD"; "```"; "text"; "~~~ Mermaid"; "~~~"]).
  - vm_compute. reflexivity.
  - vm_compute. reflexivity.
Defined.

(** X4.  Extraction composes over concatenation: when the lines [doc1] do
    not end inside an open block, the blocks of [doc1 ++ doc2] are those of
    [doc1] followed by those of [doc2] with their line numbers moved down by
    the length of [doc1] (documents of fewer than 2^63 lines). *)
Theorem X4_extraction_of_concatenation (doc1 doc2 : list string)
    (bs1 bs2 : list MermaidBlock) :
  Z.of_nat (length (doc1 ++ doc2)) < 2 ^ 63 ->
  current (fold_left extractStep doc1 extractInit) = None ->
  ExtractMermaidBlocks (mkScanner doc1 None) = inl bs1 ->
  ExtractMermaidBlocks (mkScanner doc2 None) = inl bs2 ->
  ExtractMermaidBlocks (mkScanner (doc1 ++ doc2) None)
  = inl (bs1 ++ map (shiftBlock (Z.of_nat (length doc1))) bs2).
Proof. apply extract_concat. Qed.

Lemma X4_extraction_of_concatenation_witness :
  ExtractMermaidBlocks
    (mkScanner (["```mermaid"; "graph TD"; "```"; "text"] ++ ["intro"; "~~~mermaid"; "pie"; "~~~"])
       None)
  = inl ([mkBlock "graph TD" 1 3] ++ map (shiftBlock 4) [mkBlock "pie" 2 4]).
Proof.
  apply (X4_extraction_of_concatenation
           ["```mermaid"; "graph TD"; "```"; "text"] ["intro"; "~~~mermaid"; "pie"; "~~~"]).
  - vm_compute. reflexivity.
  - vm_compute. reflexivity.
  - vm_compute. reflexivity.
  - vm_compute. reflexivity.
Defined.

(** ** The declaration of a diagram *)

Section Declaration.

Lemma flush_nonempty (cur : string) : Forall (fun w => w <> "") (flush cur).
Proof. destruct cur; repeat constructor. done. Qed.

Lemma fieldsFrom_nonempty (s : string) :
  forall skip cur, Forall (fun w => w <> "") (fieldsFrom skip cur s).
Proof.
  induction s as [|c s IH]; intros skip cur; cbn [fieldsFrom].
  - apply flush_nonempty.
  - destruct skip as [|k]; [|apply IH].
    destruct (spaceWidth (String c s)); [apply IH|].
    apply Forall_app. split; [apply flush_nonempty|apply IH].
Qed.

Lemma Fields_nonempty (s keyword : string) (more : list string) :
  Fields s = keyword :: more -> keyword <> "".
Proof.
  intros H. pose proof (fieldsFrom_nonempty s 0 "") as Hall.
  unfold Fields in H. rewrite H in Hall. by apply Forall_cons in Hall as [? _].
Qed.

Lemma parseType_skip (d : Diagram) (pre rest : list string) :
  Forall (fun l => blankOrComment (TrimSpace l) = true) pre ->
  parseType d (pre ++ rest) = parseType d rest.
Proof.
  induction pre as [|l pre IH]; intros Hpre; [done|].
  apply Forall_cons in Hpre as [Hl Hpre].
  cbn [app parseType]. rewrite Hl. by apply IH.
Qed.

Lemma parseType_decl (d : Diagram) (l : string) (post : list string)
    (keyword : string) (more : list string) :
  blankOrComment (TrimSpace l) = false ->
  Fields (TrimSpace l) = keyword :: more ->
  parseType d (l :: post)
  = mkDiagram (typeOf keyword) keyword
      (match more with
       | second :: _ => if isFlow (typeOf keyword) then second else Direction d
       | [] => Direction d
       end)
      (Nodes d) (Edges d) (DLines d) (StartLine d).
Proof. intros Hl Hf. cbn [parseType]. by rewrite Hl, Hf. Qed.

(** [parseType] leaves the diagram alone, or records a keyword that is not
    empty, its type, and a direction only for a flowchart or a graph. *)
Lemma parseType_cases (lines : list string) (d : Diagram) :
  parseType d lines = d
  \/ exists keyword dir,
       keyword <> ""
       /\ (isFlow (typeOf keyword) = false -> dir = Direction d)
       /\ parseType d lines
          = mkDiagram (typeOf keyword) keyword dir (Nodes d) (Edges d) (DLines d) (StartLine d).
Proof.
  induction lines as [|l lines IH]; [by left|].
  cbn [parseType].
  destruct (blankOrComment (TrimSpace l)); [exact IH|].
  destruct (Fields (TrimSpace l)) as [|keyword more] eqn:Hf; [exact IH|].
  right.
  exists keyword,
    (match more with
     | second :: _ => if isFlow (typeOf keyword) then second else Direction d
     | [] => Direction d
     end).
  split; [by apply Fields_nonempty in Hf|]. split; [|reflexivity].
  intros Hflow. rewrite Hflow. by destruct more.
Qed.

Lemma parseFlowchart_header (d : Diagram) (lines : list string) :
  Type_ (parseFlowchart d lines) = Type_ d
  /\ TypeRaw (parseFlowchart d lines) = TypeRaw d
  /\ Direction (parseFlowchart d lines) = Direction d
  /\ StartLine (parseFlowchart d lines) = StartLine d.
Proof. done. Qed.

(** The header of a parse is the one [parseType] finds. *)
Lemma Parse_header (source : string) (startLine : Z) :
  let h := parseType (emptyDiagram (Split source LF) startLine) (Split source LF) in
  let d := Parse source startLine in
  Type_ d = Type_ h /\ TypeRaw d = TypeRaw h /\ Direction d = Direction h
  /\ StartLine d = startLine
  /\ (isFlow (Type_ h) = false -> d = h).
Proof.
  intros h d. subst d. unfold Parse. fold (emptyDiagram (Split source LF) startLine). fold h.
  destruct (parseType_Nodes (Split source LF) (emptyDiagram (Split source LF) startLine))
    as (_ & _ & Hs).
  fold h in Hs. cbn [emptyDiagram StartLine] in Hs.
  destruct (isFlow (Type_ h)); cbn [parseFlowchart Type_ TypeRaw Direction StartLine]; done.
Qed.

Lemma KnownDiagramTypes_lookup (k : string) (dt : DiagramType) :
  KnownDiagramTypes !! k = Some dt ->
  dt ∈ [DiagramFlowchart; DiagramGraph; DiagramSequence; DiagramClass; DiagramState;
        DiagramStateV2; DiagramER; DiagramGantt; DiagramPie; DiagramGitGraph;
        DiagramMindmap; DiagramTimeline; DiagramQuadrant; DiagramRequirement;
        DiagramC4Context; DiagramC4Container; DiagramC4Component; DiagramC4Dynamic;
        DiagramC4Deployment; DiagramSankey; DiagramBlock; DiagramXYChart].
Proof.
  intros H. apply elem_of_list_to_map_2 in H.
  apply (list_elem_of_fmap_2 snd) in H. exact H.
Qed.

Lemma KnownDiagramTypes_values (k : string) (dt : DiagramType) :
  KnownDiagramTypes !! k = Some dt -> dt <> DiagramUnknown /\ dt <> "".
Proof.
  intros H. apply KnownDiagramTypes_lookup in H.
  repeat (apply elem_of_cons in H as [->|H]; [by split|]). inversion H.
Qed.

(** On a diagram that is neither a flowchart nor a graph, the five rules
    about flowcharts return nothing. *)
Lemma lintDiagram_not_flow (cfg : Config) (d : Diagram) (filename : string) :
  isFlow (Type_ d) = false ->
  lintDiagram (New cfg) d filename = contribution cfg d filename NoUnknownDiagramType.
Proof.
  intros Hflow. rewrite lintDiagram_contributions. unfold AllRules. cbn [flat_map].
  assert (H : forall r, Check r d = [] -> contribution cfg d filename r = []).
  { intros r Hr. unfold contribution. rewrite Hr. by destruct (IsRuleEnabled _ _). }
  rewrite (H NoEmptyDiagram), (H ValidDirection), (H NoDuplicateNodeIDs),
    (H NodeHasLabel), (H NoOrphanNodes); [by rewrite !app_nil_r|..];
    cbn [Check NoEmptyDiagram ValidDirection NoDuplicateNodeIDs NodeHasLabel NoOrphanNodes];
    unfold NoOrphanNodes_Check, NodeHasLabel_Check, NoDuplicateNodeIDs_Check,
      ValidDirection_Check, NoEmptyDiagram_Check; by rewrite Hflow.
Qed.

End Declaration.

(** X5.  A source all of whose lines are blank or comments (the empty source
    among them) has no declaration: the parse keeps an empty type, raw type
    and direction and holds no node and no edge, and linting it yields the
    finding "no diagram type declaration found" of no-unknown-diagram-type,
    at the start line, and nothing else. *)
Theorem X5_source_without_declaration (source : string) (startLine : Z)
    (cfg : Config) (filename : string) :
  Forall (fun l => blankOrComment (TrimSpace l) = true) (Split source LF) ->
  let d := Parse source startLine in
  TypeRaw d = "" /\ Type_ d = "" /\ Direction d = "" /\ Nodes d = [] /\ Edges d = []
  /\ NoUnknownDiagramType_Check d = [noDeclarationFinding startLine]
  /\ lintDiagram (New cfg) d filename
     = if IsRuleEnabled cfg "no-unknown-diagram-type"
       then [mkFinding "no-unknown-diagram-type" (RuleSeverity cfg "no-unknown-diagram-type")
               (Text "no diagram type declaration found") filename startLine]
       else [].
Proof.
  intros Hblank d.
  assert (Hd : d = emptyDiagram (Split source LF) startLine).
  { destruct (Parse_header source startLine) as (_ & _ & _ & _ & Hnf).
    pose proof (parseType_skip (emptyDiagram (Split source LF) startLine)
                  (Split source LF) [] Hblank) as Hskip.
    rewrite app_nil_r in Hskip. cbn [parseType] in Hskip.
    rewrite Hskip in Hnf. by apply Hnf. }
  rewrite Hd. repeat (split; [reflexivity|]).
  rewrite lintDiagram_not_flow by reflexivity. reflexivity.
Qed.

(** A witness for X5: a comment, a blank line and a line of spaces. *)
Lemma X5_source_without_declaration_witness :
  lintDiagram (New DefaultConfig) (Parse ("%% only a comment" +:+ nl +:+ nl +:+ "   ") 7) "a.mmd"
  = [mkFinding "no-unknown-diagram-type" "error"
       (Text "no diagram type declaration found") "a.mmd" 7].
Proof.
  destruct (X5_source_without_declaration
              ("%% only a comment" +:+ nl +:+ nl +:+ "   ") 7 DefaultConfig "a.mmd")
    as (_ & _ & _ & _ & _ & _ & H).
  - vm_compute. repeat constructor.
  - rewrite H. reflexivity.
Defined.

(** X6.  The declaration of a diagram is its first line that is neither
    blank nor a comment; the lines after it play no part.  The raw type is
    the first word of that line as written, the type is the one registered
    for the word in lower case (unknown when there is none), and the
    direction is the second word as written, kept only for a flowchart or a
    graph. *)
Theorem X6_declaration_line (source : string) (startLine : Z)
    (pre post : list string) (l keyword : string) (more : list string) :
  Split source LF = pre ++ l :: post ->
  Forall (fun l => blankOrComment (TrimSpace l) = true) pre ->
  blankOrComment (TrimSpace l) = false ->
  Fields (TrimSpace l) = keyword :: more ->
  let d := Parse source startLine in
  TypeRaw d = keyword
  /\ Type_ d = typeOf keyword
  /\ Direction d = (if isFlow (typeOf keyword) then default "" (head more) else "").
Proof.
  intros Hsplit Hpre Hl Hf d.
  destruct (Parse_header source startLine) as (Hty & Hraw & Hdir & _).
  fold d in Hty, Hraw, Hdir. rewrite Hty, Hraw, Hdir, Hsplit.
  rewrite parseType_skip by done.
  rewrite (parseType_decl _ l post keyword more Hl Hf).
  cbn [Type_ TypeRaw Direction emptyDiagram].
  repeat split. destruct more; by destruct (isFlow _).
Qed.

(** A witness for X6: the keyword in upper case, after a comment. *)
Lemma X6_declaration_line_witness :
  let d := Parse ("%% c" +:+ nl +:+ "  GRAPH td extra" +:+ nl +:+ "pie") 1 in
  TypeRaw d = "GRAPH" /\ Type_ d = typeOf "GRAPH" /\ Direction d = "td".
Proof.
  apply (X6_declaration_line ("%% c" +:+ nl +:+ "  GRAPH td extra" +:+ nl +:+ "pie") 1
           ["%% c"] ["pie"] "  GRAPH td extra" "GRAPH" ["td"; "extra"]).
  - vm_compute. reflexivity.
  - repeat constructor.
  - vm_compute. reflexivity.
  - vm_compute. reflexivity.
Defined.

(** X7.  A diagram whose parsed type is neither flowchart nor graph (a
    sequence diagram, a pie, an unknown type, no type at all) has no node,
    no edge and no direction, and the only rule that can report on it is
    no-unknown-diagram-type: the result of linting it is that rule's
    contribution, at most one finding. *)
Theorem X7_only_flowcharts_are_parsed (source : string) (startLine : Z)
    (cfg : Config) (filename : string) :
  let d := Parse source startLine in
  isFlow (Type_ d) = false ->
  Nodes d = [] /\ Edges d = [] /\ Direction d = ""
  /\ lintDiagram (New cfg) d filename = contribution cfg d filename NoUnknownDiagramType
  /\ (length (lintDiagram (New cfg) d filename) <= 1)%nat.
Proof.
  intros d Hflow.
  destruct (Parse_header source startLine) as (Hty & _ & Hdir & _ & Hnf).
  fold d in Hty, Hdir, Hnf. rewrite Hty in Hflow.
  set (d0 := emptyDiagram (Split source LF) startLine) in *.
  destruct (parseType_Nodes (Split source LF) d0) as (Hn & He & _).
  rewrite (Hnf Hflow), Hn, He in *. clear Hnf.
  split; [done|]. split; [done|]. split.
  - destruct (parseType_cases (Split source LF) d0) as [->|(kw & dir & _ & Hd & Heq)]; [done|].
    rewrite Heq in Hflow |- *. cbn [Type_ Direction] in *. by rewrite Hd.
  - rewrite lintDiagram_not_flow by done. split; [done|].
    unfold contribution. destruct (IsRuleEnabled _ _); [|cbn; lia].
    rewrite length_map. cbn [Check NoUnknownDiagramType].
    unfold NoUnknownDiagramType_Check. repeat case_match; cbn; lia.
Qed.

(** A witness for X7: a sequence diagram whose lines look like edges. *)
Lemma X7_only_flowcharts_are_parsed_witness :
  lintDiagram (New DefaultConfig)
    (Parse ("sequenceDiagram LR" +:+ nl +:+ "  A --> B" +:+ nl +:+ "  C[x]") 1) "a.mmd" = [].
Proof.
  destruct (X7_only_flowcharts_are_parsed
              ("sequenceDiagram LR" +:+ nl +:+ "  A --> B" +:+ nl +:+ "  C[x]") 1
              DefaultConfig "a.mmd") as (_ & _ & _ & H & _).
  - vm_compute. reflexivity.
  - rewrite H. vm_compute. reflexivity.
Defined.

(** X8.  Whatever the source, the raw type of its parse is empty exactly
    when its type is the zero value; otherwise the type is the one
    registered for the raw type in lower case, or unknown when none is.  So
    the rule no-unknown-diagram-type is silent on a parsed source exactly
    when the first word of its declaration is, up to case, a registered type
    name. *)
Theorem X8_declared_type (source : string) (startLine : Z) :
  let d := Parse source startLine in
  (TypeRaw d = "" <-> Type_ d = "")
  /\ (TypeRaw d <> "" -> Type_ d = typeOf (TypeRaw d))
  /\ (NoUnknownDiagramType_Check d = []
      <-> KnownDiagramTypes !! ToLower (TypeRaw d) = Some (Type_ d)).
Proof.
  intros d.
  destruct (Parse_header source startLine) as (Hty & Hraw & _).
  fold d in Hty, Hraw. unfold NoUnknownDiagramType_Check. rewrite Hty, Hraw.
  set (d0 := emptyDiagram (Split source LF) startLine).
  destruct (parseType_cases (Split source LF) d0) as [->|(kw & dir & Hkw & _ & ->)].
  - cbn. repeat split; done.
  - cbn [Type_ TypeRaw]. apply eqb_str_false in Hkw as Hkw'. rewrite Hkw'. cbn [negb].
    rewrite andb_true_r. unfold typeOf.
    destruct (KnownDiagramTypes !! ToLower kw) as [dt|] eqn:Hk; cbn [from_option id].
    + apply KnownDiagramTypes_values in Hk as [Hu He].
      apply eqb_str_false in Hu as Hu'. rewrite Hu'.
      repeat split; done.
    + rewrite eqb_str_refl. repeat split; done.
Qed.

(** ** The loop of the flowchart parser *)

Section FlowLoop.

Lemma flowLine_preserves (P : flowState -> Prop) (startLine : Z) (i : nat) (line : string)
    (st : flowState) :
  ((i <> 0)%nat -> forall st m,
      m ∈ FindAllStringSubmatch edgePattern (TrimSpace line) ->
      P st -> P (edgeStep (int_add startLine (Z.of_nat i)) st m)) ->
  ((i <> 0)%nat -> forall st m,
      m ∈ FindAllStringSubmatch nodeDefPattern (TrimSpace line) ->
      P st -> P (nodeStep (int_add startLine (Z.of_nat i)) st m)) ->
  P st -> P (flowLine startLine i line st).
Proof.
  intros Hedge Hnode Hst. unfold flowLine.
  destruct (blankOrComment _); [done|].
  destruct (Nat.eqb i 0) eqn:Hi; [done|]. apply Nat.eqb_neq in Hi. cbn [orb].
  destruct (isDeclarationLine _); [done|].
  destruct (isDirective _); [done|].
  apply fold_left_preserves_elem; [intros; by apply Hnode|].
  apply fold_left_preserves_elem; [intros; by apply Hedge|done].
Qed.

Lemma flowLoop_preserves (P : flowState -> Prop) (startLine : Z) (count : nat)
    (lines : list string) :
  (forall j line st, (j < count)%nat -> P st -> P (flowLine startLine j line st)) ->
  forall i st, (i + length lines <= count)%nat -> P st -> P (flowLoop startLine i lines st).
Proof.
  intros Hline. induction lines as [|line rest IH]; intros i st Hi Hst; [done|].
  cbn [flowLoop length] in *. apply IH; [lia|]. apply Hline; [lia|done].
Qed.

(** The nodes and the edges of a parse are those of the state the loop of
    [parseFlowchart] ends in, or there are none. *)
Lemma Parse_state (source : string) (startLine : Z) :
  exists st,
    Nodes (Parse source startLine) = nodes st
    /\ Edges (Parse source startLine) = edges st
    /\ (st = mkFlow ∅ [] []
        \/ isFlow (Type_ (Parse source startLine)) = true
           /\ st = flowLoop startLine 0 (Split source LF) (mkFlow ∅ [] [])).
Proof.
  destruct (Parse_header source startLine) as (Hty & _).
  revert Hty. unfold Parse. fold (emptyDiagram (Split source LF) startLine).
  set (d0 := emptyDiagram (Split source LF) startLine).
  destruct (parseType_Nodes (Split source LF) d0) as (Hn & He & Hs).
  destruct (isFlow (Type_ (parseType d0 (Split source LF)))) eqn:Hflow; intros Hty.
  - exists (flowLoop startLine 0 (Split source LF) (mkFlow ∅ [] [])).
    unfold parseFlowchart. cbn [Nodes Edges]. rewrite Hn, He, Hs.
    split; [done|]. split; [done|]. right. split; [|done].
    cbn [Type_]. done.
  - exists (mkFlow ∅ [] []). rewrite Hn, He. split; [done|]. split; [done|]. by left.
Qed.

Lemma Parse_preserves (P : flowState -> Prop) (source : string) (startLine : Z) :
  P (mkFlow ∅ [] []) ->
  (forall j line st, (j < length (Split source LF))%nat ->
      P st -> P (flowLine startLine j line st)) ->
  exists st,
    Nodes (Parse source startLine) = nodes st
    /\ Edges (Parse source startLine) = edges st /\ P st.
Proof.
  intros Hinit Hline.
  destruct (Parse_state source startLine) as (st & Hn & He & [->|[_ ->]]).
  - by exists (mkFlow ∅ [] []).
  - eexists. split; [exact Hn|]. split; [exact He|].
    apply (flowLoop_preserves P startLine (length (Split source LF))); [done|cbn; lia|done].
Qed.

End FlowLoop.

(** ** The ends of the edges *)

Section Endpoints.

Lemma register_seen (lineNum : Z) (id : string) (st : flowState) (x : string) :
  lookupBool (seenNodes st) x = true ->
  lookupBool (seenNodes (register lineNum id st)) x = true.
Proof.
  intros Hx. unfold register. destruct (negb _); [|done].
  cbn [seenNodes]. rewrite lookupBool_insert. by destruct (decide _).
Qed.

Lemma register_self (lineNum : Z) (id : string) (st : flowState) :
  lookupBool (seenNodes (register lineNum id st)) id = true.
Proof.
  unfold register. destruct (lookupBool (seenNodes st) id) eqn:E; cbn [negb]; [done|].
  cbn [seenNodes]. rewrite lookupBool_insert. by destruct (decide _).
Qed.

Lemma register_edges (lineNum : Z) (id : string) (st : flowState) :
  edges (register lineNum id st) = edges st.
Proof. unfold register. by destruct (negb _). Qed.

Lemma edgeStep_endpoints (lineNum : Z) (st : flowState) (m : submatches) :
  endpointsInv st -> endpointsInv (edgeStep lineNum st m).
Proof.
  intros Hinv. unfold endpointsInv, edgeStep. rewrite !register_edges. cbn [edges].
  apply Forall_app. split.
  - eapply Forall_impl; [exact Hinv|]. intros e [Hf Ht].
    split; by apply register_seen, register_seen.
  - apply Forall_singleton. cbn [From To]. split.
    + apply register_seen, register_self.
    + apply register_self.
Qed.

Lemma nodeStep_endpoints (lineNum : Z) (st : flowState) (m : submatches) :
  endpointsInv st -> endpointsInv (nodeStep lineNum st m).
Proof.
  intros Hinv. unfold nodeStep.
  destruct (eqb_str (group m 1) ""); [done|].
  destruct (labelShape m) as [label shape].
  destruct (negb (lookupBool (seenNodes st) (group m 1))).
  - unfold endpointsInv. cbn [seenNodes edges].
    eapply Forall_impl; [exact Hinv|]. intros e [Hf Ht].
    rewrite !lookupBool_insert. split; by destruct (decide _).
  - by destruct (negb (eqb_str label "")).
Qed.

Lemma flowLine_endpoints (startLine : Z) (i : nat) (line : string) (st : flowState) :
  flowInv st /\ endpointsInv st ->
  flowInv (flowLine startLine i line st) /\ endpointsInv (flowLine startLine i line st).
Proof.
  intros [Hflow Hends]. split; [by apply flowLine_inv|].
  apply flowLine_preserves; [| |done].
  - intros _ st' m _. apply edgeStep_endpoints.
  - intros _ st' m _. apply nodeStep_endpoints.
Qed.

End Endpoints.

(** X9.  In the diagram parsed from any source, both ends of every edge are
    nodes of the diagram: an edge never refers to an id that is missing from
    the node list. *)
Theorem X9_edge_ends_are_nodes (source : string) (startLine : Z) (e : Edge) :
  let d := Parse source startLine in
  e ∈ Edges d -> From e ∈ map NodeID (Nodes d) /\ To e ∈ map NodeID (Nodes d).
Proof.
  intros d He. subst d.
  destruct (Parse_preserves (fun st => flowInv st /\ endpointsInv st) source startLine)
    as (st & Hn & Hed & [_ Hseen] & Hends).
  - split; [apply flowInv_init|constructor].
  - intros j line st _. apply flowLine_endpoints.
  - rewrite Hn. rewrite Hed in He. unfold endpointsInv in Hends.
    rewrite list.Forall_forall in Hends. destruct (Hends e He) as [Hf Ht].
    split; by apply Hseen.
Qed.

Lemma X9_edge_ends_are_nodes_witness :
  let d := Parse ("graph TD" +:+ nl +:+ "A --> B" +:+ nl +:+ "B -->|x| C") 1 in
  "B" ∈ map NodeID (Nodes d) /\ "C" ∈ map NodeID (Nodes d).
Proof.
  apply (X9_edge_ends_are_nodes ("graph TD" +:+ nl +:+ "A --> B" +:+ nl +:+ "B -->|x| C") 1
           (mkEdge "B" "C" "x" 3 "-->")).
  vm_compute. apply list_elem_of_further, list_elem_of_here.
Defined.

(** ** The lines of the nodes, of the edges and of the findings *)

Section LineNumbers.

Lemma register_lines (Q : Z -> Prop) (lineNum : Z) (id : string) (st : flowState) :
  Q lineNum -> linesInv Q st -> linesInv Q (register lineNum id st).
Proof.
  intros HQ [Hn He]. unfold register. destruct (negb _); [|done].
  split; cbn [nodes edges]; [|done].
  apply Forall_app. split; [done|]. by apply Forall_singleton.
Qed.

Lemma edgeStep_lines (Q : Z -> Prop) (lineNum : Z) (st : flowState) (m : submatches) :
  Q lineNum -> linesInv Q st -> linesInv Q (edgeStep lineNum st m).
Proof.
  intros HQ [Hn He]. unfold edgeStep. apply register_lines, register_lines; try done.
  split; cbn [nodes edges]; [done|].
  apply Forall_app. split; [done|]. by apply Forall_singleton.
Qed.

Lemma backfill_lines (Q : Z -> Prop) (id label shape : string) (ns : list Node) :
  Forall (fun n => Q (NodeLine n)) ns ->
  Forall (fun n => Q (NodeLine n)) (backfill id label shape ns).
Proof.
  induction ns as [|n ns IH]; intros Hns; cbn [backfill]; [done|].
  apply Forall_cons in Hns as [Hn Hns].
  destruct (_ && _); apply Forall_cons; split; try done. by apply IH.
Qed.

Lemma nodeStep_lines (Q : Z -> Prop) (lineNum : Z) (st : flowState) (m : submatches) :
  Q lineNum -> linesInv Q st -> linesInv Q (nodeStep lineNum st m).
Proof.
  intros HQ [Hn He]. unfold nodeStep.
  destruct (eqb_str (group m 1) ""); [done|].
  destruct (labelShape m) as [label shape].
  destruct (negb (lookupBool (seenNodes st) (group m 1))).
  - split; cbn [nodes edges]; [|done].
    apply Forall_app. split; [done|]. by apply Forall_singleton.
  - destruct (negb (eqb_str label "")); [|done].
    split; cbn [nodes edges]; [|done]. by apply backfill_lines.
Qed.

Lemma flowLine_lines (startLine : Z) (count : nat) (i : nat) (line : string)
    (st : flowState) :
  (i < count)%nat ->
  linesInv (bodyLine startLine count) st ->
  linesInv (bodyLine startLine count) (flowLine startLine i line st).
Proof.
  intros Hi. apply flowLine_preserves.
  - intros H0 st' m _. apply edgeStep_lines. exists i. split; [lia|done].
  - intros H0 st' m _. apply nodeStep_lines. exists i. split; [lia|done].
Qed.

Lemma Parse_lines (source : string) (startLine : Z) :
  linesInv (bodyLine startLine (length (Split source LF)))
    (mkFlow ∅ (Nodes (Parse source startLine)) (Edges (Parse source startLine))).
Proof.
  destruct (Parse_preserves (linesInv (bodyLine startLine (length (Split source LF))))
              source startLine) as (st & -> & -> & H).
  - split; constructor.
  - intros j line st Hj. by apply flowLine_lines.
  - exact H.
Qed.

Lemma bodyLine_range (startLine : Z) (count : nat) (z : Z) :
  - 2 ^ 63 <= startLine -> startLine + Z.of_nat count <= 2 ^ 63 ->
  bodyLine startLine count z -> startLine < z < startLine + Z.of_nat count.
Proof.
  intros Hlo Hhi (j & Hj & ->). unfold int_add. rewrite wrap64_small; lia.
Qed.

(** The findings of a registered rule are located at the start line of the
    diagram or at the line of one of its nodes. *)
Lemma Check_lines (r : LintRule) (d : Diagram) :
  r ∈ AllRules -> Forall (fun f => lineOf d (Line f)) (Check r d).
Proof.
  assert (Hnode : forall n, n ∈ Nodes d -> lineOf d (NodeLine n)).
  { intros n Hn. right. by apply (list_elem_of_fmap_2 NodeLine). }
  unfold AllRules. rewrite !elem_of_cons.
  intros [->|[->|[->|[->|[->|[->|H]]]]]]; [..|inversion H];
    unfold NoUnknownDiagramType, NoEmptyDiagram, ValidDirection, NoDuplicateNodeIDs,
      NodeHasLabel, NoOrphanNodes; cbn [Check Name].
  - unfold NoUnknownDiagramType_Check. repeat case_match; repeat constructor.
  - unfold NoEmptyDiagram_Check. repeat case_match; repeat constructor.
  - unfold ValidDirection_Check. repeat case_match; repeat constructor.
  - unfold NoDuplicateNodeIDs_Check.
    destruct (negb _); [constructor|].
    apply (fold_left_preserves_elem
             (fun acc : gmap string Z * list Finding =>
                Forall (fun f => lineOf d (Line f)) acc.2)); [|constructor].
    intros [seen fs] n Hn Hacc. unfold dupStep.
    destruct (seen !! NodeID n); [|done].
    cbn [snd] in *. apply Forall_app. split; [done|].
    apply Forall_singleton. by apply Hnode.
  - unfold NodeHasLabel_Check.
    destruct (negb _); [constructor|].
    apply fold_left_preserves_elem; [|constructor].
    intros acc n Hn Hacc. unfold labelStep. destruct (eqb_str _ _); [|done].
    apply Forall_app. split; [done|]. apply Forall_singleton. by apply Hnode.
  - unfold NoOrphanNodes_Check.
    destruct (negb _); [constructor|].
    destruct (Nat.eqb _ _); [constructor|].
    apply fold_left_preserves_elem; [|constructor].
    intros acc n Hn Hacc. unfold orphanStep. destruct (negb _); [|done].
    apply Forall_app. split; [done|]. apply Forall_singleton. by apply Hnode.
Qed.

Lemma lintDiagram_lines (cfg : Config) (d : Diagram) (filename : string) (f : Finding) :
  f ∈ lintDiagram (New cfg) d filename -> lineOf d (Line f).
Proof.
  rewrite lintDiagram_contributions. intros Hf.
  apply list_elem_of_In, in_flat_map in Hf as (r & Hr & Hf).
  apply list_elem_of_In in Hr. unfold contribution in Hf.
  destruct (IsRuleEnabled cfg (Name r)); [|inversion Hf].
  apply in_map_iff in Hf as (g & <- & Hg). apply list_elem_of_In in Hg.
  pose proof (Check_lines r d Hr) as Hall. rewrite list.Forall_forall in Hall.
  exact (Hall g Hg).
Qed.

(** [strings.Split] yields at least one piece. *)
Lemma Split_length (s : string) (sep : ascii) : (0 < length (Split s sep))%nat.
Proof.
  unfold Split. generalize "". induction s as [|c s IH]; intros cur; cbn [splitFrom].
  - cbn [length]. lia.
  - destruct (Ascii.eqb c sep); [cbn [length]; lia|apply IH].
Qed.

(** The findings of a parsed source are located within the source. *)
Lemma lintDiagram_Parse_range (cfg : Config) (source : string) (startLine : Z)
    (filename : string) (f : Finding) :
  - 2 ^ 63 <= startLine ->
  startLine + Z.of_nat (length (Split source LF)) <= 2 ^ 63 ->
  f ∈ lintDiagram (New cfg) (Parse source startLine) filename ->
  startLine <= Line f < startLine + Z.of_nat (length (Split source LF)).
Proof.
  intros Hlo Hhi Hf. apply lintDiagram_lines in Hf as [Hf|Hf].
  - destruct (Parse_header source startLine) as (_ & _ & _ & Hs & _).
    rewrite Hf, Hs.
    pose proof (Split_length source LF). lia.
  - destruct (Parse_lines source startLine) as [Hn _]. cbn [nodes] in Hn.
    apply list_elem_of_fmap_1 in Hf as (n & -> & Hin).
    rewrite list.Forall_forall in Hn.
    pose proof (bodyLine_range _ _ _ Hlo Hhi (Hn n Hin)). lia.
Qed.

End LineNumbers.

(** X10.  When the line numbers do not overflow (the start line plus the
    number of lines of the source is at most 2^63), every node and every
    edge of a parse is located on a line of the source after the first one:
    strictly after the start line and before the start line plus the number
    of lines. *)
Theorem X10_lines_within_source (source : string) (startLine : Z) :
  - 2 ^ 63 <= startLine ->
  startLine + Z.of_nat (length (Split source LF)) <= 2 ^ 63 ->
  let d := Parse source startLine in
  let count := Z.of_nat (length (Split source LF)) in
  Forall (fun n => startLine < NodeLine n < startLine + count) (Nodes d)
  /\ Forall (fun e => startLine < EdgeLine e < startLine + count) (Edges d).
Proof.
  intros Hlo Hhi d count. destruct (Parse_lines source startLine) as [Hn He].
  cbn [nodes edges] in Hn, He. split.
  - eapply Forall_impl; [exact Hn|]. intros n. by apply bodyLine_range.
  - eapply Forall_impl; [exact He|]. intros e. by apply bodyLine_range.
Qed.

Lemma X10_lines_within_source_witness :
  Forall (fun n => 10 < NodeLine n < 10 + 3)
    (Nodes (Parse ("flowchart LR" +:+ nl +:+ "A --> B" +:+ nl +:+ "C[c]") 10)).
Proof.
  apply (X10_lines_within_source ("flowchart LR" +:+ nl +:+ "A --> B" +:+ nl +:+ "C[c]") 10).
  - vm_compute. discriminate.
  - vm_compute. discriminate.
Defined.

(** X11.  Under the same condition, every finding that linting a source
    yields, whatever the configuration, is located within the source: at the
    start line or later, and before the start line plus the number of
    lines. *)
Theorem X11_findings_within_source (cfg : Config) (source : string) (startLine : Z)
    (filename : string) (f : Finding) :
  - 2 ^ 63 <= startLine ->
  startLine + Z.of_nat (length (Split source LF)) <= 2 ^ 63 ->
  f ∈ lintDiagram (New cfg) (Parse source startLine) filename ->
  startLine <= Line f < startLine + Z.of_nat (length (Split source LF)).
Proof. apply lintDiagram_Parse_range. Qed.

Lemma X11_findings_within_source_witness :
  4 <= Line (mkFinding "node-has-label" "info"
               (Sprintf "node %q has no label" [Quoted "B"]) "a.md" 5) < 4 + 2.
Proof.
  apply (X11_findings_within_source DefaultConfig ("flowchart LR" +:+ nl +:+ "A[a] --> B") 4
           "a.md").
  - vm_compute. discriminate.
  - vm_compute. discriminate.
  - vm_compute. apply list_elem_of_here.
Defined.

(** ** A source of one line *)

Section OneLine.

Lemma append_cons (x : ascii) (a b : string) : String x a +:+ b = String x (a +:+ b).
Proof. reflexivity. Qed.

Lemma append_assoc (a b c : string) : (a +:+ b) +:+ c = a +:+ (b +:+ c).
Proof. induction a as [|x a IH]; [done|]. by rewrite !append_cons, IH. Qed.

Lemma append_nil_r (a : string) : a +:+ "" = a.
Proof. induction a as [|x a IH]; [done|]. by rewrite append_cons, IH. Qed.

Lemma splitFrom_no_sep (sep : ascii) (s : string) :
  hasChar sep s = false -> forall cur, splitFrom sep cur s = [cur +:+ s].
Proof.
  induction s as [|c s IH]; intros Hs cur; cbn [splitFrom].
  - by rewrite append_nil_r.
  - cbn [hasChar] in Hs. apply orb_false_iff in Hs as [Hc Hs].
    rewrite Hc, IH by done. by rewrite append_assoc.
Qed.

Lemma flowLine_first (startLine : Z) (line : string) (st : flowState) :
  flowLine startLine 0 line st = st.
Proof. unfold flowLine. destruct (blankOrComment _); [done|]. done. Qed.

End OneLine.

(** X12.  The first line of a source is never scanned for nodes or edges.
    So a source without a line feed parses to a diagram without nodes and
    without edges, whatever follows the declaration on its line, and if it
    declares a flowchart or a graph the rule no-empty-diagram reports it. *)
Theorem X12_one_line_source (source : string) (startLine : Z) :
  hasChar LF source = false ->
  let d := Parse source startLine in
  Nodes d = [] /\ Edges d = []
  /\ (isFlow (Type_ d) = true -> NoEmptyDiagram_Check d = [emptyDiagramFinding startLine]).
Proof.
  intros Hs d.
  assert (Hne : Nodes d = [] /\ Edges d = []).
  { subst d. destruct (Parse_state source startLine) as (st & -> & -> & [->|[_ ->]]); [done|].
    unfold Split. rewrite splitFrom_no_sep by done. cbn [flowLoop].
    by rewrite flowLine_first. }
  destruct Hne as [Hn He]. split; [done|]. split; [done|].
  intros Hflow. unfold NoEmptyDiagram_Check. rewrite Hflow, Hn, He. cbn.
  destruct (Parse_header source startLine) as (_ & _ & _ & Hstart & _).
  fold d in Hstart. by rewrite Hstart.
Qed.

Lemma X12_one_line_source_witness :
  NoEmptyDiagram_Check (Parse "graph TD; A-->B; B-->C" 1) = [emptyDiagramFinding 1].
Proof.
  destruct (X12_one_line_source "graph TD; A-->B; B-->C" 1) as (_ & _ & H).
  - reflexivity.
  - apply H. reflexivity.
Defined.

(** ** Identifiers *)

Section Identifiers.

(** A repetition takes a prefix of the text, all in its class. *)
Lemma runStar_consumes (p : ascii -> bool) (k : cont) (s : string) :
  forall pos caps res,
    runStar p pos s caps k = Some res ->
    exists w s', s = w +:+ s' /\ allChars p w = true
                 /\ k (pos + String.length w)%nat s' caps = Some res.
Proof.
  induction s as [|c s IH]; intros pos caps res; cbn [runStar].
  - intros H. exists "", "". rewrite Nat.add_0_r. done.
  - assert (Hstop : k pos (String c s) caps = Some res ->
              exists w s', String c s = w +:+ s' /\ allChars p w = true
                           /\ k (pos + String.length w)%nat s' caps = Some res).
    { intros H. exists "", (String c s). rewrite Nat.add_0_r. done. }
    destruct (p c) eqn:Hc; [|done].
    destruct (runStar p (S pos) s caps k) as [m|] eqn:E; [|done].
    intros [= <-]. apply IH in E as (w & s' & -> & Hw & Hk).
    exists (String c w), s'. cbn [String.length allChars]. rewrite Hc, Hw.
    split; [done|]. split; [done|]. by rewrite Nat.add_succ_r.
Qed.

Lemma substring_prefix (w s : string) : String.substring 0 (String.length w) (w +:+ s) = w.
Proof.
  induction w as [|c w IH].
  - by destruct s.
  - rewrite append_cons. cbn [String.length String.substring]. by rewrite IH.
Qed.

(** The group [n] of an identifier holds an identifier. *)
Lemma run_identGroup (n : nat) (pos : nat) (s : string) (caps : submatches) (k : cont)
    (res : nat * submatches) :
  run (identGroup n) pos s caps k = Some res ->
  exists w pos' s', isIdent w = true /\ k pos' s' (<[n := w]> caps) = Some res.
Proof.
  unfold identGroup. cbn [run].
  destruct s as [|c s]; [done|]. destruct (identStart c) eqn:Hc; [|done].
  intros H. apply runStar_consumes in H as (w & s' & -> & Hw & Hk).
  exists (String c w), (S pos + String.length w)%nat, s'.
  split; [cbn [isIdent]; by rewrite Hc, Hw|].
  replace (S pos + String.length w - pos)%nat with (S (String.length w)) in Hk by lia.
  cbn [String.substring] in Hk. by rewrite substring_prefix in Hk.
Qed.

Lemma run_Cat_assoc (r1 r2 r3 : regex) (pos : nat) (s : string) (caps : submatches)
    (k : cont) :
  run (r1 · r2 · r3) pos s caps k = run (r1 · (r2 · r3)) pos s caps k.
Proof. reflexivity. Qed.

(** What a match records for the groups. *)
Lemma matchAt_groups (re : Regexp) (pos : nat) (s : string) (len : nat) (m : submatches)
    (pos' : nat) (caps' : submatches) :
  Some ((pos' - pos)%nat, <[0%nat := String.substring 0 (pos' - pos) s]> caps') = Some (len, m) ->
  forall j, j <> 0%nat -> m !! j = caps' !! j.
Proof. intros [= _ <-] j Hj. by apply list_lookup_insert_ne. Qed.

Lemma group_insert_eq (caps : submatches) (n : nat) (w : string) :
  (n < length caps)%nat -> group (<[n := w]> caps) n = w.
Proof.
  intros Hn. unfold group.
  assert (H : (<[n := w]> caps) !! n = Some w) by (by apply list_lookup_insert_eq).
  by rewrite H.
Qed.

Lemma edgePattern_idents (pos : nat) (s : string) (len : nat) (m : submatches) :
  matchAt edgePattern pos s = Some (len, m) ->
  isIdent (group m 1) = true /\ isIdent (group m 4) = true.
Proof.
  unfold matchAt, edgePattern. cbn [expr numCap]. fold (identGroup 1) (identGroup 4).
  set (k := fun (pos' : nat) (_ : string) (caps' : submatches) =>
              Some ((pos' - pos)%nat, <[0%nat := String.substring 0 (pos' - pos) s]> caps')).
  intros H. split.
  - rewrite !run_Cat_assoc, run_Cat in H.
    apply run_identGroup in H as (w & pos1 & s1 & Hw & H).
    apply run_frame in H as (pos2 & s2 & caps2 & H & _ & Hf).
    assert (Hg : group m 1 = w); [|by rewrite Hg].
    unfold group. rewrite (matchAt_groups edgePattern pos s len m pos2 caps2 H) by done.
    rewrite Hf.
    + apply (group_insert_eq (replicate 5 "") 1 w). cbn. lia.
    + cbn. intros Hin. repeat (apply elem_of_cons in Hin as [?|Hin]; [done|]). inversion Hin.
  - rewrite run_Cat in H.
    apply run_frame in H as (pos1 & s1 & caps1 & H & Hlen & _).
    apply run_identGroup in H as (w & pos2 & s2 & Hw & H).
    assert (Hg : group m 4 = w); [|by rewrite Hg].
    unfold group. rewrite (matchAt_groups edgePattern pos s len m pos2 _ H) by done.
    apply (group_insert_eq caps1 4 w). rewrite Hlen. cbn. lia.
Qed.

Lemma nodeDefPattern_ident (pos : nat) (s : string) (len : nat) (m : submatches) :
  matchAt nodeDefPattern pos s = Some (len, m) -> isIdent (group m 1) = true.
Proof.
  unfold matchAt, nodeDefPattern. cbn [expr numCap]. fold (identGroup 1).
  set (k := fun (pos' : nat) (_ : string) (caps' : submatches) =>
              Some ((pos' - pos)%nat, <[0%nat := String.substring 0 (pos' - pos) s]> caps')).
  intros H. rewrite run_Cat_assoc, run_Cat in H.
  apply run_frame in H as (pos1 & s1 & caps1 & H & Hlen & _).
  rewrite run_Cat in H.
  apply run_identGroup in H as (w & pos2 & s2 & Hw & H).
  apply run_frame in H as (pos3 & s3 & caps3 & H & _ & Hf).
  assert (Hg : group m 1 = w); [|by rewrite Hg].
  unfold group. rewrite (matchAt_groups nodeDefPattern pos s len m pos3 caps3 H) by done.
  rewrite Hf.
  - apply (group_insert_eq caps1 1 w). rewrite Hlen. cbn. lia.
  - cbn. intros Hin. repeat (apply elem_of_cons in Hin as [?|Hin]; [done|]). inversion Hin.
Qed.

Lemma register_idents (lineNum : Z) (id : string) (st : flowState) :
  isIdent id = true -> identInv st -> identInv (register lineNum id st).
Proof.
  intros Hid [Hn He]. unfold register. destruct (negb _); [|done].
  split; cbn [nodes edges]; [|done].
  apply Forall_app. split; [done|]. by apply Forall_singleton.
Qed.

Lemma backfill_idents (id label shape : string) (ns : list Node) :
  Forall (fun n => isIdent (NodeID n) = true) ns ->
  Forall (fun n => isIdent (NodeID n) = true) (backfill id label shape ns).
Proof.
  induction ns as [|n ns IH]; intros Hns; cbn [backfill]; [done|].
  apply Forall_cons in Hns as [Hn Hns].
  destruct (_ && _); apply Forall_cons; split; try done. by apply IH.
Qed.

Lemma flowLine_idents (startLine : Z) (i : nat) (line : string) (st : flowState) :
  identInv st -> identInv (flowLine startLine i line st).
Proof.
  apply flowLine_preserves.
  - intros _ st' m Hm [Hn He].
    apply findAllFrom_matchAt in Hm as (pos & s & len & Hm).
    apply edgePattern_idents in Hm as [H1 H4].
    unfold edgeStep. apply register_idents, register_idents; try done.
    split; cbn [nodes edges]; [done|].
    apply Forall_app. split; [done|]. by apply Forall_singleton.
  - intros _ st' m Hm [Hn He].
    apply findAllFrom_matchAt in Hm as (pos & s & len & Hm).
    apply nodeDefPattern_ident in Hm.
    unfold nodeStep. destruct (eqb_str (group m 1) ""); [done|].
    destruct (labelShape m) as [label shape].
    destruct (negb (lookupBool (seenNodes st') (group m 1))).
    + split; cbn [nodes edges]; [|done].
      apply Forall_app. split; [done|]. by apply Forall_singleton.
    + destruct (negb (eqb_str label "")); [|done].
      split; cbn [nodes edges]; [|done]. by apply backfill_idents.
Qed.

End Identifiers.

(** X13.  In the diagram parsed from any source, the id of every node and
    both ends of every edge are identifiers: a letter or an underscore
    followed by letters, digits and underscores.  In particular no node has
    an empty id. *)
Theorem X13_ids_are_identifiers (source : string) (startLine : Z) :
  let d := Parse source startLine in
  Forall (fun n => isIdent (NodeID n) = true /\ NodeID n <> "") (Nodes d)
  /\ Forall (fun e => isIdent (From e) = true /\ isIdent (To e) = true) (Edges d).
Proof.
  intros d. subst d.
  destruct (Parse_preserves identInv source startLine) as (st & -> & -> & Hn & He).
  - split; constructor.
  - intros j line st _. apply flowLine_idents.
  - split; [|done]. eapply Forall_impl; [exact Hn|].
    intros n H. cbv beta in H. split; [done|]. intros Hid. by rewrite Hid in H.
Qed.

(** ** Moving a diagram to another start line *)

Section Shift.

Lemma wrap64_add_l (a b : Z) : wrap64 (wrap64 a + b) = wrap64 (a + b).
Proof.
  unfold wrap64. f_equal.
  replace ((a + 2 ^ 63) mod 2 ^ 64 - 2 ^ 63 + b + 2 ^ 63)
    with ((a + 2 ^ 63) mod 2 ^ 64 + b) by lia.
  rewrite Z.add_mod_idemp_l by lia. f_equal. lia.
Qed.

Lemma int_add_shift (s delta i : Z) :
  int_add (int_add s delta) i = int_add (int_add s i) delta.
Proof. unfold int_add. rewrite !wrap64_add_l. f_equal. lia. Qed.

Lemma int_add_comm (a b : Z) : int_add a b = int_add b a.
Proof. unfold int_add. f_equal. lia. Qed.

Lemma fold_left_commute {A B : Type} (f f' : A -> B -> A) (g : A -> A) (l : list B) :
  (forall a b, f' (g a) b = g (f a b)) ->
  forall a, fold_left f' l (g a) = g (fold_left f l a).
Proof.
  intros H. induction l as [|b l IH]; intros a; cbn [fold_left]; [done|].
  by rewrite H, IH.
Qed.

Lemma register_shift (delta lineNum : Z) (id : string) (st : flowState) :
  register (int_add lineNum delta) id (shiftState delta st)
  = shiftState delta (register lineNum id st).
Proof.
  unfold register. cbn [shiftState seenNodes nodes edges].
  destruct (negb _); [|done].
  unfold shiftState. cbn [seenNodes nodes edges]. by rewrite map_app.
Qed.

Lemma edgeStep_shift (delta lineNum : Z) (st : flowState) (m : submatches) :
  edgeStep (int_add lineNum delta) (shiftState delta st) m
  = shiftState delta (edgeStep lineNum st m).
Proof.
  unfold edgeStep. rewrite <- !register_shift. do 2 f_equal.
  unfold shiftState. cbn [seenNodes nodes edges]. by rewrite map_app.
Qed.

Lemma backfill_shift (delta : Z) (id label shape : string) (ns : list Node) :
  backfill id label shape (map (shiftNode delta) ns)
  = map (shiftNode delta) (backfill id label shape ns).
Proof.
  induction ns as [|n ns IH]; cbn [map backfill]; [done|].
  cbn [shiftNode NodeID NodeLabel NodeLine].
  destruct (_ && _); cbn [map]; [done|]. by rewrite IH.
Qed.

Lemma nodeStep_shift (delta lineNum : Z) (st : flowState) (m : submatches) :
  nodeStep (int_add lineNum delta) (shiftState delta st) m
  = shiftState delta (nodeStep lineNum st m).
Proof.
  unfold nodeStep. destruct (eqb_str (group m 1) ""); [done|].
  destruct (labelShape m) as [label shape]. cbn [shiftState seenNodes nodes edges].
  destruct (negb (lookupBool (seenNodes st) (group m 1))).
  - unfold shiftState. cbn [seenNodes nodes edges]. by rewrite map_app.
  - destruct (negb (eqb_str label "")); [|done].
    unfold shiftState. cbn [seenNodes nodes edges]. by rewrite backfill_shift.
Qed.

Lemma flowLine_shift (delta startLine : Z) (i : nat) (line : string) (st : flowState) :
  flowLine (int_add startLine delta) i line (shiftState delta st)
  = shiftState delta (flowLine startLine i line st).
Proof.
  unfold flowLine. destruct (blankOrComment _); [done|].
  destruct (_ || _); [done|]. destruct (isDirective _); [done|].
  rewrite int_add_shift.
  rewrite (fold_left_commute (edgeStep (int_add startLine (Z.of_nat i))) _ (shiftState delta))
    by (intros; apply edgeStep_shift).
  by rewrite (fold_left_commute (nodeStep (int_add startLine (Z.of_nat i))) _ (shiftState delta))
    by (intros; apply nodeStep_shift).
Qed.

Lemma flowLoop_shift (delta startLine : Z) (lines : list string) :
  forall i st,
    flowLoop (int_add startLine delta) i lines (shiftState delta st)
    = shiftState delta (flowLoop startLine i lines st).
Proof.
  induction lines as [|line rest IH]; intros i st; cbn [flowLoop]; [done|].
  by rewrite flowLine_shift, IH.
Qed.

Lemma parseType_shift (delta : Z) (lines : list string) :
  forall d, parseType (shiftDiagram delta d) lines = shiftDiagram delta (parseType d lines).
Proof.
  induction lines as [|line rest IH]; intros d; cbn [parseType]; [done|].
  destruct (blankOrComment _); [apply IH|].
  destruct (Fields _) as [|keyword more]; [apply IH|]. done.
Qed.

Lemma Parse_shift (delta : Z) (source : string) (startLine : Z) :
  Parse source (int_add startLine delta) = shiftDiagram delta (Parse source startLine).
Proof.
  unfold Parse.
  change (mkDiagram "" "" "" [] [] (Split source LF) (int_add startLine delta))
    with (shiftDiagram delta (mkDiagram "" "" "" [] [] (Split source LF) startLine)).
  rewrite parseType_shift.
  set (h := parseType _ _). cbn [shiftDiagram Type_].
  destruct (isFlow (Type_ h)); [|done].
  unfold parseFlowchart. cbn [shiftDiagram Type_ TypeRaw Direction Nodes Edges DLines StartLine].
  change (mkFlow ∅ (map (shiftNode delta) (Nodes h)) (map (shiftEdge delta) (Edges h)))
    with (shiftState delta (mkFlow ∅ (Nodes h) (Edges h))).
  by rewrite flowLoop_shift.
Qed.

(** The checks on a diagram that was moved. *)
Lemma filter_map_commute {A : Type} (p : A -> bool) (g : A -> A) (l : list A) :
  (forall a, p (g a) = p a) -> List.filter p (map g l) = map g (List.filter p l).
Proof.
  intros H. induction l as [|a l IH]; cbn [map List.filter]; [done|].
  rewrite H. destruct (p a); cbn [map]; by rewrite IH.
Qed.

Lemma Check_shift (delta : Z) (r : LintRule) (d : Diagram) :
  r ∈ AllRules ->
  NoDup (map NodeID (Nodes d)) ->
  Check r (shiftDiagram delta d) = map (shiftFinding delta) (Check r d).
Proof.
  intros Hr Hnd.
  assert (Hnd' : NoDup (map NodeID (Nodes (shiftDiagram delta d)))).
  { cbn [shiftDiagram Nodes]. by rewrite map_map. }
  revert Hr. unfold AllRules. rewrite !elem_of_cons.
  intros [->|[->|[->|[->|[->|[->|H]]]]]]; [..|inversion H];
    unfold NoUnknownDiagramType, NoEmptyDiagram, ValidDirection, NoDuplicateNodeIDs,
      NodeHasLabel, NoOrphanNodes; cbn [Check Name].
  - unfold NoUnknownDiagramType_Check. cbn [shiftDiagram Type_ TypeRaw StartLine].
    by repeat case_match.
  - unfold NoEmptyDiagram_Check. cbn [shiftDiagram Type_ Nodes Edges StartLine].
    rewrite !length_map. by repeat case_match.
  - unfold ValidDirection_Check. cbn [shiftDiagram Type_ Direction StartLine].
    by repeat case_match.
  - by rewrite !NoDuplicateNodeIDs_Check_NoDup.
  - destruct (isFlow (Type_ d)) eqn:Hflow.
    + rewrite !NodeHasLabel_Check_flow by done. cbn [shiftDiagram Nodes].
      rewrite filter_map_commute by done. by rewrite !map_map.
    + unfold NodeHasLabel_Check. cbn [shiftDiagram Type_]. by rewrite Hflow.
  - unfold NoOrphanNodes_Check. cbn [shiftDiagram Type_ Nodes Edges].
    rewrite length_map.
    destruct (negb _); [done|]. destruct (Nat.eqb _ _); [done|].
    rewrite !orphanStep_fold. cbn [app].
    rewrite (filter_map_commute (isOrphan (map (shiftEdge delta) (Edges d)))).
    + rewrite !map_map. f_equal.
      apply filter_ext. intros n. unfold isOrphan. by rewrite !map_map.
    + done.
Qed.

Lemma lintDiagram_shift (delta : Z) (cfg : Config) (d : Diagram) (filename : string) :
  NoDup (map NodeID (Nodes d)) ->
  lintDiagram (New cfg) (shiftDiagram delta d) filename
  = map (shiftFinding delta) (lintDiagram (New cfg) d filename).
Proof.
  intros Hnd. rewrite !lintDiagram_contributions.
  assert (H : forall rules, Forall (fun r => r ∈ AllRules) rules ->
            flat_map (contribution cfg (shiftDiagram delta d) filename) rules
            = map (shiftFinding delta) (flat_map (contribution cfg d filename) rules)).
  { induction rules as [|r rules IH]; intros Hall; cbn [flat_map]; [done|].
    apply Forall_cons in Hall as [Hr Hall].
    rewrite map_app, IH by done. f_equal.
    unfold contribution. destruct (IsRuleEnabled cfg (Name r)); [|done].
    rewrite Check_shift by done. by rewrite !map_map. }
  apply H. rewrite list.Forall_forall. done.
Qed.

Lemma lintDiagram_Parse_shift (cfg : Config) (source : string) (startLine delta : Z)
    (filename : string) :
  lintDiagram (New cfg) (Parse source (int_add startLine delta)) filename
  = map (shiftFinding delta) (lintDiagram (New cfg) (Parse source startLine) filename).
Proof. rewrite Parse_shift. apply lintDiagram_shift, Parse_nodes_NoDup. Qed.

Lemma blockStep_fold (l : Linter) (filename : string) (bs : list MermaidBlock) :
  forall acc,
    fold_left (blockStep l filename) bs acc
    = acc ++ flat_map (fun b => lintDiagram l (Parse (BlockSource b) (int_add (BlockStartLine b) 1))
                                  filename) bs.
Proof.
  induction bs as [|b bs IH]; intros acc; cbn [fold_left flat_map].
  - by rewrite app_nil_r.
  - rewrite IH. unfold blockStep. by rewrite <- app_assoc.
Qed.

End Shift.

(** X14.  Parsing is independent of where the source starts, up to the line
    numbers: the parse of a source at start line s + delta is the parse at
    start line s with the start line, the line of every node and the line of
    every edge moved by delta.  Types, ids, labels, shapes, edge styles and
    the order of nodes and edges do not depend on the start line. *)
Theorem X14_parse_at_another_line (source : string) (startLine delta : Z) :
  Parse source (int_add startLine delta) = shiftDiagram delta (Parse source startLine).
Proof. apply Parse_shift. Qed.

(** X15.  Linting is independent of where the source starts, up to the line
    numbers: the findings for a source parsed at start line s + delta are
    the findings for it at start line s, in the same order, with the same
    rule, severity, message and file, each located delta lines further. *)
Theorem X15_findings_at_another_line (cfg : Config) (source : string)
    (startLine delta : Z) (filename : string) :
  lintDiagram (New cfg) (Parse source (int_add startLine delta)) filename
  = map (shiftFinding delta) (lintDiagram (New cfg) (Parse source startLine) filename).
Proof. apply lintDiagram_Parse_shift. Qed.

(** X16.  Linting a markdown document is linting each of its blocks on its
    own: when the extraction succeeds, the findings are, block after block,
    those that [LintSource] gives for the source of the block, each moved
    down by the line number of the block's opening fence; when the
    extraction fails, so does the linting, with the same error. *)
Theorem X16_markdown_is_blockwise (cfg : Config) (r : Scanner) (filename : string) :
  LintMarkdownReader (New cfg) r filename
  = match ExtractMermaidBlocks r with
    | inl bs =>
        inl (flat_map (fun b => map (shiftFinding (BlockStartLine b))
                                  (LintSource (New cfg) (BlockSource b) filename)) bs)
    | inr err => inr err
    end.
Proof.
  unfold LintMarkdownReader. destruct (ExtractMermaidBlocks r) as [bs|err]; [|done].
  rewrite blockStep_fold. cbn [app]. f_equal.
  apply flat_map_ext. intros b. unfold LintSource.
  rewrite (int_add_comm (BlockStartLine b) 1). apply lintDiagram_Parse_shift.
Qed.

(** ** The configuration, rule by rule *)

Section Configuration.

Lemma IsRuleEnabled_withRule (cfg : Config) (name : string) (rc : RuleConfig) (n : string) :
  IsRuleEnabled (withRule cfg name rc) n
  = if decide (name = n) then Enabled rc else IsRuleEnabled cfg n.
Proof.
  unfold IsRuleEnabled, withRule. cbn [CRules].
  destruct (decide (name = n)) as [->|Hne].
  - by rewrite lookup_insert_eq.
  - by rewrite lookup_insert_ne.
Qed.

Lemma RuleSeverity_withRule (cfg : Config) (name : string) (rc : RuleConfig) (n : string) :
  RuleSeverity (withRule cfg name rc) n
  = if decide (name = n) then RCSeverity rc else RuleSeverity cfg n.
Proof.
  unfold RuleSeverity, withRule. cbn [CRules].
  destruct (decide (name = n)) as [->|Hne].
  - by rewrite lookup_insert_eq.
  - by rewrite lookup_insert_ne.
Qed.

Lemma contribution_rule (cfg : Config) (d : Diagram) (filename : string) (r : LintRule) :
  r ∈ AllRules -> Forall (fun f => Rule f = Name r) (contribution cfg d filename r).
Proof.
  intros Hr. unfold contribution. destruct (IsRuleEnabled cfg (Name r)); [|constructor].
  apply Forall_map. eapply Forall_impl; [apply (Check_rule_name r d Hr)|]. done.
Qed.

Lemma contribution_other (cfg : Config) (name : string) (rc : RuleConfig) (d : Diagram)
    (filename : string) (r : LintRule) :
  Name r <> name ->
  contribution (withRule cfg name rc) d filename r = contribution cfg d filename r.
Proof.
  intros Hne. unfold contribution, stamped.
  rewrite IsRuleEnabled_withRule, RuleSeverity_withRule.
  destruct (decide (name = Name r)); [congruence|done].
Qed.

Lemma filter_flat_map {A B : Type} (p : B -> bool) (f : A -> list B) (l : list A) :
  List.filter p (flat_map f l) = flat_map (fun a => List.filter p (f a)) l.
Proof.
  induction l as [|a l IH]; cbn [flat_map]; [done|].
  by rewrite List.filter_app, IH.
Qed.

Lemma filter_all {A : Type} (p : A -> bool) (l : list A) :
  Forall (fun a => p a = true) l -> List.filter p l = l.
Proof.
  induction l as [|a l IH]; intros Hl; cbn [List.filter]; [done|].
  apply Forall_cons in Hl as [Ha Hl]. by rewrite Ha, IH.
Qed.

Lemma filter_none {A : Type} (p : A -> bool) (l : list A) :
  Forall (fun a => p a = false) l -> List.filter p l = [].
Proof.
  induction l as [|a l IH]; intros Hl; cbn [List.filter]; [done|].
  apply Forall_cons in Hl as [Ha Hl]. by rewrite Ha, IH.
Qed.

Lemma flat_map_ext_elem {A B : Type} (f g : A -> list B) (l : list A) :
  (forall a, a ∈ l -> f a = g a) -> flat_map f l = flat_map g l.
Proof.
  induction l as [|a l IH]; intros H; cbn [flat_map]; [done|].
  rewrite H by apply list_elem_of_here. rewrite IH; [done|].
  intros b Hb. apply H. by apply list_elem_of_further.
Qed.

Lemma map_ext_Forall {A B : Type} (f g : A -> B) (l : list A) :
  Forall (fun a => f a = g a) l -> map f l = map g l.
Proof.
  induction l as [|a l IH]; intros H; cbn [map]; [done|].
  apply Forall_cons in H as [Ha Hl]. by rewrite Ha, IH.
Qed.

Lemma map_flat_map {A B C : Type} (g : B -> C) (f : A -> list B) (l : list A) :
  map g (flat_map f l) = flat_map (fun a => map g (f a)) l.
Proof.
  induction l as [|a l IH]; cbn [flat_map map]; [done|].
  by rewrite map_app, IH.
Qed.

End Configuration.

(** X17.  Disabling a rule removes exactly its findings: with the entry of
    a rule set to disabled, the result of linting a diagram is the former
    result without the findings of that rule, the findings of the other
    rules being the same and in the same order. *)
Theorem X17_disabling_a_rule (cfg : Config) (name : string) (rc : RuleConfig)
    (d : Diagram) (filename : string) :
  Enabled rc = false ->
  lintDiagram (New (withRule cfg name rc)) d filename
  = List.filter (notOfRule name) (lintDiagram (New cfg) d filename).
Proof.
  intros Hoff. rewrite !lintDiagram_contributions, filter_flat_map.
  apply flat_map_ext_elem. intros r Hr.
  pose proof (contribution_rule cfg d filename r Hr) as Hrule.
  destruct (decide (Name r = name)) as [Heq|Hne].
  - rewrite filter_none.
    + unfold contribution. rewrite IsRuleEnabled_withRule, <- Heq.
      destruct (decide (Name r = Name r)); [by rewrite Hoff|done].
    + eapply Forall_impl; [exact Hrule|]. intros f Hf. unfold notOfRule.
      rewrite Hf, Heq. by rewrite eqb_str_refl.
  - rewrite contribution_other by done. rewrite filter_all; [done|].
    eapply Forall_impl; [exact Hrule|]. intros f Hf. unfold notOfRule.
    rewrite Hf. apply eqb_str_false in Hne. by rewrite Hne.
Qed.

(** A witness for X17: the test of the disabled rule node-has-label, on a
    diagram with an orphan. *)
Lemma X17_disabling_a_rule_witness :
  map Rule
    (lintDiagram (New (withRule DefaultConfig "node-has-label" (mkRuleConfig false "info")))
       (Parse ("flowchart LR" +:+ nl +:+ "  A --> B" +:+ nl +:+ "  C[Orphan]") 1) "test.mmd")
  = ["no-orphan-nodes"].
Proof.
  rewrite (X17_disabling_a_rule DefaultConfig "node-has-label" (mkRuleConfig false "info"));
    reflexivity.
Defined.

(** X18.  The severity configured for a rule touches nothing but the
    severity of that rule's findings: with the entry of an enabled rule
    replaced by an enabled entry of another severity, the result is the
    former result, finding by finding, the findings of that rule carrying
    the new severity. *)
Theorem X18_severity_of_a_rule (cfg : Config) (name : string) (severity : Severity)
    (d : Diagram) (filename : string) :
  IsRuleEnabled cfg name = true ->
  lintDiagram (New (withRule cfg name (mkRuleConfig true severity))) d filename
  = map (fun f => if eqb_str (Rule f) name then setSeverity severity f else f)
      (lintDiagram (New cfg) d filename).
Proof.
  intros Hon. rewrite !lintDiagram_contributions, map_flat_map.
  apply flat_map_ext_elem. intros r Hr.
  pose proof (contribution_rule cfg d filename r Hr) as Hrule.
  destruct (decide (Name r = name)) as [Heq|Hne].
  - revert Hrule. unfold contribution.
    rewrite IsRuleEnabled_withRule, <- Heq.
    destruct (decide (Name r = Name r)); [|done]. cbn [Enabled].
    rewrite <- Heq in Hon. rewrite Hon. intros _. rewrite map_map.
    apply map_ext_Forall.
    eapply Forall_impl; [apply (Check_rule_name r d Hr)|]. intros f Hf.
    unfold stamped. cbn [Rule]. rewrite Hf, eqb_str_refl.
    unfold setSeverity. cbn [Rule Message File Line].
    rewrite RuleSeverity_withRule. by destruct (decide (Name r = Name r)).
  - rewrite contribution_other by done. symmetry.
    rewrite <- (map_id (contribution cfg d filename r)) at 2.
    apply map_ext_Forall.
    eapply Forall_impl; [exact Hrule|]. intros f Hf.
    rewrite Hf. apply eqb_str_false in Hne. by rewrite Hne.
Qed.

Lemma X18_severity_of_a_rule_witness :
  map (fun f => (Rule f, FSeverity f))
    (lintDiagram (New (withRule DefaultConfig "no-empty-diagram" (mkRuleConfig true "error")))
       (Parse "flowchart LR" 1) "test.mmd")
  = [("no-empty-diagram", "error")].
Proof.
  rewrite (X18_severity_of_a_rule DefaultConfig "no-empty-diagram" "error"); reflexivity.
Defined.

(** X19.  The registry and the default configuration agree: the names of
    the registered rules are pairwise distinct, the default configuration
    has an entry for exactly those names, and every entry is enabled.  So
    under the default configuration the result of linting a diagram is the
    concatenation of the findings of all six checks, in the order of the
    registry. *)
Theorem X19_default_configuration :
  NoDup (map Name AllRules)
  /\ (forall name, is_Some (CRules DefaultConfig !! name) <-> name ∈ map Name AllRules)
  /\ (forall r, r ∈ AllRules -> IsRuleEnabled DefaultConfig (Name r) = true)
  /\ (forall d filename,
        lintDiagram (New DefaultConfig) d filename
        = flat_map (fun r => map (stamped DefaultConfig filename r) (Check r d)) AllRules).
Proof.
  assert (Hon : forall r, r ∈ AllRules -> IsRuleEnabled DefaultConfig (Name r) = true).
  { intros r. unfold AllRules. rewrite !elem_of_cons.
    intros [->|[->|[->|[->|[->|[->|H]]]]]]; [..|inversion H]; reflexivity. }
  split; [|split; [|split; [exact Hon|]]].
  - apply (bool_decide_unpack (NoDup (map Name AllRules))). vm_compute. exact I.
  - intros name. unfold DefaultConfig. cbn [CRules list_to_map foldr fst snd].
    rewrite !lookup_insert_is_Some, lookup_empty.
    cbn [map AllRules Name NoUnknownDiagramType NoEmptyDiagram ValidDirection
           NoDuplicateNodeIDs NodeHasLabel NoOrphanNodes].
    rewrite !elem_of_cons, elem_of_nil.
    unfold NoUnknownDiagramType_Name, NoEmptyDiagram_Name, ValidDirection_Name,
      NoDuplicateNodeIDs_Name, NodeHasLabel_Name, NoOrphanNodes_Name.
    split.
    + intros H. repeat (destruct H as [H|[_ H]]; [left; by symmetry|right]).
      by apply is_Some_None in H.
    + intros H.
      repeat (destruct H as [->|H];
              [repeat (first [left; reflexivity | right; split; [discriminate|]])|]).
      done.
  - intros d filename. rewrite lintDiagram_contributions.
    apply flat_map_ext_elem. intros r Hr. unfold contribution. by rewrite (Hon r Hr).
Qed.

(** ** The command: severity filter, exit code, supported files *)

Section Command.

Lemma order_lookup (s : Severity) :
  order !! s
  = if decide (s = "info") then Some 0
    else if decide (s = "warning") then Some 1
    else if decide (s = "error") then Some 2
    else None.
Proof.
  unfold order, SeverityInfo, SeverityWarning, SeverityError.
  cbn [list_to_map foldr fst snd].
  repeat (destruct (decide _) as [->|?]; [reflexivity|rewrite lookup_insert_ne by done]).
  apply lookup_empty.
Qed.

Lemma filterStep_fold (minOrder : Z) (findings : list Finding) :
  forall acc,
    fold_left (filterStep minOrder) findings acc
    = acc ++ List.filter (fun f => lookupInt order (FSeverity f) >=? minOrder) findings.
Proof.
  induction findings as [|f fs IH]; intros acc; cbn [fold_left List.filter].
  - by rewrite app_nil_r.
  - rewrite IH. unfold filterStep.
    destruct (lookupInt order (FSeverity f) >=? minOrder); [|done].
    by rewrite <- app_assoc.
Qed.

Lemma rank_cases (s : Severity) :
  lookupInt order s
  = if decide (s = "info") then 0
    else if decide (s = "warning") then 1
    else if decide (s = "error") then 2
    else 0.
Proof. unfold lookupInt. rewrite order_lookup. by repeat destruct (decide _). Qed.

(** The filter keeps every finding of severity error. *)
Lemma filterBySeverity_errors (findings : list Finding) (minSeverity : Severity) :
  exists p : Finding -> bool,
    filterBySeverity findings minSeverity = List.filter p findings
    /\ forall f, isError f = true -> p f = true.
Proof.
  unfold filterBySeverity. rewrite order_lookup.
  assert (Herr : forall f, isError f = true -> lookupInt order (FSeverity f) = 2).
  { intros f Hf. apply eqb_str_true in Hf. rewrite rank_cases, Hf.
    by repeat destruct (decide _). }
  repeat destruct (decide _);
    try (eexists; split; [rewrite filterStep_fold; reflexivity|];
         intros f Hf; cbv beta; by rewrite (Herr f Hf)).
  exists (fun _ => true). split; [|done]. by rewrite filter_all by by apply Forall_true.
Qed.

Lemma countStep_filter (p : Finding -> bool) (findings : list Finding) :
  (forall f, isError f = true -> p f = true) ->
  forall n, fold_left countStep (List.filter p findings) n = fold_left countStep findings n.
Proof.
  intros Hp. induction findings as [|f fs IH]; intros n; cbn [List.filter fold_left]; [done|].
  destruct (p f) eqn:Hf; cbn [fold_left]; [apply IH|].
  rewrite IH. f_equal. unfold countStep.
  destruct (eqb_str (FSeverity f) SeverityError) eqn:He; [|done].
  rewrite (Hp f He) in Hf. done.
Qed.

Lemma lintStep_fold (fs : FileSystem) (l : Linter) (files : list string) :
  forall acc,
    fold_left (lintStep fs l) files acc
    = acc ++ flat_map (fun file => match LintFile fs l file with
                                   | inl findings => findings
                                   | inr _ => []
                                   end) files.
Proof.
  induction files as [|file files IH]; intros acc; cbn [fold_left flat_map].
  - by rewrite app_nil_r.
  - rewrite IH. unfold lintStep. destruct (LintFile fs l file).
    + by rewrite <- app_assoc.
    + done.
Qed.

End Command.

(** X20.  What the severity filter keeps.  At [info] it keeps every
    finding, those of a severity outside the three known ones included; at
    [warning] exactly the findings of severity warning or error; at [error]
    exactly those of severity error; and for a severity that is not one of
    the three it returns the findings unchanged.  The order of the findings
    is kept. *)
Theorem X20_severity_filter (findings : list Finding) :
  filterBySeverity findings "info" = findings
  /\ filterBySeverity findings "warning" = List.filter isWarningOrError findings
  /\ filterBySeverity findings "error" = List.filter isError findings
  /\ (forall minSeverity, minSeverity ∉ ["info"; "warning"; "error"] ->
        filterBySeverity findings minSeverity = findings).
Proof.
  unfold filterBySeverity. split; [|split; [|split]].
  - rewrite order_lookup, decide_True by done. rewrite filterStep_fold. cbn [app].
    apply filter_all. rewrite list.Forall_forall. intros f _.
    rewrite rank_cases. by repeat destruct (decide _).
  - rewrite order_lookup, decide_False, decide_True by done.
    rewrite filterStep_fold. cbn [app].
    apply filter_ext. intros f. rewrite rank_cases. unfold isWarningOrError, eqb_str.
    unfold SeverityWarning, SeverityError.
    repeat (destruct (decide _) as [->|?]); try done;
      rewrite ?bool_decide_eq_true_2, ?bool_decide_eq_false_2 by done; done.
  - rewrite order_lookup, !decide_False, decide_True by done.
    rewrite filterStep_fold. cbn [app].
    apply filter_ext. intros f. rewrite rank_cases. unfold isError, eqb_str.
    unfold SeverityError.
    repeat (destruct (decide _) as [->|?]); try done;
      rewrite ?bool_decide_eq_true_2, ?bool_decide_eq_false_2 by done; done.
  - intros minSeverity Hmin. rewrite order_lookup.
    rewrite !not_elem_of_cons in Hmin. destruct Hmin as (H1 & H2 & H3 & _).
    by repeat destruct (decide _).
Qed.

(** X21.  The severity filter never changes the exit code: it keeps every
    finding of severity error, whatever the severity asked for, so the exit
    code computed from the filtered findings is the one computed from all of
    them. *)
Theorem X21_filter_keeps_exit_code (findings : list Finding) (minSeverity : Severity) :
  List.filter isError (filterBySeverity findings minSeverity) = List.filter isError findings
  /\ exitCode (filterBySeverity findings minSeverity) = exitCode findings.
Proof.
  destruct (filterBySeverity_errors findings minSeverity) as (p & -> & Hp). split.
  - induction findings as [|f fs IH]; cbn [List.filter]; [done|].
    destruct (p f) eqn:Hf; cbn [List.filter]; [by rewrite IH|].
    destruct (isError f) eqn:He; [|done]. rewrite (Hp f He) in Hf. done.
  - unfold exitCode. by rewrite countStep_filter.
Qed.

(** X22.  A file whose linting fails (unsupported type, unreadable file,
    over-long line) contributes no finding and does not raise the exit code:
    the findings of a run are those of the files that lint, file after file,
    and when linting fails for every file there is no finding and the exit
    code computed from the findings is 0. *)
Theorem X22_failed_files_are_passed_over (fs : FileSystem) (l : Linter)
    (files : list string) (severityFilter : string) :
  runFindings fs l files severityFilter
  = runFindings fs l (List.filter (lints fs l) files) severityFilter
  /\ (Forall (fun file => lints fs l file = false) files ->
      runFindings fs l files severityFilter = []
      /\ exitCode (runFindings fs l files severityFilter) = 0).
Proof.
  assert (H : fold_left (lintStep fs l) files []
              = fold_left (lintStep fs l) (List.filter (lints fs l) files) []).
  { rewrite !lintStep_fold. cbn [app].
    induction files as [|file files IH]; cbn [List.filter flat_map]; [done|].
    unfold lints at 1. destruct (LintFile fs l file) eqn:E; cbn [flat_map app].
    - by rewrite E, IH.
    - exact IH. }
  split.
  - unfold runFindings. by rewrite H.
  - intros Hall. unfold runFindings. rewrite H, filter_none by done. cbn [fold_left].
    assert (Hempty : forall sev, filterBySeverity [] sev = []).
    { intros sev. unfold filterBySeverity. by destruct (order !! sev). }
    destruct (negb _); rewrite ?Hempty; done.
Qed.

Lemma X22_failed_files_are_passed_over_witness :
  exitCode (runFindings (fun _ => inr "permission denied") (New DefaultConfig)
              ["a.mmd"; "notes.txt"; "doc.md"] "") = 0.
Proof.
  destruct (X22_failed_files_are_passed_over (fun _ => inr "permission denied")
              (New DefaultConfig) ["a.mmd"; "notes.txt"; "doc.md"] "") as [_ H].
  apply H. repeat constructor.
Defined.


(** ** The findings of a markdown document *)

Section MarkdownLines.

Lemma splitFrom_app (sep : ascii) (e r : string) :
  hasChar sep e = false ->
  forall cur, splitFrom sep cur (e +:+ String sep r) = (cur +:+ e) :: splitFrom sep "" r.
Proof.
  induction e as [|c e IH]; intros He cur.
  - change ("" +:+ String sep r) with (String sep r). cbn [splitFrom].
    by rewrite Ascii.eqb_refl, append_nil_r.
  - cbn [hasChar] in He. apply orb_false_iff in He as [Hc He].
    rewrite append_cons. cbn [splitFrom]. rewrite Hc, IH by done.
    by rewrite append_assoc.
Qed.

(** Joining lines that hold no line feed and splitting again gives the
    lines back. *)
Lemma Split_Join (ls : list string) :
  ls <> [] ->
  Forall (fun l => hasChar LF l = false) ls ->
  Split (Join ls nl) LF = ls.
Proof.
  induction ls as [|e ls IH]; intros Hne Hls; [done|].
  apply Forall_cons in Hls as [He Hls].
  destruct ls as [|e' ls].
  - cbn [Join]. unfold Split. by rewrite splitFrom_no_sep.
  - change (Join (e :: e' :: ls) nl) with (e +:+ nl +:+ Join (e' :: ls) nl).
    unfold Split, nl. rewrite append_cons. change ("" +:+ Join (e' :: ls) (String LF ""))
      with (Join (e' :: ls) nl).
    rewrite splitFrom_app by done. f_equal. by apply IH.
Qed.

Lemma Join_lines_count (body : list string) :
  Forall (fun l => hasChar LF l = false) body ->
  length (Split (Join body nl) LF) = Nat.max 1 (length body).
Proof.
  intros Hbody. destruct body as [|e body]; [done|].
  rewrite Split_Join by done. cbn [length]. lia.
Qed.

End MarkdownLines.

(** X24.  Every finding of a markdown document points into one of its
    mermaid blocks.  For a document of fewer than 2^63 lines, read line by
    line to a clean end, each finding belongs to a block that was extracted
    and is located after the opening fence of that block and not after its
    closing fence; it is located before the closing fence unless the block
    is empty (the fences on consecutive lines). *)
Theorem X24_findings_inside_blocks (cfg : Config) (doc : list string) (filename : string)
    (findings : list Finding) (f : Finding) :
  Z.of_nat (length doc) < 2 ^ 63 ->
  Forall (fun l => hasChar LF l = false) doc ->
  LintMarkdownReader (New cfg) (mkScanner doc None) filename = inl findings ->
  f ∈ findings ->
  exists bs b,
    ExtractMermaidBlocks (mkScanner doc None) = inl bs /\ b ∈ bs
    /\ BlockStartLine b < Line f <= EndLine b
    /\ (EndLine b <> BlockStartLine b + 1 -> Line f < EndLine b).
Proof.
  intros Hbound Hdoc. unfold LintMarkdownReader, ExtractMermaidBlocks. cbn [Lines Err].
  intros [= <-] Hf. rewrite blockStep_fold in Hf. cbn [app] in Hf.
  apply list_elem_of_In, in_flat_map in Hf as (b & Hb & Hf).
  apply list_elem_of_In in Hb, Hf.
  eexists _, b. split; [reflexivity|]. split; [exact Hb|].
  destruct (extract_inv doc Hbound) as (_ & Hblocks & _).
  rewrite list.Forall_forall in Hblocks.
  destruct (Hblocks b Hb)
    as (pre & opener & body & closer & post & Heq & _ & _ & _ & Hsrc & Hstart & Hend).
  assert (Hbody : Forall (fun l => hasChar LF l = false) body).
  { rewrite Heq in Hdoc. apply Forall_app in Hdoc as [_ Hdoc].
    apply Forall_cons in Hdoc as [_ Hdoc]. by apply Forall_app in Hdoc as [Hdoc _]. }
  assert (Hlen : Z.of_nat (length pre) + Z.of_nat (length body) + 2 <= Z.of_nat (length doc)).
  { rewrite Heq, !length_app. cbn [length]. rewrite length_app. cbn [length]. lia. }
  rewrite Hsrc in Hf. rewrite int_add_1 in Hf by lia.
  apply lintDiagram_Parse_range in Hf;
    rewrite ?Join_lines_count in * by done; [|lia|lia].
  rewrite Hstart, Hend. destruct body as [|e body]; cbn [length] in *; lia.
Qed.

(** A witness for X24: the finding of the test suite at line 4, in the
    block of lines 3 to 6. *)
Lemma X24_findings_inside_blocks_witness :
  exists bs b,
    ExtractMermaidBlocks
      (mkScanner ["# Doc"; ""; "```mermaid"; "flowchart XX"; "  A --> B"; "```"; ""] None)
    = inl bs /\ b ∈ bs
    /\ BlockStartLine b
       < Line (mkFinding "valid-direction" "error"
                 (Sprintf "invalid flowchart direction %q; must be one of TB, TD, BT, LR, RL"
                    [Quoted "XX"]) "test.md" 4)
       <= EndLine b
    /\ (EndLine b <> BlockStartLine b + 1 ->
        Line (mkFinding "valid-direction" "error"
                (Sprintf "invalid flowchart direction %q; must be one of TB, TD, BT, LR, RL"
                   [Quoted "XX"]) "test.md" 4)
        < EndLine b).
Proof.
  eapply (X24_findings_inside_blocks DefaultConfig
            ["# Doc"; ""; "```mermaid"; "flowchart XX"; "  A --> B"; "```"; ""] "test.md").
  - vm_compute. reflexivity.
  - repeat constructor.
  - vm_compute. reflexivity.
  - apply list_elem_of_here.
Defined.

(** ** Sources that grow *)

Section Growth.

Lemma sameNode_refl (n : Node) : sameNode n n.
Proof. by repeat split. Qed.

Lemma sameNode_trans (n1 n2 n3 : Node) : sameNode n1 n2 -> sameNode n2 n3 -> sameNode n1 n3.
Proof.
  intros (Hid & Hline & Hlab) (Hid' & Hline' & Hlab').
  split; [congruence|]. split; [congruence|].
  intros H. specialize (Hlab H). subst n2. by apply Hlab'.
Qed.

Lemma extends_refl (st : flowState) : extends st st.
Proof. split; [done|]. intros i n Hn. exists n. split; [done|apply sameNode_refl]. Qed.

Lemma extends_trans (st1 st2 st3 : flowState) :
  extends st1 st2 -> extends st2 st3 -> extends st1 st3.
Proof.
  intros [He Hn] [He' Hn']. split.
  - intros i e H. by apply He', He.
  - intros i n1 H. apply Hn in H as (n2 & H2 & Hs).
    apply Hn' in H2 as (n3 & H3 & Hs'). exists n3. split; [done|].
    by apply (sameNode_trans n1 n2 n3).
Qed.

Lemma backfill_lookup (id label shape : string) (ns : list Node) :
  forall i n, ns !! i = Some n ->
    exists n', backfill id label shape ns !! i = Some n' /\ sameNode n n'.
Proof.
  induction ns as [|n0 ns IH]; intros i n Hi; [done|]. cbn [backfill].
  destruct (eqb_str (NodeID n0) id && eqb_str (NodeLabel n0) "") eqn:Hc.
  - destruct i as [|i]; cbn in Hi |- *.
    + injection Hi as <-. eexists. split; [reflexivity|].
      apply andb_true_iff in Hc as [_ Hl]. apply eqb_str_true in Hl.
      split; [done|]. split; [done|]. done.
    + exists n. split; [done|apply sameNode_refl].
  - destruct i as [|i]; cbn in Hi |- *.
    + injection Hi as <-. exists n0. split; [done|apply sameNode_refl].
    + by apply IH.
Qed.

Lemma extends_append (st : flowState) (seen : gmap string bool) (ns : list Node)
    (es : list Edge) :
  extends st (mkFlow seen (nodes st ++ ns) (edges st ++ es)).
Proof.
  split; cbn [nodes edges].
  - intros i e H. by apply lookup_app_l_Some.
  - intros i n H. exists n. split; [by apply lookup_app_l_Some|apply sameNode_refl].
Qed.

Lemma register_extends (lineNum : Z) (id : string) (st : flowState) :
  extends st (register lineNum id st).
Proof.
  unfold register. destruct (negb _); [|apply extends_refl].
  pose proof (extends_append st (<[id := true]> (seenNodes st)) [mkNode id "" lineNum ""] [])
    as H.
  by rewrite app_nil_r in H.
Qed.

Lemma edgeStep_extends (lineNum : Z) (st : flowState) (m : submatches) :
  extends st (edgeStep lineNum st m).
Proof.
  unfold edgeStep.
  eapply extends_trans; [|apply register_extends].
  eapply extends_trans; [|apply register_extends].
  pose proof (extends_append st (seenNodes st) []
                [mkEdge (group m 1) (group m 4) (group m 3) lineNum (group m 2)]) as H.
  by rewrite app_nil_r in H.
Qed.

Lemma nodeStep_extends (lineNum : Z) (st : flowState) (m : submatches) :
  extends st (nodeStep lineNum st m).
Proof.
  unfold nodeStep. destruct (eqb_str (group m 1) ""); [apply extends_refl|].
  destruct (labelShape m) as [label shape].
  destruct (negb (lookupBool (seenNodes st) (group m 1))).
  - pose proof (extends_append st (<[group m 1 := true]> (seenNodes st))
                  [mkNode (group m 1) label lineNum shape] []) as H.
    by rewrite app_nil_r in H.
  - destruct (negb (eqb_str label "")); [|apply extends_refl].
    split; cbn [nodes edges]; [done|]. intros i n. apply backfill_lookup.
Qed.

Lemma flowLine_extends (startLine : Z) (i : nat) (line : string) (st : flowState) :
  extends st (flowLine startLine i line st).
Proof.
  apply (flowLine_preserves (extends st)); [| |apply extends_refl].
  - intros _ st' m _ H. eapply extends_trans; [exact H|apply edgeStep_extends].
  - intros _ st' m _ H. eapply extends_trans; [exact H|apply nodeStep_extends].
Qed.

Lemma flowLoop_extends (startLine : Z) (lines : list string) :
  forall i st, extends st (flowLoop startLine i lines st).
Proof.
  induction lines as [|line rest IH]; intros i st; cbn [flowLoop]; [apply extends_refl|].
  eapply extends_trans; [apply flowLine_extends|apply IH].
Qed.

Lemma flowLoop_app (startLine : Z) (l1 l2 : list string) :
  forall i st,
    flowLoop startLine i (l1 ++ l2) st
    = flowLoop startLine (i + length l1) l2 (flowLoop startLine i l1 st).
Proof.
  induction l1 as [|line rest IH]; intros i st; cbn [app flowLoop length].
  - by rewrite Nat.add_0_r.
  - rewrite IH. f_equal. lia.
Qed.

Lemma splitFrom_append (sep : ascii) (a b : string) :
  forall cur,
    splitFrom sep cur (a +:+ String sep b) = splitFrom sep cur a ++ splitFrom sep "" b.
Proof.
  induction a as [|c a IH]; intros cur.
  - change ("" +:+ String sep b) with (String sep b). cbn [splitFrom app].
    by rewrite Ascii.eqb_refl.
  - rewrite append_cons. cbn [splitFrom]. destruct (Ascii.eqb c sep).
    + by rewrite IH.
    + apply IH.
Qed.

Lemma Split_append (a b : string) :
  Split (a +:+ nl +:+ b) LF = Split a LF ++ Split b LF.
Proof.
  unfold Split, nl. rewrite append_cons.
  change ("" +:+ b) with b. apply splitFrom_append.
Qed.

Lemma parseType_header (lines : list string) :
  forall d d', header d = header d' -> header (parseType d lines) = header (parseType d' lines).
Proof.
  induction lines as [|line rest IH]; intros d d' H; cbn [parseType]; [done|].
  destruct (blankOrComment _); [by apply IH|].
  destruct (Fields _) as [|keyword more]; [by apply IH|].
  unfold header in *. cbn [Type_ TypeRaw Direction].
  injection H as _ _ ->. done.
Qed.

Lemma parseType_app_cases (d : Diagram) (l1 l2 : list string) :
  parseType d (l1 ++ l2) = parseType d l1 \/ parseType d l1 = d.
Proof.
  induction l1 as [|line rest IH]; cbn [app parseType]; [by right|].
  destruct (blankOrComment _); [exact IH|].
  destruct (Fields _) as [|keyword more]; [exact IH|]. by left.
Qed.

(** The nodes and edges of a flowchart or graph are those of the loop. *)
Lemma Parse_flow (source : string) (startLine : Z) :
  isFlow (Type_ (Parse source startLine)) = true ->
  Nodes (Parse source startLine)
  = nodes (flowLoop startLine 0 (Split source LF) (mkFlow ∅ [] []))
  /\ Edges (Parse source startLine)
     = edges (flowLoop startLine 0 (Split source LF) (mkFlow ∅ [] [])).
Proof.
  destruct (Parse_header source startLine) as (Hty & _).
  revert Hty. unfold Parse. fold (emptyDiagram (Split source LF) startLine).
  set (d0 := emptyDiagram (Split source LF) startLine).
  destruct (parseType_Nodes (Split source LF) d0) as (Hn & He & Hs).
  destruct (isFlow (Type_ (parseType d0 (Split source LF)))) eqn:Hflow; intros Hty Hf.
  - unfold parseFlowchart. cbn [Nodes Edges]. by rewrite Hn, He, Hs.
  - by rewrite Hflow in Hf.
Qed.

Lemma Parse_not_flow (source : string) (startLine : Z) :
  isFlow (Type_ (Parse source startLine)) = false ->
  Nodes (Parse source startLine) = [] /\ Edges (Parse source startLine) = [].
Proof.
  intros Hflow.
  destruct (Parse_state source startLine) as (st & -> & -> & [->|[Hf _]]); [done|].
  by rewrite Hf in Hflow.
Qed.

(** A declaration that was found is not changed by the lines that follow. *)
Lemma Parse_append_header (source more : string) (startLine : Z) :
  TypeRaw (Parse source startLine) <> "" ->
  header (Parse (source +:+ nl +:+ more) startLine) = header (Parse source startLine).
Proof.
  intros Hraw.
  destruct (Parse_header source startLine) as (Hty & Hr & Hdir & _).
  destruct (Parse_header (source +:+ nl +:+ more) startLine) as (Hty' & Hr' & Hdir' & _).
  unfold header at 1 2. rewrite Hty, Hr, Hdir, Hty', Hr', Hdir'. rewrite Hr in Hraw.
  rewrite Split_append.
  set (L1 := Split source LF) in *. set (L2 := Split more LF).
  fold (header (parseType (emptyDiagram (L1 ++ L2) startLine) (L1 ++ L2))).
  fold (header (parseType (emptyDiagram L1 startLine) L1)).
  destruct (parseType_app_cases (emptyDiagram (L1 ++ L2) startLine) L1 L2) as [->|Hnone].
  - by apply parseType_header.
  - exfalso. apply Hraw.
    assert (H : header (parseType (emptyDiagram L1 startLine) L1)
                = header (emptyDiagram (L1 ++ L2) startLine)).
    { rewrite <- Hnone. by apply parseType_header. }
    unfold header in H. by injection H as _ -> _.
Qed.

End Growth.

(** X25.  Lines added at the end of a source only add to its parse.  When
    [more] is appended to [source] on new lines, every edge of the parse of
    [source] is, at the same position, an edge of the parse of the longer
    source; every node of the parse of [source] is, at the same position, a
    node of the longer parse with the same id and the same line, and it is
    the same node (label and shape included) if it already had a label.  A
    declaration found in [source] is the declaration of the longer
    source. *)
Theorem X25_appending_lines (source more : string) (startLine : Z) :
  let d1 := Parse source startLine in
  let d2 := Parse (source +:+ nl +:+ more) startLine in
  (forall i e, Edges d1 !! i = Some e -> Edges d2 !! i = Some e)
  /\ (forall i n1, Nodes d1 !! i = Some n1 ->
        exists n2, Nodes d2 !! i = Some n2 /\ sameNode n1 n2)
  /\ (TypeRaw d1 <> "" -> header d2 = header d1).
Proof.
  intros d1 d2.
  assert (Hhead : TypeRaw d1 <> "" -> header d2 = header d1)
    by apply Parse_append_header.
  destruct (isFlow (Type_ d1)) eqn:Hflow.
  - assert (Hraw : TypeRaw d1 <> "").
    { intros Hraw. destruct (Parse_header source startLine) as (Hty & Hr & _).
      fold d1 in Hty, Hr.
      destruct (parseType_cases (Split source LF) (emptyDiagram (Split source LF) startLine))
        as [Heq|(kw & dir & Hkw & _ & Heq)]; rewrite Heq in Hty, Hr.
      - rewrite Hty in Hflow. done.
      - cbn [TypeRaw] in Hr. congruence. }
    assert (Hflow2 : isFlow (Type_ d2) = true).
    { specialize (Hhead Hraw). unfold header in Hhead. injection Hhead as -> _ _. done. }
    destruct (Parse_flow source startLine Hflow) as [Hn1 He1].
    destruct (Parse_flow (source +:+ nl +:+ more) startLine Hflow2) as [Hn2 He2].
    fold d1 in Hn1, He1. fold d2 in Hn2, He2.
    rewrite Split_append, flowLoop_app in Hn2, He2.
    destruct (flowLoop_extends startLine (Split more LF) (0 + length (Split source LF))
                (flowLoop startLine 0 (Split source LF) (mkFlow ∅ [] []))) as [He Hn].
    rewrite Hn1, He1, Hn2, He2. done.
  - destruct (Parse_not_flow source startLine Hflow) as [Hn He].
    fold d1 in Hn, He. rewrite Hn, He. done.
Qed.

(** ** Documents read one after the other *)

Section Concatenation.

Lemma lint_block_shift (cfg : Config) (filename : string) (delta : Z) (b : MermaidBlock) :
  lintDiagram (New cfg)
    (Parse (BlockSource (shiftBlock delta b)) (int_add (BlockStartLine (shiftBlock delta b)) 1))
    filename
  = map (shiftFinding delta)
      (lintDiagram (New cfg) (Parse (BlockSource b) (int_add (BlockStartLine b) 1)) filename).
Proof.
  cbn [shiftBlock BlockSource BlockStartLine].
  rewrite <- lintDiagram_Parse_shift. do 2 f_equal.
  unfold int_add. rewrite wrap64_add_l. f_equal. lia.
Qed.

End Concatenation.

(** X26.  Linting composes over concatenation: when the lines [doc1] do not
    end inside an open block, the findings of [doc1 ++ doc2] are those of
    [doc1] followed by those of [doc2], each of these located further down
    by the length of [doc1] (documents of fewer than 2^63 lines, read to a
    clean end). *)
Theorem X26_linting_a_concatenation (cfg : Config) (doc1 doc2 : list string)
    (filename : string) (fs1 fs2 : list Finding) :
  Z.of_nat (length (doc1 ++ doc2)) < 2 ^ 63 ->
  current (fold_left extractStep doc1 extractInit) = None ->
  LintMarkdownReader (New cfg) (mkScanner doc1 None) filename = inl fs1 ->
  LintMarkdownReader (New cfg) (mkScanner doc2 None) filename = inl fs2 ->
  LintMarkdownReader (New cfg) (mkScanner (doc1 ++ doc2) None) filename
  = inl (fs1 ++ map (shiftFinding (Z.of_nat (length doc1))) fs2).
Proof.
  intros Hbound Hout. unfold LintMarkdownReader.
  rewrite (extract_concat doc1 doc2 _ _ Hbound Hout eq_refl eq_refl).
  unfold ExtractMermaidBlocks. cbn [Lines Err]. intros [= <-] [= <-]. f_equal.
  rewrite !blockStep_fold. cbn [app]. rewrite flat_map_app. f_equal.
  induction (blocks (fold_left extractStep doc2 extractInit)) as [|b bs IH];
    cbn [map flat_map]; [done|].
  by rewrite map_app, IH, lint_block_shift.
Qed.

Lemma X26_linting_a_concatenation_witness :
  LintMarkdownReader (New DefaultConfig)
    (mkScanner (["```mermaid"; "flowchart XX"; "```"; "text"]
                ++ ["intro"; "~~~mermaid"; "graph"; "```"]) None) "a.md"
  = inl ([mkFinding "no-empty-diagram" "warning" (Text "diagram has no nodes or edges") "a.md" 2;
          mkFinding "valid-direction" "error"
            (Sprintf "invalid flowchart direction %q; must be one of TB, TD, BT, LR, RL"
               [Quoted "XX"]) "a.md" 2]
         ++ map (shiftFinding 4)
              [mkFinding "no-empty-diagram" "warning" (Text "diagram has no nodes or edges")
                 "a.md" 3]).
Proof.
  apply (X26_linting_a_concatenation DefaultConfig
           ["```mermaid"; "flowchart XX"; "```"; "text"]
           ["intro"; "~~~mermaid"; "graph"; "```"] "a.md").
  - vm_compute. reflexivity.
  - vm_compute. reflexivity.
  - vm_compute. reflexivity.
  - vm_compute. reflexivity.
Defined.
